(** * A shallow embedding of the seq2seq translation model

    The development follows [translate/seq2seq_model.py] and
    [translate/decoders.py]: batch construction ([get_batch]), the
    beam-search decoder, the multi-encoder, the constructor of
    [Seq2SeqModel], the attention decoder loop, the attention scorers
    and the sentence-level BLEU reward.

    Conventions.  Python lists are Rocq lists; token ids are [Z] (the
    code uses [-1] as a padding sentinel); Python exceptions are an
    explicit error result; numpy/TensorFlow float values that the code
    only ever sets to exactly representable constants are rationals. *)

From Stdlib Require Import ZArith QArith Reals Lra Lia Bool String SpecFloat.
From stdpp Require Import base option list countable gmap sorting.

Local Open Scope nat_scope.
Local Open Scope stdpp_scope.

(** ** Python exceptions and the error monad *)

Inductive exn : Type :=
  | ValueError | IndexError | TypeError | AssertionError | NotImplementedError.

Inductive result (A : Type) : Type :=
  | Ok (a : A)
  | Raise (e : exn).
Arguments Ok {A} a.
Arguments Raise {A} e.

Global Instance result_ret : MRet result := λ A, Ok.
Global Instance result_bind : MBind result :=
  λ A B f r, match r with Ok a => f a | Raise e => Raise e end.
Global Instance result_fmap : FMap result :=
  λ A B f r, match r with Ok a => Ok (f a) | Raise e => Raise e end.

Definition raises {A} (r : result A) : Prop := ∃ e, r = Raise e.

(** A [for] loop whose body may raise. *)
Fixpoint foldM {A B} (f : A → B → result A) (a : A) (l : list B) : result A :=
  match l with
  | [] => Ok a
  | x :: l => a' ← f a x; foldM f a' l
  end.

(** ** Python list primitives *)

Module Py.

(** [l[i]] for [i >= 0]. *)
Definition getitem {A} (l : list A) (i : nat) : result A :=
  match l !! i with Some x => Ok x | None => Raise IndexError end.

(** [l[-1]]. *)
Definition getlast {A} (l : list A) : result A :=
  match last l with Some x => Ok x | None => Raise IndexError end.

(** [max(...)] over a non-empty iterable of lengths. *)
Definition max_of (l : list nat) : result nat :=
  match l with
  | [] => Raise ValueError
  | _ :: _ => Ok (max_list l)
  end.

(** [*init, last = l]. *)
Definition unpack_star_last {A} (l : list A) : result (list A * A) :=
  match last l with
  | Some x => Ok (removelast l, x)
  | None => Raise ValueError
  end.

(** [l[:b]] for a possibly negative bound. *)
Definition slice_to {A} (l : list A) (b : Z) : list A :=
  if (0 <=? b)%Z then take (Z.to_nat b) l
  else take (length l - Z.to_nat (- b)) l.

(** [np.array(rows).T] for rows of one common length. *)
Definition transpose {A} (rows : list (list A)) : list (list A) :=
  match rows with
  | [] => []
  | r :: _ => map (λ j, omap (λ row, row !! j) rows) (seq 0 (length r))
  end.

End Py.

(** ** Configuration records *)

Record encoder_config : Type := {
  name : string;
  binary : bool;
  vocab_size : nat;
  embedding_size : nat;
  cell_size : nat;
  layers : nat;
  bidir : bool;
  use_lstm : bool;
  input_layers : list nat;
  attention_filters : nat;
  attention_window_size : nat;
}.

(** The fields of a [Seq2SeqModel] object that the Python-side methods
    read.  [encoder_count] is [len(encoders)], as assigned by the
    constructor. *)
Record Seq2SeqModel : Type := {
  encoders : list encoder_config;
  trg_vocab_size : nat;
  max_output_len : nat;
  max_input_len : option nat;
  lm_weight : option Q;
  len_normalization : Q;
}.

Definition encoder_count (self : Seq2SeqModel) : nat := length (encoders self).

(** ** Batch construction: [Seq2SeqModel.get_batch] *)

(** An element of an input sequence: a token id, or a feature vector
    for a binary encoder. *)
Inductive item : Type :=
  | Tok (t : Z)
  | Vec (v : list Q).

Abbreviation sentence := (list item).

(** One sample: one sequence per encoder followed by the target. *)
Abbreviation sample := (list (list item)).

Record batch : Type := {
  batch_encoder_inputs : list (list sentence);
  batch_decoder_inputs : list (list item);
  batch_targets : list (list item);
  batch_weights : list (list Q);
  encoder_input_length : list (list nat);
  decoder_input_length : list nat;
}.

(** The four lists the loop of [get_batch] appends to. *)
Record batch_acc : Type := {
  acc_encoder_inputs : list (list sentence);
  acc_encoder_input_length : list (list nat);
  acc_decoder_inputs : list sentence;
  acc_decoder_input_length : list nat;
}.

Module Batch.
Section get_batch.

(** [utils.BOS_ID] and [utils.EOS_ID]. *)
Context (BOS_ID EOS_ID : Z).

Definition is_minus_one (x : item) : bool :=
  match x with Tok t => (t =? -1)%Z | Vec _ => false end.

Definition pad_of (encoder : encoder_config) : item :=
  if binary encoder
  then Vec (replicate (embedding_size encoder) 0%Q)
  else Tok EOS_ID.

(** Body of the inner loop over [enumerate(zip(self.encoders, src_sentences))]. *)
Definition encoder_step (max_input_len : list nat) (acc : batch_acc)
    (x : nat * (encoder_config * sentence)) : result batch_acc :=
  let '(i, (encoder, src_sentence)) := x in
  let pad := pad_of encoder in
  m ← Py.getitem max_input_len i;
  let src_sentence := take m src_sentence in
  let encoder_pad := replicate (1 + m - length src_sentence) pad in
  Ok {| acc_encoder_inputs :=
          alter (λ l, l ++ [src_sentence ++ encoder_pad]) i (acc_encoder_inputs acc);
        acc_encoder_input_length :=
          alter (λ l, l ++ [length src_sentence + 1]) i (acc_encoder_input_length acc);
        acc_decoder_inputs := acc_decoder_inputs acc;
        acc_decoder_input_length := acc_decoder_input_length acc |}.

(** Body of the loop [for *src_sentences, trg_sentence in data]. *)
Definition sample_step (self : Seq2SeqModel) (decoding : bool)
    (max_input_len : list nat) (max_output_len' : nat)
    (acc : batch_acc) (data_ : sample) : result batch_acc :=
  '(src_sentences, trg_sentence) ← Py.unpack_star_last data_;
  acc ← foldM (encoder_step max_input_len) acc
        (zip (seq 0 (length (encoders self))) (zip (encoders self) src_sentences));
  let trg_sentence := take max_output_len' trg_sentence in
  if decoding then
    Ok {| acc_encoder_inputs := acc_encoder_inputs acc;
          acc_encoder_input_length := acc_encoder_input_length acc;
          acc_decoder_input_length :=
            acc_decoder_input_length acc ++ [max_output_len self];
          acc_decoder_inputs :=
            acc_decoder_inputs acc ++
              [[Tok BOS_ID] ++ replicate (max_output_len self) (Tok EOS_ID)] |}
  else
    let decoder_pad_size := max_output_len' - length trg_sentence in
    let decoder_input_length' :=
      acc_decoder_input_length acc ++ [length trg_sentence + 1] in
    let trg_sentence :=
      [Tok BOS_ID] ++ trg_sentence ++ [Tok EOS_ID]
        ++ replicate decoder_pad_size (Tok (-1)%Z) in
    Ok {| acc_encoder_inputs := acc_encoder_inputs acc;
          acc_encoder_input_length := acc_encoder_input_length acc;
          acc_decoder_input_length := decoder_input_length';
          acc_decoder_inputs := acc_decoder_inputs acc ++ [trg_sentence] |}.

(** [[max(len(data_[i]) for data_ in data) for i in range(self.encoder_count)]] *)
Definition batch_max_input_len (self : Seq2SeqModel) (data : list sample)
    : result (list nat) :=
  mapM (λ i, lens ← mapM (λ data_ : sample, length <$> Py.getitem data_ i) data;
             Py.max_of lens)
       (seq 0 (encoder_count self)).

Definition get_batch (self : Seq2SeqModel) (data : list sample) (decoding : bool)
    : result batch :=
  let encoder_inputs := replicate (encoder_count self) [] in
  let encoder_input_length := replicate (encoder_count self) [] in
  let decoder_inputs := [] in
  let decoder_input_length := [] in
  let self_max_input_len := max_input_len self in
  (* maximum input length of each encoder in this batch *)
  max_input_len ← batch_max_input_len self data;
  let max_input_len :=
    match self_max_input_len with
    | Some cap => map (λ len_, Nat.min len_ cap) max_input_len
    | None => max_input_len
    end in
  (* maximum output length in this batch *)
  trg_lens ← mapM (λ data_ : sample, length <$> Py.getlast data_) data;
  longest ← Py.max_of trg_lens;
  let max_output_len' := Nat.min longest (max_output_len self) in
  acc ← foldM (sample_step self decoding max_input_len max_output_len')
        {| acc_encoder_inputs := encoder_inputs;
           acc_encoder_input_length := encoder_input_length;
           acc_decoder_inputs := decoder_inputs;
           acc_decoder_input_length := decoder_input_length |}
        data;
  (* time-major vectors: shape is (time, batch_size) *)
  let batch_decoder_inputs := Py.transpose (map (λ row, removelast row) (acc_decoder_inputs acc)) in
  let batch_targets := Py.transpose (map (drop 1) (acc_decoder_inputs acc)) in
  let batch_weights :=
    map (map (λ x, if is_minus_one x then 0%Q else 1%Q)) batch_targets in
  let replace_pad := map (map (λ x, if is_minus_one x then Tok EOS_ID else x)) in
  Ok {| batch_encoder_inputs := acc_encoder_inputs acc;
        batch_decoder_inputs := replace_pad batch_decoder_inputs;
        batch_targets := replace_pad batch_targets;
        batch_weights := batch_weights;
        encoder_input_length := acc_encoder_input_length acc;
        decoder_input_length := acc_decoder_input_length acc |}.

(** *** Closed forms used to state what [get_batch] builds *)

(** A source sentence cut to [m] items and padded to [m + 1] items. *)
Definition enc_row (m : nat) (encoder : encoder_config) (s : sentence) : sentence :=
  take m s ++ replicate (1 + m - length (take m s)) (pad_of encoder).

Definition enc_rows (mil : list nat) (encs : list encoder_config)
    (srcs : list sentence) : list sentence :=
  zip_with (λ m es, enc_row m es.1 es.2) mil (zip encs srcs).

Definition enc_lens (mil : list nat) (srcs : list sentence) : list nat :=
  zip_with (λ m s, length (take m s) + 1) mil srcs.

(** The target of a sample is its last sequence. *)
Definition trg_of (d : sample) : sentence := default [] (last d).

(** Longest [i]-th source of the batch, capped by [self.max_input_len]. *)
Definition batch_input_len (self : Seq2SeqModel) (data : list sample) (i : nat) : nat :=
  let longest := max_list (map (λ d : sample, length (d !!! i)) data) in
  match max_input_len self with
  | Some cap => Nat.min longest cap
  | None => longest
  end.

(** Longest target of the batch, capped by [self.max_output_len]. *)
Definition batch_output_len (self : Seq2SeqModel) (data : list sample) : nat :=
  Nat.min (max_list (map (λ d, length (trg_of d)) data)) (max_output_len self).

(** The row appended to [decoder_inputs] for one sample when not decoding. *)
Definition dec_row (mo : nat) (d : sample) : sentence :=
  [Tok BOS_ID] ++ take mo (trg_of d) ++ [Tok EOS_ID]
    ++ replicate (mo - length (take mo (trg_of d))) (Tok (-1)%Z).

(** The row and the length appended in either mode. *)
Definition dec_row_of (self : Seq2SeqModel) (decoding : bool) (mo : nat) (d : sample)
    : sentence :=
  if decoding then [Tok BOS_ID] ++ replicate (max_output_len self) (Tok EOS_ID)
  else dec_row mo d.

Definition dec_len_of (self : Seq2SeqModel) (decoding : bool) (mo : nat) (d : sample)
    : nat :=
  if decoding then max_output_len self else length (take mo (trg_of d)) + 1.

(** Decoder-input and target rows after the [-1] sentinel is replaced. *)
Definition dec_input_row (mo : nat) (d : sample) : sentence :=
  [Tok BOS_ID] ++ take mo (trg_of d)
    ++ replicate (mo - length (take mo (trg_of d))) (Tok EOS_ID).

Definition dec_target_row (mo : nat) (d : sample) : sentence :=
  take mo (trg_of d) ++ [Tok EOS_ID]
    ++ replicate (mo - length (take mo (trg_of d))) (Tok EOS_ID).

Definition dec_weight_row (mo : nat) (d : sample) : list Q :=
  replicate (length (take mo (trg_of d)) + 1) 1%Q
    ++ replicate (mo - length (take mo (trg_of d))) 0%Q.

(** Every sample carries one sequence per encoder and a target. *)
Definition well_formed (self : Seq2SeqModel) (data : list sample) : Prop :=
  data ≠ [] ∧ Forall (λ d : sample, length d = S (encoder_count self)) data.

End get_batch.
End Batch.

(** ** Beam search: [Seq2SeqModel.beam_search_decoding] *)

(** The float operations the decoder performs on scores.  The decoder
    is generic in them; [flog] is [np.log], [neg_inf] is
    [float('-inf')], [fleb] is the comparison used by [np.argsort]. *)
Class Numeric (num : Type) : Type := {
  of_Q : Q → num;
  of_nat : nat → num;
  fadd : num → num → num;
  fsub : num → num → num;
  fmul : num → num → num;
  fdiv : num → num → num;
  fpow : num → num → num;
  flog : num → num;
  neg_inf : num;
  fleb : num → num → bool;
}.

(** The tensors of the graph that [beam_search_decoding] feeds. *)
Inductive tensor : Type :=
  | encoder_inputs_ph (i : nat)
  | encoder_input_length_ph (i : nat)
  | decoder_inputs_ph
  | decoder_input_length_ph
  | encoder_state_t
  | attention_states_t (i : nat)
  | beam_tensors_state
  | beam_tensors_output.

Global Instance tensor_eq_dec : EqDecision tensor.
Proof. solve_decision. Defined.

Definition tensor_code (t : tensor) : nat * nat :=
  match t with
  | encoder_inputs_ph i => (0, i)
  | encoder_input_length_ph i => (1, i)
  | decoder_inputs_ph => (2, 0)
  | decoder_input_length_ph => (3, 0)
  | encoder_state_t => (4, 0)
  | attention_states_t i => (5, i)
  | beam_tensors_state => (6, 0)
  | beam_tensors_output => (7, 0)
  end.

Definition tensor_decode (c : nat * nat) : tensor :=
  match c with
  | (0, i) => encoder_inputs_ph i
  | (1, i) => encoder_input_length_ph i
  | (2, _) => decoder_inputs_ph
  | (3, _) => decoder_input_length_ph
  | (4, _) => encoder_state_t
  | (5, i) => attention_states_t i
  | (6, _) => beam_tensors_state
  | (_, _) => beam_tensors_output
  end.

Global Instance tensor_countable : Countable tensor.
Proof.
  apply (inj_countable' tensor_code tensor_decode). by intros [].
Defined.

Module Beam.
Section beam_search.

Context {num : Type} `{Numeric num}.

(** Values held by the tensors: decoder states, decoder outputs, the
    encoder summary and the per-encoder attention states of a sample. *)
Context {State Output EncState Attn : Type}.

Inductive value : Type :=
  | V_sentences (l : list (list item))
  | V_lengths (l : list nat)
  | V_tokens (l : list (list item))
  | V_enc_state (s : EncState)
  | V_attn (l : list Attn)
  | V_states (l : list State)
  | V_outputs (l : list Output).

(** One TensorFlow session holding one trained model.  [run_encoder]
    evaluates [encoder_state] and [attention_states[i]];
    [run_initial_state] evaluates [beam_tensors.state] from a fed
    [encoder_state]; [run_decoder feed k] is row [k] of
    ([beam_tensors.new_output], [beam_output], [beam_tensors.new_state])
    under [feed], the distribution being given per token id. *)
Record session : Type := {
  run_encoder_state : gmap tensor value → EncState;
  run_attention_states : gmap tensor value → nat → Attn;
  run_initial_state : gmap tensor value → State;
  run_decoder : gmap tensor value → nat → Output * (nat → num) * State;
}.

(** [utils.BOS_ID], [utils.EOS_ID] and [utils.estimate_lm_score]. *)
Context (BOS_ID EOS_ID : Z).
Context (estimate_lm_score : list Z → list (gmap (list Z) num) → num).

Record beam : Type := {
  hypotheses : list (list Z);
  scores : list num;
  beam_size : Z;
  finished_hypotheses : list (list Z);
  finished_scores : list num;
  state : list (list State);
  output : option (list (list Output));
  decoder_input : list item;
}.

(** [np.sum] of a list. *)
Definition fsum (xs : list num) : num := foldl fadd (of_Q 0) xs.

(** [np.average(xs, weights=weights)] on one cell. *)
Definition np_average (xs : list num) (weights : option (list num)) : num :=
  match weights with
  | None => fdiv (fsum xs) (of_nat (length xs))
  | Some w => fdiv (fsum (zip_with fmul xs w)) (fsum w)
  end.

(** [np.argsort]: the indices in ascending order of value.  NumPy's
    default sort is not stable and leaves the order of equal values
    open; among equal values the order taken here is the one
    [merge_sort] gives. *)
Definition argsort (xs : list num) : list nat :=
  (merge_sort (λ p q : nat * num, Is_true (fleb p.2 q.2)) (imap pair xs)).*1.

(** [l[start:]] for a possibly negative [start]. *)
Definition slice_from {A} (l : list A) (start : Z) : list A :=
  if (0 <=? start)%Z then drop (Z.to_nat start) l
  else drop (length l - Z.to_nat (- start)) l.

(** The language-model rows, the [if ngrams is not None] branch. *)
Definition lm_scores (self : Seq2SeqModel) (ngrams : list (gmap (list Z) num))
    (hyps : list (list Z)) : result (list (list num)) :=
  let lm_order := length ngrams in
  mapM (λ hypothesis,
    let hypothesis := [BOS_ID] ++ hypothesis in
    let history := slice_from hypothesis (1 - Z.of_nat lm_order) in
    mapM (λ token_id : nat,
      unigrams ← Py.getitem ngrams 0;
      if decide (unigrams !! [Z.of_nat token_id] = None) then Ok neg_inf
      else if decide (Z.of_nat token_id = BOS_ID) then Ok neg_inf
      else Ok (estimate_lm_score (history ++ [Z.of_nat token_id]) ngrams))
      (seq 0 (trg_vocab_size self))) hyps.

(** The flattened [scores_] of one step: cell [h * V + t] is the score
    of hypothesis [h] minus the averaged log-probability of token [t].
    Without n-grams [lm_score] is [np.zeros((1, V))], broadcast over
    the hypotheses, and [weights] is [None]. *)
Definition step_scores (self : Seq2SeqModel) (n_sessions : nat)
    (ngrams : option (list (gmap (list Z) num)))
    (hyps : list (list Z)) (scores : list num)
    (decoder_output : list (list (nat → num))) : result (list num) :=
  '(lm_score, weights) ←
    match ngrams with
    | Some ngrams =>
        lm_score ← lm_scores self ngrams hyps;
        let lm_weight :=
          match lm_weight self with
          | Some w => if Qeq_bool w 0 then (2 # 10)%Q else w
          | None => (2 # 10)%Q
          end in
        let weights :=
          replicate n_sessions
            (fdiv (fsub (of_Q 1) (of_Q lm_weight)) (of_nat n_sessions))
          ++ [of_Q lm_weight] in
        Ok (Some lm_score, Some weights)
    | None => Ok (None, None)
    end;
  rows ← mapM (λ '(h, score),
    log_rows ← mapM (λ decoder_output_ : list (nat → num),
                       Py.getitem decoder_output_ h) decoder_output;
    lm_row ← match lm_score with
             | Some lm_score => Py.getitem lm_score h
             | None => Ok (replicate (trg_vocab_size self) (of_Q 0))
             end;
    mapM (λ t,
      lm ← Py.getitem lm_row t;
      Ok (fsub score
            (np_average (map (λ row : nat → num, flog (row t)) log_rows ++ [lm])
               weights)))
      (seq 0 (trg_vocab_size self)))
    (imap pair scores);
  Ok (mjoin rows).

(** The per-session [input_feed] dictionaries of time step [t].  The
    Python variable [i] is the counter of the outer loop and is
    reassigned by the loop over the encoders. *)
Definition build_feeds (self : Seq2SeqModel)
    (encoder_input_length : list (list nat)) (attn_states : list (list Attn))
    (t : nat) (st : beam) : result (list (gmap tensor value)) :=
  let i := t in
  let batch_size := length (decoder_input st) in
  let input_feed :=
    map (λ state_,
           <[beam_tensors_state := V_states state_]>
             (<[decoder_inputs_ph := V_tokens [decoder_input st]]>
                (<[decoder_input_length_ph := V_lengths (replicate batch_size 1)]> ∅)))
        (state st) in
  '(input_feed, i) ←
    foldM (λ '(fed, i) feed,
             '(feed, i) ←
               foldM (λ '(feed, _) i,
                        len ← Py.getitem encoder_input_length i;
                        Ok (<[encoder_input_length_ph i := V_lengths len]> feed, i))
                     (feed, i) (seq 0 (encoder_count self));
             Ok (fed ++ [feed], i))
          ([], i) input_feed;
  input_feed ←
    (if 0 <? i then
       match output st with
       | Some output =>
           Ok (zip_with (λ input_feed_ output_,
                           <[beam_tensors_output := V_outputs output_]> input_feed_)
                        input_feed output)
       | None => Raise TypeError
       end
     else Ok input_feed);
  mapM (λ '(input_feed_, attn_states_),
          foldM (λ input_feed_ i,
                   a ← Py.getitem attn_states_ i;
                   Ok (<[attention_states_t i := V_attn (replicate batch_size a)]>
                         input_feed_))
                input_feed_ (seq 0 (encoder_count self)))
       (zip input_feed attn_states).

(** The lists filled by the loop over the kept candidates. *)
Record candidates : Type := {
  c_beam_size : Z;
  c_finished_hypotheses : list (list Z);
  c_finished_scores : list num;
  c_new_hypotheses : list (list Z);
  c_new_scores : list num;
  c_new_state : list (list State);
  c_new_output : list (list Output);
  c_new_input : list item;
}.

(** Body of [for flat_id, hyp_id, token_id in zip(flat_ids, hyp_ids, token_ids_)]. *)
Definition candidate_step (hyps : list (list Z)) (scores_ : list num)
    (decoder_state : list (list State)) (output : list (list Output))
    (c : candidates) (x : nat * (nat * nat)) : result candidates :=
  let '(flat_id, (hyp_id, token_id)) := x in
  h ← Py.getitem hyps hyp_id;
  let hypothesis := h ++ [Z.of_nat token_id] in
  score ← Py.getitem scores_ flat_id;
  if decide (Z.of_nat token_id = EOS_ID) then
    (* early stop: the hypothesis is finished *)
    Ok {| c_beam_size := c_beam_size c - 1;
          c_finished_hypotheses := c_finished_hypotheses c ++ [hypothesis];
          c_finished_scores := c_finished_scores c ++ [score];
          c_new_hypotheses := c_new_hypotheses c;
          c_new_scores := c_new_scores c;
          c_new_state := c_new_state c;
          c_new_output := c_new_output c;
          c_new_input := c_new_input c |}
  else
    states ← mapM (λ decoder_state_ : list State, Py.getitem decoder_state_ hyp_id)
               decoder_state;
    outputs ← mapM (λ output_ : list Output, Py.getitem output_ hyp_id) output;
    Ok {| c_beam_size := c_beam_size c;
          c_finished_hypotheses := c_finished_hypotheses c;
          c_finished_scores := c_finished_scores c;
          c_new_hypotheses := c_new_hypotheses c ++ [hypothesis];
          c_new_scores := c_new_scores c ++ [score];
          c_new_state := zip_with (λ l x, l ++ [x]) (c_new_state c) states;
          c_new_output := zip_with (λ l x, l ++ [x]) (c_new_output c) outputs;
          c_new_input := c_new_input c ++ [Tok (Z.of_nat token_id)] |}.

(** Body of [for i in range(self.max_output_len)], without the [break]. *)
Definition beam_step (self : Seq2SeqModel) (session : list session)
    (ngrams : option (list (gmap (list Z) num)))
    (encoder_input_length : list (list nat)) (attn_states : list (list Attn))
    (t : nat) (st : beam) : result beam :=
  let batch_size := length (decoder_input st) in
  input_feed ← build_feeds self encoder_input_length attn_states t st;
  let res :=
    zip_with (λ session_ input_feed_,
                map (run_decoder session_ input_feed_) (seq 0 batch_size))
             session input_feed in
  let output := map (map (λ r : Output * (nat → num) * State, r.1.1)) res in
  let decoder_output := map (map (λ r : Output * (nat → num) * State, r.1.2)) res in
  let decoder_state := map (map (λ r : Output * (nat → num) * State, r.2)) res in
  scores_ ← step_scores self (length session) ngrams (hypotheses st) (scores st)
              decoder_output;
  let flat_ids := Py.slice_to (argsort scores_) (beam_size st) in
  let token_ids_ := map (λ flat_id, flat_id mod trg_vocab_size self) flat_ids in
  let hyp_ids := map (λ flat_id, flat_id / trg_vocab_size self) flat_ids in
  c ← foldM (candidate_step (hypotheses st) scores_ decoder_state output)
        {| c_beam_size := beam_size st;
           c_finished_hypotheses := finished_hypotheses st;
           c_finished_scores := finished_scores st;
           c_new_hypotheses := [];
           c_new_scores := [];
           c_new_state := map (λ _, []) session;
           c_new_output := map (λ _, []) session;
           c_new_input := [] |}
        (zip flat_ids (zip hyp_ids token_ids_));
  Ok {| hypotheses := c_new_hypotheses c;
        scores := c_new_scores c;
        beam_size := c_beam_size c;
        finished_hypotheses := c_finished_hypotheses c;
        finished_scores := c_finished_scores c;
        state := c_new_state c;
        output := Some (c_new_output c);
        decoder_input := c_new_input c |}.

(** The [for] loop with its [if beam_size <= 0: break]. *)
Fixpoint beam_loop (step : nat → beam → result beam) (ts : list nat) (st : beam)
    : result beam :=
  match ts with
  | [] => Ok st
  | t :: ts =>
      st' ← step t st;
      if (beam_size st' <=? 0)%Z then Ok st' else beam_loop step ts st'
  end.

(** The code before the loop: run the encoders once per session. *)
Definition beam_init (self : Seq2SeqModel) (session : list session)
    (token_ids : list (list item)) (beam_size : Z)
    : result (list (list nat) * list (list Attn) * beam) :=
  let data := [token_ids ++ [[]]] in
  batch ← Batch.get_batch BOS_ID EOS_ID self data true;
  input_feed ←
    foldM (λ input_feed i,
             len ← Py.getitem (encoder_input_length batch) i;
             inp ← Py.getitem (batch_encoder_inputs batch) i;
             Ok (<[encoder_inputs_ph i := V_sentences inp]>
                   (<[encoder_input_length_ph i := V_lengths len]> input_feed)))
          (∅ : gmap tensor value) (seq 0 (encoder_count self));
  let res :=
    map (λ session_,
           (run_encoder_state session_ input_feed,
            map (run_attention_states session_ input_feed)
                (seq 0 (encoder_count self)))) session in
  (* state, attn_states = list(zip( *res)) *)
  if decide (session = []) then Raise ValueError else
  let state := map fst res in
  let attn_states := map snd res in
  decoder_input ← Py.getitem (batch_decoder_inputs batch) 0;
  let state :=
    zip_with (λ session_ state_,
                [run_initial_state session_ {[encoder_state_t := V_enc_state state_]}])
             session state in
  Ok (encoder_input_length batch, attn_states,
      {| hypotheses := [[]];
         scores := [of_Q 0];
         beam_size := beam_size;
         finished_hypotheses := [];
         finished_scores := [];
         state := state;
         output := None;
         decoder_input := decoder_input |}).

Definition beam_search_decoding (self : Seq2SeqModel) (session : list session)
    (token_ids : list (list item)) (beam_size : Z)
    (ngrams : option (list (gmap (list Z) num)))
    : result (list (list Z) * list num) :=
  '(encoder_input_length, attn_states, st) ← beam_init self session token_ids beam_size;
  st ← beam_loop (beam_step self session ngrams encoder_input_length attn_states)
         (seq 0 (max_output_len self)) st;
  let hypotheses := hypotheses st ++ finished_hypotheses st in
  let scores := scores st ++ finished_scores st in
  let scores :=
    if Qle_bool (len_normalization self) 0 then scores
    else zip_with (λ score hypothesis,
                     fdiv score (fpow (of_nat (length hypothesis))
                                      (of_Q (len_normalization self))))
                  scores hypotheses in
  (* sort best-list by score *)
  let sorted_idx := argsort scores in
  hypotheses ← mapM (Py.getitem hypotheses) sorted_idx;
  scores ← mapM (Py.getitem scores) sorted_idx;
  Ok (hypotheses, scores).

(** The state after [t] iterations of the loop body, the [break]
    left aside: [beam_loop] returns one of these states. *)
Fixpoint state_after (step : nat → beam → result beam) (st0 : beam) (t : nat)
    : result beam :=
  match t with
  | 0 => Ok st0
  | S t' => st ← state_after step st0 t'; step t' st
  end.

(** The loop state of [beam_search_decoding] after [t] iterations. *)
Definition beam_at (self : Seq2SeqModel) (session : list session)
    (token_ids : list (list item)) (beam_size : Z)
    (ngrams : option (list (gmap (list Z) num))) (t : nat) : result beam :=
  '(encoder_input_length, attn_states, st) ← beam_init self session token_ids beam_size;
  state_after (beam_step self session ngrams encoder_input_length attn_states) st t.

(** The array [scores_] of iteration [t] from the loop state [st]: the
    loop body up to the scoring, that is the feeds, the run of each
    session and the score of every extension of every live
    hypothesis. *)
Definition step_flat_scores (self : Seq2SeqModel) (session : list session)
    (ngrams : option (list (gmap (list Z) num)))
    (encoder_input_length : list (list nat)) (attn_states : list (list Attn))
    (t : nat) (st : beam) : result (list num) :=
  let batch_size := length (decoder_input st) in
  input_feed ← build_feeds self encoder_input_length attn_states t st;
  let res :=
    zip_with (λ session_ input_feed_,
                map (run_decoder session_ input_feed_) (seq 0 batch_size))
             session input_feed in
  let decoder_output := map (map (λ r : Output * (nat → num) * State, r.1.2)) res in
  step_scores self (length session) ngrams (hypotheses st) (scores st) decoder_output.

(** [scores_] as iteration [t] of [beam_search_decoding] computes it. *)
Definition flat_scores_at (self : Seq2SeqModel) (session : list session)
    (token_ids : list (list item)) (beam_size : Z)
    (ngrams : option (list (gmap (list Z) num))) (t : nat) : result (list num) :=
  '(encoder_input_length, attn_states, st) ← beam_init self session token_ids beam_size;
  st ← state_after (beam_step self session ngrams encoder_input_length attn_states) st t;
  step_flat_scores self session ngrams encoder_input_length attn_states t st.

(** The candidate with the flat id [flat_id]:
    [hypotheses[flat_id // V] + [flat_id % V]]. *)
Definition candidate_of (self : Seq2SeqModel) (hyps : list (list Z)) (flat_id : nat)
    : option (list Z) :=
  h ← hyps !! (flat_id / trg_vocab_size self);
  Some (h ++ [Z.of_nat (flat_id mod trg_vocab_size self)]).

(** A hypothesis whose last token is the end-of-sequence marker. *)
Definition ends_eos (h : list Z) : Prop := last h = Some EOS_ID.

Global Instance ends_eos_dec h : Decision (ends_eos h).
Proof. unfold ends_eos. apply _. Defined.

(** The arrays of a loop state have one row per live hypothesis, for
    each of [n_sessions] sessions. *)
Definition well_shaped (n_sessions : nat) (st : beam) : Prop :=
  length (scores st) = length (hypotheses st) ∧
  length (decoder_input st) = length (hypotheses st) ∧
  length (state st) = n_sessions ∧
  Forall (λ state_, length state_ = length (hypotheses st)) (state st) ∧
  length (finished_scores st) = length (finished_hypotheses st).

(** The same for the lists filled by the loop over the candidates. *)
Definition candidates_shaped (n_sessions : nat) (c : candidates) : Prop :=
  length (c_new_scores c) = length (c_new_hypotheses c) ∧
  length (c_new_input c) = length (c_new_hypotheses c) ∧
  length (c_new_state c) = n_sessions ∧
  Forall (λ state_, length state_ = length (c_new_hypotheses c)) (c_new_state c) ∧
  length (c_finished_scores c) = length (c_finished_hypotheses c).

(** The candidate score as the specification words it when no
    language model is given: the accumulated score minus the plain
    average of the log-probabilities of the supplied models. *)
Definition spec_candidate_score (score : num) (probs : list num) : num :=
  fsub score (fdiv (fsum (map flog probs)) (of_nat (length probs))).

(** The loop invariant for initial width [B] after [t] iterations. *)
Definition inv (B : Z) (t : nat) (st : beam) : Prop :=
  beam_size st = (B - Z.of_nat (length (finished_hypotheses st)))%Z ∧
  (Z.of_nat (length (hypotheses st)) ≤ beam_size st)%Z ∧
  Forall ends_eos (finished_hypotheses st) ∧
  Forall (λ h, length h = t) (hypotheses st).

End beam_search.
End Beam.

(** ** Ideal floats: real numbers with the IEEE special values

    The instance of [Numeric] used to evaluate the decoder on numbers:
    float arithmetic without rounding, with [inf], [-inf] and [nan]
    behaving as in numpy ([np.log(0) = -inf], [x / 0 = ±inf],
    [0 / 0 = nan], [nan] sorted last). *)

Module EReal.

Inductive ereal : Type :=
  | Finite (r : R)
  | PInf
  | NInf
  | NaN.

Definition eneg (x : ereal) : ereal :=
  match x with
  | Finite r => Finite (- r)
  | PInf => NInf
  | NInf => PInf
  | NaN => NaN
  end.

Definition eadd (x y : ereal) : ereal :=
  match x, y with
  | NaN, _ | _, NaN => NaN
  | Finite a, Finite b => Finite (a + b)
  | PInf, NInf | NInf, PInf => NaN
  | PInf, _ | _, PInf => PInf
  | NInf, _ | _, NInf => NInf
  end.

Definition esub (x y : ereal) : ereal := eadd x (eneg y).

(** Sign of a real: [Lt] negative, [Eq] zero, [Gt] positive. *)
Definition Rsign (r : R) : comparison :=
  if Rlt_dec r 0 then Lt else if Rlt_dec 0 r then Gt else Eq.

Definition signed_inf (positive : bool) : ereal := if positive then PInf else NInf.

Definition emul (x y : ereal) : ereal :=
  match x, y with
  | NaN, _ | _, NaN => NaN
  | Finite a, Finite b => Finite (a * b)
  | Finite a, PInf | PInf, Finite a =>
      match Rsign a with Lt => NInf | Eq => NaN | Gt => PInf end
  | Finite a, NInf | NInf, Finite a =>
      match Rsign a with Lt => PInf | Eq => NaN | Gt => NInf end
  | PInf, PInf | NInf, NInf => PInf
  | PInf, NInf | NInf, PInf => NInf
  end.

Definition ediv (x y : ereal) : ereal :=
  match x, y with
  | NaN, _ | _, NaN => NaN
  | Finite a, Finite b =>
      match Rsign b with
      | Eq => match Rsign a with Lt => NInf | Eq => NaN | Gt => PInf end
      | _ => Finite (a / b)
      end
  | Finite _, (PInf | NInf) => Finite 0
  | PInf, Finite b => signed_inf (negb (if Rlt_dec b 0 then true else false))
  | NInf, Finite b => signed_inf (if Rlt_dec b 0 then true else false)
  | (PInf | NInf), (PInf | NInf) => NaN
  end.

Definition elog (x : ereal) : ereal :=
  match x with
  | Finite r => match Rsign r with Lt => NaN | Eq => NInf | Gt => Finite (ln r) end
  | PInf => PInf
  | NInf | NaN => NaN
  end.

(** [x ** y], for the finite arguments the decoder applies it to: a
    length raised to a positive exponent. *)
Definition epow (x y : ereal) : ereal :=
  match x, y with
  | Finite a, Finite b =>
      match Rsign a, Rsign b with
      | Gt, _ => Finite (Rpower a b)
      | Eq, Gt => Finite 0
      | _, _ => NaN
      end
  | _, _ => NaN
  end.

Definition eleb (x y : ereal) : bool :=
  match x, y with
  | _, NaN => true
  | NaN, _ => false
  | NInf, _ | _, PInf => true
  | _, NInf | PInf, _ => false
  | Finite a, Finite b => if Rle_dec a b then true else false
  end.

Global Instance ereal_numeric : Numeric ereal := {|
  of_Q := λ q, Finite (Q2R q);
  of_nat := λ n, Finite (INR n);
  fadd := eadd;
  fsub := esub;
  fmul := emul;
  fdiv := ediv;
  fpow := epow;
  flog := elog;
  neg_inf := NInf;
  fleb := eleb;
|}.

End EReal.

(** ** Graph construction: [multi_encoder], [attention_decoder] and
       the constructor of [Seq2SeqModel] *)

Record decoder_config : Type := {
  dec_name : string;
  dec_vocab_size : nat;
  dec_embedding_size : nat;
  dec_cell_size : nat;
  dec_layers : nat;
  dec_use_lstm : bool;
}.

(** A [for] loop whose body may [return]: the body yields either the
    next loop state or the returned value. *)
Fixpoint for_return {S X V} (body : S → X → result (S + V)) (s : S) (xs : list X)
    : result (S + V) :=
  match xs with
  | [] => Ok (inl s)
  | x :: xs =>
      r ← body s x;
      match r with
      | inl s' => for_return body s' xs
      | inr v => Ok (inr v)
      end
  end.

Module Graph.
Section graph.

(** Symbolic tensors of the computation graph, with the TensorFlow
    operations the builders call taken as given. *)
Context {Tensor : Type}.

(** The recurrent network of one encoder (embedding lookup, input
    layers, dropout and the stacked cells): the per-timestep outputs. *)
Context (encoder_rnn : encoder_config → option Tensor → Tensor → Tensor → Tensor).
(** [encoder_outputs_[:, 0, cell_size:]] and [encoder_outputs_[:, -1, :]]. *)
Context (first_backward_annotation : nat → Tensor → Tensor).
Context (last_annotation : Tensor → Tensor).
(** [tf.concat(1, ...)]. *)
Context (concat : list Tensor → Tensor).

(** [multi_encoder]: the tuple it returns, or [None] when the function
    ends without reaching a [return]. *)
Definition multi_encoder (encoder_inputs : list Tensor) (encoders : list encoder_config)
    (encoder_input_length : list Tensor) (dropout : option Tensor)
    : result (option (list Tensor * Tensor)) :=
  if negb (length encoder_inputs =? length encoders) then Raise AssertionError else
  let encoder_states := [] in
  let encoder_outputs := [] in
  r ← for_return
        (λ '(encoder_states, encoder_outputs) '(i, encoder),
           encoder_inputs_ ← Py.getitem encoder_inputs i;
           encoder_input_length_ ← Py.getitem encoder_input_length i;
           let encoder_outputs_ :=
             encoder_rnn encoder dropout encoder_inputs_ encoder_input_length_ in
           let encoder_state_ :=
             if bidir encoder
             then first_backward_annotation (cell_size encoder) encoder_outputs_
             else last_annotation encoder_outputs_ in
           let encoder_outputs := encoder_outputs ++ [encoder_outputs_] in
           let encoder_states := encoder_states ++ [encoder_state_] in
           let encoder_state := concat encoder_states in
           Ok (inr (encoder_outputs, encoder_state)))
        (encoder_states, encoder_outputs)
        (imap pair encoders);
  match r with
  | inr v => Ok (Some v)
  | inl _ => Ok None
  end.

(** What the docstring of [multi_encoder] promises: the outputs of
    every encoder and the concatenation of all their final states. *)
Definition spec_multi_encoder (encoder_inputs : list Tensor)
    (encoders : list encoder_config) (encoder_input_length : list Tensor)
    (dropout : option Tensor) : list Tensor * Tensor :=
  let outputs :=
    zip_with (λ encoder xl, encoder_rnn encoder dropout xl.1 xl.2)
             encoders (zip encoder_inputs encoder_input_length) in
  let states :=
    zip_with (λ encoder outputs_,
                if bidir encoder
                then first_backward_annotation (cell_size encoder) outputs_
                else last_annotation outputs_)
             encoders outputs in
  (outputs, concat states).

(** The values a builder can return in a tuple. *)
Inductive pyval : Type :=
  | PyNone
  | PyTensor (t : Tensor)
  | PyBeamTensors (state new_state output new_output : Tensor).

(** The tensors the decoder loop produces. *)
Record decoder_graph : Type := {
  g_proj_outputs : Tensor;
  g_decoder_outputs : Tensor;
  g_samples : Tensor;
  g_state : Tensor;
  g_new_state : Tensor;
  g_output : Tensor;
  g_new_output : Tensor;
}.

(** The [tf.while_loop] of [attention_decoder] as a graph. *)
Context (decoder_loop :
  decoder_config → list encoder_config → Tensor → list Tensor → Tensor →
  list Tensor → option Tensor → decoder_graph).

(** Building [attention] for one encoder.  With a window
    ([attention_window_size > 0]) it is [local_attention], which calls
    the energy function without [attn_size]: [compute_energy], chosen
    when the encoder has no attention filters, requires that argument
    and the call raises [TypeError]. *)
Definition build_attention (encoder : encoder_config) : result unit :=
  if 0 <? attention_window_size encoder then
    if 0 <? attention_filters encoder then Ok tt else Raise TypeError
  else Ok tt.

(** [attention_decoder]: the tuple it returns.  The body of the loop is
    built once, and with it [multi_attention], over
    [zip(prev_weights, hidden_states, encoders, encoder_input_length)]
    with one initial weight and one hidden state per attention state. *)
Definition attention_decoder (decoder_inputs : Tensor) (initial_state : Tensor)
    (attention_states : list Tensor) (encoders : list encoder_config)
    (decoder : decoder_config) (encoder_input_length : list Tensor)
    (dropout : option Tensor) : result (list pyval) :=
  if negb (dec_cell_size decoder mod 2 =? 0) then Raise AssertionError else
  _ ← mapM (λ x : Tensor * (encoder_config * Tensor), build_attention x.2.1)
        (zip attention_states (zip encoders encoder_input_length));
  let g := decoder_loop decoder encoders decoder_inputs attention_states
             initial_state encoder_input_length dropout in
  Ok [PyTensor (g_proj_outputs g); PyNone; PyTensor (g_decoder_outputs g);
      PyBeamTensors (g_state g) (g_new_state g) (g_output g) (g_new_output g);
      PyTensor (g_samples g)].

(** [decoders.decoder]. *)
Definition decoder : result (list pyval) := Raise NotImplementedError.

(** [a, b = v]. *)
Definition unpack2 {A} (v : option (list A * A)) : result (list A * A) :=
  match v with
  | Some p => Ok p
  | None => Raise TypeError
  end.

(** [a, b, c, d = t]. *)
Definition unpack4 {A} (t : list A) : result (A * A * A * A) :=
  match t with
  | [a; b; c; d] => Ok (a, b, c, d)
  | _ => Raise ValueError
  end.

(** The placeholders the constructor creates. *)
Record placeholders : Type := {
  p_encoder_inputs : list Tensor;
  p_encoder_input_length : list Tensor;
  p_decoder_inputs : Tensor;
  p_decoder_input_length : Tensor;
}.

(** The attributes the constructor assigns from the decoder. *)
Record model_graph : Type := {
  attention_states : list Tensor;
  encoder_state : Tensor;
  outputs : pyval;
  attention_weights : pyval;
  decoder_states : pyval;
  beam_tensors : pyval;
}.

(** [Seq2SeqModel.__init__], from the call of [multi_encoder] to the
    assignment of the decoder's result; the losses and the optimizer
    that follow read these attributes. *)
Definition init (encoders : list encoder_config) (decoder_cfg : decoder_config)
    (dropout : option Tensor) (attention : bool) (ph : placeholders)
    : result model_graph :=
  enc ← multi_encoder (p_encoder_inputs ph) encoders (p_encoder_input_length ph) dropout;
  '(attention_states, encoder_state) ← unpack2 enc;
  res ← (if attention
         then attention_decoder (p_decoder_inputs ph) encoder_state attention_states
                encoders decoder_cfg (p_encoder_input_length ph) dropout
         else decoder);
  '(outputs, attention_weights, decoder_states, beam_tensors) ← unpack4 res;
  Ok {| attention_states := attention_states;
        encoder_state := encoder_state;
        outputs := outputs;
        attention_weights := attention_weights;
        decoder_states := decoder_states;
        beam_tensors := beam_tensors |}.

End graph.
End Graph.

(** ** The decoder loop: [attention_decoder._time_step],
       [greedy_decoding] and the teacher-forced forward pass of [step] *)

Module Decoder.
Section decoder.

(** The values computed for one sample, the learned functions being
    taken as given: [Enc] is what the encoders produce for the source. *)
Context {Enc State Emb Ctx Weights Hidden Logits Output : Type}.
Context (encode : list (list (list item)) → list (list nat) → Enc).
Context (initial_state_projection : Enc → State).
Context (initial_weights : Enc → Weights).
Context (embed : item → Emb).
(** [multi_attention] over the encoder states. *)
Context (attention_ : Enc → State → Weights → Ctx * Weights).
(** The [maxout] and [softmax0] layers, then [softmax1]. *)
Context (maxout : State → Emb → Ctx → Hidden).
Context (softmax1 : Hidden → Logits).
Context (argmax : Logits → nat).
(** [tf.multinomial], the second argument being the random draw. *)
Context (multinomial : Logits → nat → nat).
Context (cell : Emb → Ctx → State → Output * State).
Context (zero_output : Output).

Context (BOS_ID EOS_ID : Z).

(** The loop variables of the [tf.while_loop]; the tensor arrays are
    written at index [time], that is, appended to. *)
Record loop_vars : Type := {
  time : nat;
  input_ : Emb;
  state : State;
  output : Output;
  proj_outputs : list Logits;
  decoder_outputs : list Hidden;
  samples : list item;
  weights : list Weights;
  prev_weights : Weights;
}.

(** [_time_step].  [rand time] is the value of [tf.random_uniform([])]
    and [noise time] the draw of [tf.multinomial] at this step. *)
Definition _time_step (enc : Enc) (inputs : list item) (time_steps : nat)
    (sequence_length : option nat) (feed_previous : Q) (feed_argmax : bool)
    (rand : nat → Q) (noise : nat → nat) (v : loop_vars) : result loop_vars :=
  let '(context_vector, new_weights) := attention_ enc (state v) (prev_weights v) in
  let weights := weights v ++ [new_weights] in
  let output_ := maxout (state v) (input_ v) context_vector in
  let decoder_outputs := decoder_outputs v ++ [output_] in
  let output_ := softmax1 output_ in
  let proj_outputs := proj_outputs v ++ [output_] in
  sample ←
    (if (Z.of_nat (time v) <? Z.of_nat time_steps - 1)%Z
        && Qle_bool feed_previous (rand (time v))
     then Py.getitem inputs (time v + 1)
     else if negb feed_argmax then Ok (Tok (Z.of_nat (multinomial output_ (noise (time v)))))
     else Ok (Tok (Z.of_nat (argmax output_))));
  let samples := samples v ++ [sample] in
  let input_ := embed sample in
  let '(new_output, new_state) :=
    match sequence_length with
    | Some sequence_length =>
        if sequence_length <=? time v then (zero_output, state v)
        else cell input_ context_vector (state v)
    | None => cell input_ context_vector (state v)
    end in
  Ok {| time := time v + 1; input_ := input_; state := new_state; output := new_output;
        proj_outputs := proj_outputs; decoder_outputs := decoder_outputs;
        samples := samples; weights := weights; prev_weights := new_weights |}.

(** [tf.while_loop(cond=lambda time, *_: time < time_steps, body=_time_step)]. *)
Fixpoint while_loop (body : loop_vars → result loop_vars) (time_steps : nat)
    (fuel : nat) (v : loop_vars) : result loop_vars :=
  match fuel with
  | 0 => Ok v
  | S fuel =>
      if time v <? time_steps
      then v' ← body v; while_loop body time_steps fuel v'
      else Ok v
  end.

(** The loop of [attention_decoder] for one sample. *)
Definition attention_decoder (enc : Enc) (decoder_inputs : list item)
    (decoder_input_length : option nat) (feed_previous : Q) (feed_argmax : bool)
    (rand : nat → Q) (noise : nat → nat) : result loop_vars :=
  let time_steps := length decoder_inputs in
  first ← Py.getitem decoder_inputs 0;
  let initial_input := embed first in
  while_loop
    (_time_step enc decoder_inputs time_steps decoder_input_length
                feed_previous feed_argmax rand noise)
    time_steps time_steps
    {| time := 0; input_ := initial_input; state := initial_state_projection enc;
       output := zero_output; proj_outputs := []; decoder_outputs := [];
       samples := []; weights := []; prev_weights := initial_weights enc |}.

(** [session.run(self.outputs, input_feed)] for a batch of one sample,
    on a graph without dropout: the per-step logits.  [feed_argmax]
    keeps its default [True], the constructor does not pass it. *)
Definition run_outputs (b : batch) (feed_previous : Q)
    (rand : nat → Q) (noise : nat → nat) : result (list Logits) :=
  let enc := encode (batch_encoder_inputs b) (encoder_input_length b) in
  decoder_inputs ← mapM (λ row : list item, Py.getitem row 0) (batch_decoder_inputs b);
  decoder_input_length ← Py.getitem (decoder_input_length b) 0;
  v ← attention_decoder enc decoder_inputs (Some decoder_input_length)
        feed_previous true rand noise;
  Ok (proj_outputs v).

(** [session.run([self.outputs, self.attention_weights], input_feed)]
    for a batch of one sample.  [attention_weights] is the attribute
    [self.attention_weights], a value of the decoder's result; a fetch
    that is [None] is refused with [TypeError] when the fetches are
    prepared, and nothing is computed. *)
Definition run_outputs_and_weights {Tensor : Type}
    (attention_weights : Graph.pyval (Tensor:=Tensor)) (b : batch) (feed_previous : Q)
    (rand : nat → Q) (noise : nat → nat) : result (list Logits * list Weights) :=
  match attention_weights with
  | Graph.PyNone => Raise TypeError
  | _ =>
      let enc := encode (batch_encoder_inputs b) (encoder_input_length b) in
      decoder_inputs ←
        mapM (λ row : list item, Py.getitem row 0) (batch_decoder_inputs b);
      decoder_input_length ← Py.getitem (decoder_input_length b) 0;
      v ← attention_decoder enc decoder_inputs (Some decoder_input_length)
            feed_previous true rand noise;
      Ok (proj_outputs v, weights v)
  end.

(** [greedy_decoding]: the token ids and the attention weights.
    [attention_weights] is the attribute [self.attention_weights], the
    second of the values the constructor unpacks from the decoder's
    result. *)
Definition greedy_decoding {Tensor : Type}
    (attention_weights : Graph.pyval (Tensor:=Tensor))
    (self : Seq2SeqModel) (token_ids : list (list item))
    (rand : nat → Q) (noise : nat → nat) : result (list Z * list Weights) :=
  batch ← Batch.get_batch BOS_ID EOS_ID self [token_ids ++ [[]]] true;
  '(outputs, attn_weights) ←
    run_outputs_and_weights attention_weights batch 1%Q rand noise;
  Ok (map (λ logit, Z.of_nat (argmax logit)) outputs, attn_weights).

(** The logits of [self.outputs] under the feed of [greedy_decoding]
    ([feed_previous = 1.0]): what a run that fetches [self.outputs]
    alone computes. *)
Definition greedy_outputs (self : Seq2SeqModel) (token_ids : list (list item))
    (rand : nat → Q) (noise : nat → nat) : result (list Logits) :=
  batch ← Batch.get_batch BOS_ID EOS_ID self [token_ids ++ [[]]] true;
  run_outputs batch 1%Q rand noise.

(** The logits of [self.outputs] under the feed of [step] for one
    sample with the target [target], with the model's [feed_previous]
    at 0.0, on a graph without dropout ([dropout_rate = 0], the
    default; with dropout [step] switches it on and the pass is
    random). *)
Definition teacher_forced_outputs (self : Seq2SeqModel) (token_ids : list (list item))
    (target : list Z) (rand : nat → Q) (noise : nat → nat) : result (list Logits) :=
  batch ← Batch.get_batch BOS_ID EOS_ID self [token_ids ++ [map Tok target]] false;
  run_outputs batch 0%Q rand noise.

(** A random draw of [tf.random_uniform([])] lies in [[0, 1)]. *)
Definition uniform (rand : nat → Q) : Prop := ∀ t, (0 <= rand t)%Q ∧ (rand t < 1)%Q.

(** [k] iterations of a loop body. *)
Fixpoint steps (body : loop_vars → result loop_vars) (k : nat) (v : loop_vars)
    : result loop_vars :=
  match k with
  | 0 => Ok v
  | S k => v' ← steps body k v; body v'
  end.

(** The logits a step computes from the loop variables. *)
Definition logits_of (enc : Enc) (v : loop_vars) : Logits :=
  softmax1 (maxout (state v) (input_ v) (attention_ enc (state v) (prev_weights v)).1).

(** The loop variables after a step that selected [sample]. *)
Definition advance (enc : Enc) (sequence_length : option nat) (sample : item)
    (v : loop_vars) : loop_vars :=
  let ctx := (attention_ enc (state v) (prev_weights v)).1 in
  let new_weights := (attention_ enc (state v) (prev_weights v)).2 in
  let r :=
    match sequence_length with
    | Some sequence_length =>
        if sequence_length <=? time v then (zero_output, state v)
        else cell (embed sample) ctx (state v)
    | None => cell (embed sample) ctx (state v)
    end in
  {| time := time v + 1; input_ := embed sample; state := r.2; output := r.1;
     proj_outputs := proj_outputs v ++ [logits_of enc v];
     decoder_outputs := decoder_outputs v ++ [maxout (state v) (input_ v) ctx];
     samples := samples v ++ [sample]; weights := weights v ++ [new_weights];
     prev_weights := new_weights |}.

End decoder.
End Decoder.

(** ** Attention weights: [global_attention] and [local_attention]

    The weights of one sample at one decoder step, on real numbers:
    [float32] without rounding, overflow and underflow, and with a
    division by zero giving 0 where [float32] gives [nan].
    The energies [e] (one per source position) are what
    [compute_energy] returns, and [z] is the scalar
    [tanh(state · Wp) · vp] from which the aligned position is
    predicted. *)

Module Attention.
Local Open Scope R_scope.

(** [tf.reduce_sum] and [tf.reduce_max] along the time axis. *)
Definition reduce_sum (l : list R) : R := foldr Rplus 0 l.

Definition reduce_max (l : list R) : R :=
  match l with
  | [] => 0
  | x :: l => foldl Rmax x l
  end.

(** [tf.sequence_mask(length, maxlen, dtype=tf.float32)]. *)
Definition sequence_mask (len maxlen : nat) : list R :=
  map (λ j, if (j <? len)%nat then 1 else 0) (seq 0 maxlen).

(** The weights of [global_attention]. *)
Definition global_attention (e : list R) (encoder_input_length : nat) : list R :=
  let e := map (λ x, x - reduce_max e) e in
  let mask := sequence_mask encoder_input_length (length e) in
  let exp_ := zip_with (λ x m, exp x * m) e mask in
  map (λ x, x / reduce_sum exp_) exp_.

Definition sigmoid (x : R) : R := 1 / (1 + exp (- x)).

(** [tf.nn.softmax]. *)
Definition softmax (l : list R) : list R :=
  map (λ x, exp x / reduce_sum (map exp l)) l.

(** [tf.floor]. *)
Definition floor (x : R) : R := IZR (Int_part x).

(** The aligned position [pt] and the window mask of [local_attention]. *)
Definition aligned_position (attn_length : nat) (z : R) : R :=
  floor (INR attn_length * sigmoid z).

Definition local_mask (attn_length : nat) (z : R) (attention_window_size : nat)
    : list R :=
  let pt := aligned_position attn_length z in
  let idx := map INR (seq 0 attn_length) in
  let low := pt - INR attention_window_size in
  let high := pt + INR attention_window_size in
  let mlow := map (λ i, if Rlt_dec i low then 1 else 0) idx in
  let mhigh := map (λ i, if Rlt_dec high i then 1 else 0) idx in
  let m := zip_with Rplus mlow mhigh in
  map (λ x, if Req_dec_T x 0 then 1 else 0) m.

(** The weights of [local_attention]. *)
Definition local_attention (e : list R) (z : R) (attention_window_size : nat)
    : list R :=
  let attn_length := length e in
  let pt := aligned_position attn_length z in
  let idx := map INR (seq 0 attn_length) in
  let mask := local_mask attn_length z attention_window_size in
  let weights := softmax (zip_with Rmult e mask) in
  let sigma := INR attention_window_size / 2 in
  let numerator := map (λ i, - (i - pt) ^ 2) idx in
  let div := map (λ n, n / sigma ^ 2) numerator in
  zip_with (λ w d, w * exp d) weights div.

End Attention.

(** ** The sentence-level reward: [decoders.sentence_bleu]

    Token ids are [int64] (wrap-around written out) and the score is
    [float32], modelled by the IEEE 754 specification of the standard
    library at precision 24 and maximal exponent 128; [tf.log], [tf.exp]
    and [tf.minimum] are taken as given. *)

Module Bleu.
Section sentence_bleu.

Context (EOS_ID : Z).
Context (tf_log tf_exp : spec_float → spec_float).
Context (tf_minimum : spec_float → spec_float → spec_float).

Definition prec : Z := 24.
Definition emax : Z := 128.

(** [tf.cast(n, tf.float32)] of an integer. *)
Definition to_float (z : Z) : spec_float := binary_normalize prec emax z 0 false.

Definition fdiv32 : spec_float → spec_float → spec_float := SFdiv prec emax.
Definition fadd32 : spec_float → spec_float → spec_float := SFadd prec emax.
Definition fsub32 : spec_float → spec_float → spec_float := SFsub prec emax.
Definition fmul32 : spec_float → spec_float → spec_float := SFmul prec emax.

(** [int64] arithmetic. *)
Definition wrap64 (z : Z) : Z := ((z + 2 ^ 63) mod 2 ^ 64 - 2 ^ 63)%Z.
Definition mul64 (a b : Z) : Z := wrap64 (a * b).
Definition add64 (a b : Z) : Z := wrap64 (a + b).

(** [tf.where(tf.equal(s, v))]: the indices holding [v]. *)
Definition where_equal (s : list Z) (v : Z) : list nat :=
  omap (λ p : nat * Z, if decide (p.2 = v) then Some p.1 else None) (imap pair s).

Definition truncate (s : list Z) : list Z :=
  let indices := where_equal s EOS_ID in
  let indices := indices ++ [length s] in
  match indices with
  | index :: _ => take index s
  | [] => s
  end.

(** [s[a:-b]] for [a, b >= 0] ([s[a:]] when [b = 0]). *)
Definition slice (a b : nat) (s : list Z) : list Z :=
  drop a (take (length s - b) s).

(** [tf.reduce_max] of [int64] values; the lowest value on no input. *)
Definition reduce_max64 (s : list Z) : Z := foldr Z.max (- 2 ^ 63)%Z s.

(** The four n-gram encodings. *)
Definition ngrams (max_value : Z) : list (list Z → list Z) :=
  let m := max_value in
  let m2 := mul64 m m in
  let m3 := mul64 m2 m in
  [ (λ s, s);
    (λ s, zip_with add64 (map (λ x, mul64 x m) (slice 0 1 s)) (slice 1 0 s));
    (λ s, zip_with add64
            (zip_with add64 (map (λ x, mul64 x m2) (slice 0 2 s))
                            (map (λ x, mul64 x m) (slice 1 1 s)))
            (slice 2 0 s));
    (λ s, zip_with add64
            (zip_with add64
               (zip_with add64 (map (λ x, mul64 x m3) (slice 0 3 s))
                               (map (λ x, mul64 x m2) (slice 1 2 s)))
               (map (λ x, mul64 x m) (slice 2 1 s)))
            (slice 3 0 s)) ].

(** [tf.unique_with_counts(x).y]: the distinct values, in order of
    first occurrence; and [.count]: how often each occurs. *)
Definition unique (x : list Z) : list Z := remove_dups x.
Definition counts (x : list Z) : list Z :=
  map (λ v, Z.of_nat (length (filter (λ y, y = v) x))) (unique x).

(** [tf.nn.top_k(x, len(x)).values]: sorted in descending order. *)
Definition sort_descending (x : list Z) : list Z := merge_sort Z.ge x.

Definition reduce_sum64 (x : list Z) : Z := foldr add64 0%Z x.

(** Body of [for ngram in ngrams]. *)
Definition ngram_step (hyp ref : list Z) (score : spec_float)
    (ngram : list Z → list Z) : spec_float :=
  let hyp_ngrams := ngram hyp in
  let ref_ngrams := ngram ref in
  let hyp_plus_ref := unique (hyp_ngrams ++ ref_ngrams) in
  let hyp_ := hyp_ngrams ++ hyp_plus_ref in
  let ref_ := ref_ngrams ++ hyp_plus_ref in
  let hyp_ := sort_descending hyp_ in
  let ref_ := sort_descending ref_ in
  let hyp_counts := map (λ c, c - 1)%Z (counts hyp_) in
  let ref_counts := map (λ c, c - 1)%Z (counts ref_) in
  let numerator :=
    fadd32 (to_float (reduce_sum64 (zip_with Z.min hyp_counts ref_counts)))
           (to_float 1) in
  let denominator := fadd32 (to_float (reduce_sum64 hyp_counts)) (to_float 1) in
  fadd32 score (fdiv32 (tf_log (fdiv32 numerator denominator)) (to_float 4)).

Definition hyp_len (hyp : list Z) : spec_float :=
  to_float (Z.of_nat (length (truncate hyp))).

Definition ref_len (ref : list Z) : spec_float :=
  to_float (Z.of_nat (length (truncate ref))).

(** The quotient [ref_len / hyp_len] of the brevity penalty. *)
Definition brevity_ratio (hyp ref : list Z) : spec_float :=
  fdiv32 (ref_len ref) (hyp_len hyp).

Definition sentence_bleu (hyp ref : list Z) : spec_float :=
  let hyp' := truncate hyp in
  let ref' := truncate ref in
  let max_value := reduce_max64 (hyp' ++ ref') in
  let score :=
    foldl (ngram_step hyp' ref') (S754_zero false) (ngrams max_value) in
  let bp :=
    tf_minimum (to_float 1)
      (tf_exp (fsub32 (to_float 1) (brevity_ratio hyp ref))) in
  fmul32 (tf_exp score) bp.

End sentence_bleu.
End Bleu.

(** ** Concrete configurations used in examples *)

(** The vocabulary PAD=0, EOS=1, BOS=2, A=3, B=4 with one token encoder. *)
Definition scenario_encoder : encoder_config :=
  {| name := "src"; binary := false; vocab_size := 5; embedding_size := 2;
     cell_size := 2; layers := 1; bidir := false; use_lstm := false;
     input_layers := []; attention_filters := 0; attention_window_size := 0 |}.

Definition scenario_model : Seq2SeqModel :=
  {| encoders := [scenario_encoder]; trg_vocab_size := 5; max_output_len := 50;
     max_input_len := None; lm_weight := None; len_normalization := 1%Q |}.

(** A model over a two-token target vocabulary. *)
Definition two_token_model : Seq2SeqModel :=
  {| encoders := [scenario_encoder]; trg_vocab_size := 2; max_output_len := 50;
     max_input_len := None; lm_weight := None; len_normalization := 1%Q |}.

(** A model that decodes three tokens. *)
Definition short_model : Seq2SeqModel :=
  {| encoders := [scenario_encoder]; trg_vocab_size := 5; max_output_len := 3;
     max_input_len := None; lm_weight := None; len_normalization := 1%Q |}.

(** A session whose model gives every token the probability 1/2 and
    counts the steps in its state. *)
Definition fair_session : @Beam.session EReal.ereal nat nat nat nat :=
  {| Beam.run_encoder_state := λ _, 0;
     Beam.run_attention_states := λ _ i, i;
     Beam.run_initial_state := λ _, 0;
     Beam.run_decoder := λ _ k, (k, λ _, EReal.Finite (1 / 2), S k) |}.

(** A loop state at a later time step, with the outputs of the previous
    step at hand. *)
Definition later_beam : @Beam.beam EReal.ereal nat nat :=
  {| Beam.hypotheses := [[3%Z]; [4%Z]];
     Beam.scores := [EReal.Finite 1; EReal.Finite 2];
     Beam.beam_size := 2;
     Beam.finished_hypotheses := [];
     Beam.finished_scores := [];
     Beam.state := [[1; 1]];
     Beam.output := Some [[7; 8]];
     Beam.decoder_input := [Tok 3; Tok 4] |}.

(** A small decoder over natural numbers, to run the decoder loop on. *)
Module Toy.

Definition encode (inputs : list (list (list item))) (lengths : list (list nat)) : nat :=
  length inputs + length lengths.
Definition embed (x : item) : nat :=
  match x with Tok t => Z.to_nat t | Vec v => length v end.
Definition attention_ (enc state prev_weights : nat) : nat * nat :=
  (enc + state + prev_weights, S prev_weights).
Definition maxout (state input_ context : nat) : nat := state + 2 * input_ + context.
Definition softmax1 (hidden : nat) : nat := 3 * hidden + 1.
Definition argmax (logits : nat) : nat := logits mod 5.
Definition multinomial (logits draw : nat) : nat := (logits + draw) mod 5.
Definition cell (input_ context state : nat) : nat * nat :=
  (input_ + state, S (input_ + context + state)).

Definition greedy_decoding (attention_weights : Graph.pyval (Tensor:=nat)) :=
  Decoder.greedy_decoding encode (λ enc, enc) (λ _, 0) embed attention_ maxout softmax1
    argmax multinomial cell 0 2 1 attention_weights.
Definition greedy_outputs :=
  Decoder.greedy_outputs encode (λ enc, enc) (λ _, 0) embed attention_ maxout softmax1
    argmax multinomial cell 0 2 1.
Definition teacher_forced_outputs :=
  Decoder.teacher_forced_outputs encode (λ enc, enc) (λ _, 0) embed attention_ maxout
    softmax1 argmax multinomial cell 0 2 1.

End Toy.

(** ** Further configurations of the model object *)

(** The model object after [self.lm_weight = w]. *)
Definition set_lm_weight (self : Seq2SeqModel) (w : option Q) : Seq2SeqModel :=
  {| encoders := encoders self;
     trg_vocab_size := trg_vocab_size self;
     max_output_len := max_output_len self;
     max_input_len := max_input_len self;
     lm_weight := w;
     len_normalization := len_normalization self |}.

(** A model with two token encoders. *)
Definition two_encoder_model : Seq2SeqModel :=
  {| encoders := [scenario_encoder; scenario_encoder]; trg_vocab_size := 5;
     max_output_len := 3; max_input_len := None; lm_weight := None;
     len_normalization := 1%Q |}.

(** A model configured with [lm_weight=0.0]. *)
Definition zero_lm_model : Seq2SeqModel := set_lm_weight short_model (Some 0%Q).

(** A model with [max_output_len=0]. *)
Definition no_output_model : Seq2SeqModel :=
  {| encoders := [scenario_encoder]; trg_vocab_size := 5; max_output_len := 0;
     max_input_len := None; lm_weight := None; len_normalization := 1%Q |}.

(** ** The list [beam_search_decoding] ranks at its end *)

Module BeamRank.
Section rank.

Context {num : Type} `{Numeric num}.
Context {State Output : Type}.

(** [hypotheses += finished_hypotheses]. *)
Definition merged_hypotheses (st : @Beam.beam num State Output) : list (list Z) :=
  Beam.hypotheses st ++ Beam.finished_hypotheses st.

(** [np.concatenate([scores, finished_scores])], divided by
    [len(hypothesis) ** self.len_normalization] when
    [self.len_normalization > 0]. *)
Definition normalized_scores (self : Seq2SeqModel) (st : @Beam.beam num State Output)
    : list num :=
  let scores := Beam.scores st ++ Beam.finished_scores st in
  if Qle_bool (len_normalization self) 0 then scores
  else zip_with (λ score hypothesis,
                   fdiv score (fpow (of_nat (length hypothesis))
                                    (of_Q (len_normalization self))))
                scores (merged_hypotheses st).

(** A token id of the target vocabulary. *)
Definition valid_token (self : Seq2SeqModel) (tok : Z) : Prop :=
  (0 ≤ tok < Z.of_nat (trg_vocab_size self))%Z.

(** The end-of-sequence marker occurs in [h] at its last position only. *)
Definition eos_only_last (EOS_ID : Z) (h : list Z) : Prop :=
  ∀ i, h !! i = Some EOS_ID → S i = length h.

(** The tokens of a live hypothesis: valid ids other than the end marker. *)
Definition live_tokens (self : Seq2SeqModel) (EOS_ID : Z) (h : list Z) : Prop :=
  Forall (λ tok, valid_token self tok ∧ tok ≠ EOS_ID) h.

(** A finished hypothesis: a live one followed by the end marker. *)
Definition finished_tokens (self : Seq2SeqModel) (EOS_ID : Z) (h : list Z) : Prop :=
  ∃ h', h = h' ++ [EOS_ID] ∧ live_tokens self EOS_ID h' ∧ valid_token self EOS_ID.

End rank.
End BeamRank.

(** ** The token selection of [_time_step], read by itself *)

Module DecoderPolicy.
Section policy.

Context {Logits : Type}.
Context (argmax : Logits → nat).
Context (multinomial : Logits → nat → nat).

(** The [tf.case] of [_time_step] at step [j] with logits [logits]:
    the next ground-truth input when [j] is not the last step and the
    draw [rand j] is at least [feed_previous], else a multinomial draw
    when [feed_argmax] is off, else the argmax. *)
Definition selected (inputs : list item) (feed_previous : Q) (feed_argmax : bool)
    (rand : nat → Q) (noise : nat → nat) (j : nat) (logits : Logits) : option item :=
  if (S j <? length inputs) && Qle_bool feed_previous (rand j)
  then inputs !! S j
  else if negb feed_argmax then Some (Tok (Z.of_nat (multinomial logits (noise j))))
       else Some (Tok (Z.of_nat (argmax logits))).

End policy.
End DecoderPolicy.

(** ** The toy decoder, step by step *)

Module ToyLoop.

(** The loop variables before the first step, for the encoder value 5
    and the first input 2. *)
Definition initial : @Decoder.loop_vars nat nat nat nat nat nat :=
  {| Decoder.time := 0; Decoder.input_ := 2; Decoder.state := 5; Decoder.output := 0;
     Decoder.proj_outputs := []; Decoder.decoder_outputs := []; Decoder.samples := [];
     Decoder.weights := []; Decoder.prev_weights := 0 |}.

Definition _time_step :=
  Decoder._time_step Toy.embed Toy.attention_ Toy.maxout Toy.softmax1 Toy.argmax
    Toy.multinomial Toy.cell 0.

Definition attention_decoder :=
  Decoder.attention_decoder (λ enc : nat, enc) (λ _ : nat, 0) Toy.embed Toy.attention_
    Toy.maxout Toy.softmax1 Toy.argmax Toy.multinomial Toy.cell 0.

End ToyLoop.

(** ** A toy computation graph, with tensors named by numbers *)

Module ToyGraph.

Definition encoder_rnn (encoder : encoder_config) (dropout : option nat)
    (inputs length_ : nat) : nat := inputs + length_.
Definition first_backward_annotation (cell_size outputs : nat) : nat := outputs + cell_size.
Definition last_annotation (outputs : nat) : nat := outputs.
Definition concat (states : list nat) : nat := sum_list states.
Definition decoder_loop (decoder : decoder_config) (encoders : list encoder_config)
    (decoder_inputs : nat) (attention_states : list nat) (initial_state : nat)
    (encoder_input_length : list nat) (dropout : option nat)
    : Graph.decoder_graph (Tensor:=nat) :=
  {| Graph.g_proj_outputs := 1; Graph.g_decoder_outputs := 2; Graph.g_samples := 3;
     Graph.g_state := 4; Graph.g_new_state := 5; Graph.g_output := 6;
     Graph.g_new_output := 7 |}.

Definition init :=
  Graph.init encoder_rnn first_backward_annotation last_annotation concat decoder_loop.

Definition placeholders : Graph.placeholders (Tensor:=nat) :=
  {| Graph.p_encoder_inputs := [10]; Graph.p_encoder_input_length := [11];
     Graph.p_decoder_inputs := 12; Graph.p_decoder_input_length := 13 |}.

Definition decoder : decoder_config :=
  {| dec_name := "trg"; dec_vocab_size := 5; dec_embedding_size := 2;
     dec_cell_size := 2; dec_layers := 1; dec_use_lstm := false |}.

End ToyGraph.

(** ** The REINFORCE step: [Seq2SeqModel.reinforce_step]

    The Python code between the two runs of the session: from the
    sampled outputs of the first run, the rewards and the weights fed
    to the second. *)

Module Reinforce.
Section reinforce_step.

Context (BOS_ID EOS_ID : Z).
Context {Reward : Type}.
(** [self.reinforce_reward], a function of [utils]. *)
Context (reinforce_reward : list Z → list item → Reward).

(** Body of [for output_, target_, length_ in zip(outputs_, targets_, lengths_)]:
    the weights appended, and the hypothesis and the reference handed
    to the reward. *)
Definition cut_sample (output_ : list Z) (target_ : list item) (length_ : nat)
    : list Q * (list Z * list item) :=
  let target_ := take length_ target_ in
  let i := Bleu.where_equal output_ EOS_ID in
  let time_steps := length output_ in
  match i with
  | i :: _ =>
      (* index of the first EOS symbol *)
      let weights_ := map (λ t, if t <=? i then 1%Q else 0%Q) (seq 0 time_steps) in
      let output_ := take (i + 1) output_ in
      (weights_, (output_, target_))
  | [] =>
      let weights_ := replicate time_steps 1%Q in
      (weights_, (output_, target_))
  end.

(** The loop over the samples of the batch. *)
Definition cuts (b : batch) (outputs : list (list Z))
    : list (list Q * (list Z * list item)) :=
  let outputs_ := Py.transpose outputs in
  let targets_ := Py.transpose (batch_targets b) in
  let lengths_ := decoder_input_length b in
  zip_with (λ output_ tl, cut_sample output_ tl.1 tl.2) outputs_ (zip targets_ lengths_).

(** [scores] and [weights = np.transpose(weights)]. *)
Definition rewards (b : batch) (outputs : list (list Z)) : list Reward * list (list Q) :=
  let cut := cuts b outputs in
  let scores := map (λ c, reinforce_reward c.2.1 c.2.2) cut in
  let weights := Py.transpose (map fst cut) in
  (scores, weights).

(** [reinforce_step] up to the second run: [sample] is the first run,
    which evaluates [self.sampled_output] on the batch. *)
Definition reinforce_step (self : Seq2SeqModel) (data : list sample)
    (sample : batch → list (list Z)) : result (list Reward * list (list Q)) :=
  batch ← Batch.get_batch BOS_ID EOS_ID self data false;
  let outputs := sample batch in
  Ok (rewards batch outputs).

End reinforce_step.
End Reinforce.

(** ** The energies and the context vector of [global_attention]

    One sample at one decoder step, on real numbers: [hidden_states] has
    one vector per source position, [y] is the projection
    [linear(state, attn_size)] of the decoder state, [k] is the matrix
    [U_a] given by its rows and [v] the vector [v_a]. *)

Module Energy.
Local Open Scope R_scope.

(** [tf.matmul] of a vector and a matrix with [cols] columns. *)
Definition matmul (x : list R) (m : list (list R)) (cols : nat) : list R :=
  map (λ j, Attention.reduce_sum (zip_with (λ xi row, xi * nth j row 0) x m))
      (seq 0 cols).

(** [compute_energy]: [reduce_sum(v * tanh(hidden · k + y), [2])]. *)
Definition compute_energy (hidden : list (list R)) (y : list R) (k : list (list R))
    (v : list R) : list R :=
  let attn_size := length v in
  map (λ h, let f := matmul h k attn_size in
            let s := zip_with Rplus f y in
            Attention.reduce_sum (zip_with (λ vi si, vi * tanh si) v s))
      hidden.

(** [tf.reduce_sum(weights * hidden_states, [1, 2])]: the weighted sum
    of the hidden states, a vector of [size] components. *)
Definition weighted_average (weights : list R) (hidden_states : list (list R))
    (size : nat) : list R :=
  map (λ d, Attention.reduce_sum (zip_with (λ w h, w * nth d h 0) weights hidden_states))
      (seq 0 size).

(** [global_attention] with [encoder.attention_filters = 0]: the
    context vector and the weights. *)
Definition global_attention (y : list R) (hidden_states : list (list R))
    (k : list (list R)) (v : list R) (encoder_input_length : nat) (size : nat)
    : list R * list R :=
  let e := compute_energy hidden_states y k v in
  let weights := Attention.global_attention e encoder_input_length in
  (weighted_average weights hidden_states size, weights).

End Energy.

(** ** The losses: [decoders.sequence_loss] and [decoders.baseline_loss]

    On real numbers.  A time-major matrix is the list of its rows (one
    row per time step, one column per sample); [batch_size] is its
    second dimension, [tf.shape(targets)[1]].  The arrays are meant
    with the shapes the code requires: [logits], [targets], [weights]
    and a [reward], once broadcast, have [time_steps] rows and
    [batch_size] columns.  TensorFlow refuses other shapes, where the
    lists below are cut to the shorter one.  A division by zero gives 0
    on the real numbers of Rocq where [float32] gives [nan] or an
    infinity, and a label outside its logits vector reads 0 where the
    TensorFlow operation fails or gives [nan]: what is stated about
    these definitions excludes both cases by hypothesis. *)

Module Loss.
Local Open Scope R_scope.

(** [tf.reduce_sum(m, 0)]: the sums of the columns. *)
Definition reduce_sum_0 (m : list (list R)) (batch_size : nat) : list R :=
  map (λ b, Attention.reduce_sum (map (λ row, nth b row 0) m)) (seq 0 batch_size).

(** The elementwise product of two matrices. *)
Definition mul (a b : list (list R)) : list (list R) := zip_with (zip_with Rmult) a b.

(** [tf.nn.sparse_softmax_cross_entropy_with_logits] at one position. *)
Definition sparse_softmax_cross_entropy (logits : list R) (target : nat) : R :=
  ln (Attention.reduce_sum (map exp logits)) - nth target logits 0.

(** The divisor of the average across time steps, one per column:
    [total_size = tf.reduce_sum(weights, 0)] and
    [total_size += 1e-12]. *)
Definition total_size (weights : list (list R)) (batch_size : nat) : list R :=
  let total_size := reduce_sum_0 weights batch_size in
  (* just to avoid division by 0 for all-0 weights *)
  map (λ x, x + 1 / 10 ^ 12) total_size.

Definition sequence_loss (logits : list (list (list R))) (targets : list (list nat))
    (weights : list (list R)) (batch_size : nat)
    (average_across_timesteps average_across_batch : bool)
    (reward : option (list (list R))) : R :=
  let crossent := zip_with (zip_with sparse_softmax_cross_entropy) logits targets in
  let crossent :=
    match reward with
    | Some reward => mul crossent reward
    | None => crossent
    end in
  let log_perp := reduce_sum_0 (mul crossent weights) batch_size in
  let log_perp :=
    if average_across_timesteps then
      zip_with Rdiv log_perp (total_size weights batch_size)
    else log_perp in
  let cost := Attention.reduce_sum log_perp in
  if average_across_batch then cost / INR batch_size else cost.

(** [baseline_loss]: [baseline] and [weights] are time-major matrices,
    [reward] has one entry per sample and is broadcast over the time
    steps; the divisor [tf.shape(baseline)[0]] is the first dimension
    of [baseline]. *)
Definition baseline_loss (baseline : list (list R)) (reward : list R)
    (weights : list (list R)) (columns : nat)
    (average_across_timesteps average_across_batch : bool) : R :=
  let batch_size := length baseline in
  let cost := map (λ row, zip_with (λ r b, (r - b) ^ 2) reward row) baseline in
  let cost := reduce_sum_0 (mul cost weights) columns in
  let cost :=
    if average_across_timesteps then
      zip_with Rdiv cost (total_size weights columns)
    else cost in
  let cost := Attention.reduce_sum cost in
  if average_across_batch then cost / INR batch_size else cost.

End Loss.

(** ** Reference counts for the n-gram precision of [sentence_bleu] *)

Module NgramReference.

(** How often the n-gram [v] occurs in [l]. *)
Definition occurrences (v : Z) (l : list Z) : Z :=
  Z.of_nat (length (filter (λ y, y = v) l)).

(** The clipped matches of the modified n-gram precision: each distinct
    n-gram counts as often as it occurs in both sequences. *)
Definition clipped_matches (hyp_ngrams ref_ngrams : list Z) : Z :=
  foldr Z.add 0%Z
    (map (λ v, Z.min (occurrences v hyp_ngrams) (occurrences v ref_ngrams))
         (remove_dups (hyp_ngrams ++ ref_ngrams))).

End NgramReference.

(* ================================================================= *)
(** * Properties *)

(** ** Generic facts about the error monad *)

Lemma mapM_ok {A B} (f : A → result B) (g : A → B) (l : list A) :
  (∀ x, x ∈ l → f x = Ok (g x)) → mapM f l = Ok (map g l).
Proof.
  induction l as [|x l IH]; intros Hf; [done|].
  cbn. rewrite (Hf x) by left. cbn.
  rewrite IH by (intros y Hy; apply Hf; by right). done.
Qed.

Lemma bind_Ok_inv {A B} (m : result A) (f : A → result B) (y : B) :
  m ≫= f = Ok y → ∃ x, m = Ok x ∧ f x = Ok y.
Proof. destruct m as [x|]; [|done]. intros ?. by exists x. Qed.

Lemma mapM_elem_of {A B} (f : A → result B) (l : list A) (k : list B) (y : B) :
  mapM f l = Ok k → y ∈ k → ∃ x, x ∈ l ∧ f x = Ok y.
Proof.
  revert k. induction l as [|x l IH]; intros k Hk Hy; cbn in Hk.
  - change (Ok [] = Ok k) in Hk. simplify_eq. by apply elem_of_nil in Hy.
  - destruct (f x) as [z|] eqn:Hz; [|done]. cbn in Hk.
    destruct (mapM f l) as [k'|] eqn:Hk'; [|done].
    change (Ok (z :: k') = Ok k) in Hk. simplify_eq.
    apply elem_of_cons in Hy as [->|Hy].
    + exists x. split; [left|done].
    + destruct (IH k' eq_refl Hy) as (x' & ? & ?). exists x'. split; [by right|done].
Qed.

Lemma getitem_elem_of {A} (l : list A) i x : Py.getitem l i = Ok x → x ∈ l.
Proof.
  unfold Py.getitem. destruct (l !! i) eqn:Hl; [|done].
  intros ?; simplify_eq. by eapply list_elem_of_lookup_2.
Qed.

Lemma getitem_lookup {A} (l : list A) i x : Py.getitem l i = Ok x ↔ l !! i = Some x.
Proof.
  unfold Py.getitem. destruct (l !! i); split; intros ?; by simplify_eq.
Qed.

Lemma getitem_total {A} (l : list A) i : i < length l → ∃ x, Py.getitem l i = Ok x.
Proof.
  intros Hi. destruct (lookup_lt_is_Some_2 l i Hi) as [x Hx].
  exists x. by apply getitem_lookup.
Qed.

Lemma mapM_Forall2 {A B} (f : A → result B) (l : list A) (k : list B) :
  mapM f l = Ok k → Forall2 (λ x y, f x = Ok y) l k.
Proof.
  revert k. induction l as [|x l IH]; intros k Hk.
  - change (Ok [] = Ok k) in Hk. simplify_eq. constructor.
  - cbn in Hk. apply bind_Ok_inv in Hk as (y & Hy & Hk).
    apply bind_Ok_inv in Hk as (k' & Hk' & Hk).
    change (Ok (y :: k') = Ok k) in Hk. simplify_eq. constructor; [done|by apply IH].
Qed.

Lemma mapM_total {A B} (f : A → result B) (l : list A) :
  (∀ x, x ∈ l → ∃ y, f x = Ok y) → ∃ k, mapM f l = Ok k.
Proof.
  induction l as [|x l IH]; intros Hf; [by exists []|].
  destruct (Hf x) as [y Hy]; [left|].
  destruct IH as [k Hk]; [intros z Hz; apply Hf; by right|].
  exists (y :: k). cbn. rewrite Hy. cbn. by rewrite Hk.
Qed.

Lemma mapM_length {A B} (f : A → result B) (l : list A) (k : list B) :
  mapM f l = Ok k → length k = length l.
Proof. intros Hk%mapM_Forall2. symmetry. by eapply Forall2_length. Qed.

Module BatchFacts.
Section facts.

Context (BOS_ID EOS_ID : Z).
Import Batch.
Abbreviation get_batch := (Batch.get_batch BOS_ID EOS_ID).
Abbreviation pad_of := (Batch.pad_of EOS_ID).
Abbreviation enc_row := (Batch.enc_row EOS_ID).
Abbreviation enc_rows := (Batch.enc_rows EOS_ID).
Abbreviation dec_row := (Batch.dec_row BOS_ID EOS_ID).

Lemma length_enc_row m encoder s : length (enc_row m encoder s) = m + 1.
Proof.
  unfold Batch.enc_row. rewrite length_app, length_replicate, length_take. lia.
Qed.

Lemma encoder_loop_spec encs : ∀ srcs mil_pre mil_suf pre_i suf_i pre_l suf_l di dl,
  length mil_pre = length pre_i → length pre_l = length pre_i →
  length mil_suf = length encs → length srcs = length encs →
  length suf_i = length encs → length suf_l = length encs →
  foldM (Batch.encoder_step EOS_ID (mil_pre ++ mil_suf))
    {| acc_encoder_inputs := pre_i ++ suf_i;
       acc_encoder_input_length := pre_l ++ suf_l;
       acc_decoder_inputs := di; acc_decoder_input_length := dl |}
    (zip (seq (length pre_i) (length encs)) (zip encs srcs))
  = Ok {| acc_encoder_inputs :=
            pre_i ++ zip_with (λ l r, l ++ [r]) suf_i (enc_rows mil_suf encs srcs);
          acc_encoder_input_length :=
            pre_l ++ zip_with (λ l r, l ++ [r]) suf_l (enc_lens mil_suf srcs);
          acc_decoder_inputs := di; acc_decoder_input_length := dl |}.
Proof.
  induction encs as [|e encs IH];
    intros [|s srcs] mil_pre [|m mil_suf] pre_i [|xi suf_i] pre_l [|xl suf_l] di dl
      Hm Hl Hms Hs Hsi Hsl; simplify_eq/=; try done.
  unfold Py.getitem.
  rewrite (list_lookup_middle mil_pre mil_suf m (length pre_i)) by done. cbn.
  rewrite (alter_app_r_alt _ pre_i) by lia.
  rewrite (alter_app_r_alt _ pre_l) by lia.
  replace (length pre_i - length pre_i) with 0 by lia.
  replace (length pre_i - length pre_l) with 0 by lia. cbn.
  specialize (IH srcs (mil_pre ++ [m]) mil_suf
                 (pre_i ++ [xi ++ [take m s ++ replicate (1 + m - length (take m s)) (pad_of e)]])
                 suf_i
                 (pre_l ++ [xl ++ [length (take m s) + 1]]) suf_l di dl).
  rewrite !length_app in IH. cbn in IH.
  rewrite <- !(assoc_L (++)) in IH. cbn in IH.
  replace (length pre_i + 1) with (S (length pre_i)) in IH by lia.
  etrans; [apply IH; lia|]. done.
Qed.

Lemma sample_step_spec self decoding mil mo acc (d : sample) :
  length d = S (encoder_count self) →
  length mil = encoder_count self →
  length (acc_encoder_inputs acc) = encoder_count self →
  length (acc_encoder_input_length acc) = encoder_count self →
  sample_step BOS_ID EOS_ID self decoding mil mo acc d
  = Ok {| acc_encoder_inputs :=
            zip_with (λ l r, l ++ [r]) (acc_encoder_inputs acc)
              (enc_rows mil (encoders self) (removelast d));
          acc_encoder_input_length :=
            zip_with (λ l r, l ++ [r]) (acc_encoder_input_length acc)
              (enc_lens mil (removelast d));
          acc_decoder_inputs :=
            acc_decoder_inputs acc ++ [dec_row_of BOS_ID EOS_ID self decoding mo d];
          acc_decoder_input_length :=
            acc_decoder_input_length acc ++ [dec_len_of self decoding mo d] |}.
Proof.
  unfold encoder_count. intros Hd Hmil Hi Hl.
  destruct acc as [ei el di dl]; cbn in *.
  unfold sample_step, Py.unpack_star_last, dec_row_of, dec_len_of, Batch.dec_row, trg_of.
  destruct (last d) as [t|] eqn:Hlast;
    [|apply last_None in Hlast; subst d; done].
  cbn.
  pose proof (encoder_loop_spec (encoders self) (removelast d) [] mil [] ei [] el di dl) as H.
  cbn in H. rewrite H; [by destruct decoding|done|done|done| |done|done].
  rewrite removelast_firstn_len, length_take. lia.
Qed.

Lemma lookup_removelast {A} (l : list A) i :
  S i < length l → removelast l !! i = l !! i.
Proof.
  intros Hi. rewrite removelast_firstn_len. apply lookup_take_lt. lia.
Qed.

Lemma lookup_enc_rows self mil (d : sample) i enc m :
  length d = S (encoder_count self) →
  encoders self !! i = Some enc → mil !! i = Some m →
  enc_rows mil (encoders self) (removelast d) !! i = Some (enc_row m enc (d !!! i)).
Proof.
  intros Hd Henc Hm. unfold Batch.enc_rows.
  pose proof (lookup_lt_Some _ _ _ Henc) as Hi. unfold encoder_count in Hd.
  destruct (lookup_lt_is_Some_2 d i) as [s Hs]; [lia|].
  rewrite lookup_zip_with, Hm. cbn.
  rewrite lookup_zip_with, Henc. cbn.
  rewrite lookup_removelast, Hs by lia. cbn.
  by rewrite (list_lookup_total_correct _ _ _ Hs).
Qed.

Lemma lookup_enc_lens self mil (d : sample) i m :
  length d = S (encoder_count self) → i < encoder_count self →
  mil !! i = Some m →
  enc_lens mil (removelast d) !! i = Some (length (take m (d !!! i)) + 1).
Proof.
  intros Hd Hi Hm. unfold Batch.enc_lens.
  destruct (lookup_lt_is_Some_2 d i) as [s Hs]; [lia|].
  rewrite lookup_zip_with, Hm. cbn.
  rewrite lookup_removelast, Hs by lia. cbn.
  by rewrite (list_lookup_total_correct _ _ _ Hs).
Qed.

Lemma sample_loop_spec self decoding mil mo (data : list sample) : ∀ acc,
  Forall (λ d : sample, length d = S (encoder_count self)) data →
  length mil = encoder_count self →
  length (acc_encoder_inputs acc) = encoder_count self →
  length (acc_encoder_input_length acc) = encoder_count self →
  ∃ acc', foldM (sample_step BOS_ID EOS_ID self decoding mil mo) acc data = Ok acc' ∧
    length (acc_encoder_inputs acc') = encoder_count self ∧
    length (acc_encoder_input_length acc') = encoder_count self ∧
    (∀ i enc m l, encoders self !! i = Some enc → mil !! i = Some m →
        acc_encoder_inputs acc !! i = Some l →
        acc_encoder_inputs acc' !! i
        = Some (l ++ map (λ d : sample, enc_row m enc (d !!! i)) data)) ∧
    (∀ i m l, i < encoder_count self → mil !! i = Some m →
        acc_encoder_input_length acc !! i = Some l →
        acc_encoder_input_length acc' !! i
        = Some (l ++ map (λ d : sample, length (take m (d !!! i)) + 1) data)) ∧
    acc_decoder_inputs acc'
    = acc_decoder_inputs acc ++ map (dec_row_of BOS_ID EOS_ID self decoding mo) data ∧
    acc_decoder_input_length acc'
    = acc_decoder_input_length acc ++ map (dec_len_of self decoding mo) data.
Proof.
  induction data as [|d data IH]; intros acc Hwf Hmil Hi Hl.
  - exists acc. cbn. rewrite !app_nil_r. split_and!; try done.
    + intros. by rewrite app_nil_r.
    + intros. by rewrite app_nil_r.
  - apply Forall_cons in Hwf as [Hd Hwf]. cbn.
    rewrite sample_step_spec by done. cbn.
    assert (length (enc_rows mil (encoders self) (removelast d)) = encoder_count self) as Hr.
    { unfold Batch.enc_rows. rewrite !length_zip_with, removelast_firstn_len, length_take.
      unfold encoder_count in *. lia. }
    assert (length (enc_lens mil (removelast d)) = encoder_count self) as Hr'.
    { unfold Batch.enc_lens. rewrite !length_zip_with, removelast_firstn_len, length_take.
      unfold encoder_count in *. lia. }
    edestruct IH as (acc' & -> & Hli & Hll & Hei & Hel & Hdi & Hdl); [done|done| | |].
    { cbn. rewrite length_zip_with. lia. }
    { cbn. rewrite length_zip_with. lia. }
    exists acc'. cbn in *. split_and!; [done|done|done| | | |].
    + intros i enc m l Henc Hm Hlk.
      rewrite (Hei i enc m (l ++ [enc_row m enc (d !!! i)])); [|done|done|].
      * by rewrite <- (assoc_L (++)).
      * rewrite lookup_zip_with, Hlk. cbn.
        by rewrite (lookup_enc_rows self mil d i enc m).
    + intros i m l Hlt Hm Hlk.
      rewrite (Hel i m (l ++ [length (take m (d !!! i)) + 1])); [|done|done|].
      * by rewrite <- (assoc_L (++)).
      * rewrite lookup_zip_with, Hlk. cbn.
        by rewrite (lookup_enc_lens self mil d i m).
    + rewrite Hdi. by rewrite <- (assoc_L (++)).
    + rewrite Hdl. by rewrite <- (assoc_L (++)).
Qed.

Lemma batch_max_input_len_spec self (data : list sample) :
  well_formed self data →
  batch_max_input_len self data
  = Ok (map (λ i, max_list (map (λ d : sample, length (d !!! i)) data))
            (seq 0 (encoder_count self))).
Proof.
  intros [Hne Hwf]. unfold batch_max_input_len. apply mapM_ok.
  intros i Hi%elem_of_seq.
  rewrite (mapM_ok _ (λ d : sample, length (d !!! i))).
  - cbn. destruct data; done.
  - intros d Hd. rewrite Forall_forall in Hwf. specialize (Hwf d Hd).
    unfold Py.getitem. destruct (lookup_lt_is_Some_2 d i) as [s Hs]; [lia|].
    rewrite Hs. cbn. by rewrite (list_lookup_total_correct _ _ _ Hs).
Qed.

Lemma trg_lens_spec self (data : list sample) :
  well_formed self data →
  mapM (λ data_ : sample, length <$> Py.getlast data_) data
  = Ok (map (λ d, length (trg_of d)) data).
Proof.
  intros [Hne Hwf]. apply mapM_ok. intros d Hd.
  rewrite Forall_forall in Hwf. specialize (Hwf d Hd).
  unfold Py.getlast, trg_of. destruct (last d) eqn:Hl; [done|].
  apply last_None in Hl. by subst.
Qed.

Lemma omap_lookup_fmap {A B} (f : A → B) (rows : list (list A)) j :
  omap (λ row, row !! j) (map (map f) rows) = map f (omap (λ row, row !! j) rows).
Proof.
  induction rows as [|r rows IH]; [done|]. cbn.
  change (map f r) with (f <$> r). rewrite list_lookup_fmap.
  destruct (r !! j); cbn; by rewrite IH.
Qed.

Lemma transpose_map {A B} (f : A → B) (rows : list (list A)) :
  map (map f) (Py.transpose rows) = Py.transpose (map (map f) rows).
Proof.
  destruct rows as [|r rows]; [done|]. unfold Py.transpose.
  cbn [map]. rewrite length_map, map_map. apply map_ext. intros j.
  by rewrite <- (omap_lookup_fmap f (r :: rows)).
Qed.

Lemma map_replicate {A B} (f : A → B) n x :
  map f (replicate n x) = replicate n (f x).
Proof. induction n; cbn; congruence. Qed.

Section rows.
Context (mo : nat) (d : sample).
Context (Hbos : BOS_ID ≠ (-1)%Z).
Context (Htrg : Forall (λ x, is_minus_one x = false) (trg_of d)).

Let replace := λ x, if is_minus_one x then Tok EOS_ID else x.
Let weight := λ x, if is_minus_one x then 0%Q else 1%Q.

Lemma replace_take : map replace (take mo (trg_of d)) = take mo (trg_of d).
Proof.
  assert (Forall (λ x, is_minus_one x = false) (take mo (trg_of d))) as H
    by by apply Forall_take.
  induction H as [|x l Hx _ IH]; [done|]. cbn. unfold replace at 1.
  by rewrite Hx, IH.
Qed.

Lemma weight_take :
  map weight (take mo (trg_of d)) = replicate (length (take mo (trg_of d))) 1%Q.
Proof.
  assert (Forall (λ x, is_minus_one x = false) (take mo (trg_of d))) as H
    by by apply Forall_take.
  induction H as [|x l Hx _ IH]; [done|]. cbn. unfold weight at 1.
  by rewrite Hx, IH.
Qed.

Lemma replace_dec_input_row :
  map replace (removelast (dec_row mo d)) = dec_input_row BOS_ID EOS_ID mo d.
Proof.
  unfold Batch.dec_row, dec_input_row.
  set (t := take mo (trg_of d)) in *.
  assert (map replace t = t) as Ht by apply replace_take.
  assert (replace (Tok BOS_ID) = Tok BOS_ID) as Hb.
  { unfold replace. cbn. by destruct (Z.eqb_spec BOS_ID (-1)). }
  destruct (mo - length t) as [|p].
  - cbn [replicate]. rewrite !app_nil_r, app_assoc, removelast_last.
    rewrite map_app. cbn [map]. by rewrite Hb, Ht.
  - rewrite replicate_S_end, !app_assoc, removelast_last.
    rewrite !map_app, map_replicate. cbn [map]. rewrite Hb, Ht.
    rewrite <- !app_assoc. cbn. unfold replace at 1. cbn.
    by destruct (Z.eqb_spec EOS_ID (-1)).
Qed.

Lemma replace_dec_target_row :
  map replace (drop 1 (dec_row mo d)) = dec_target_row EOS_ID mo d.
Proof.
  unfold Batch.dec_row, dec_target_row. cbn [app skipn]. rewrite drop_0.
  rewrite !map_app, replace_take. cbn [map]. rewrite map_replicate.
  unfold replace. cbn. by destruct (Z.eqb_spec EOS_ID (-1)).
Qed.

Lemma weight_dec_row :
  EOS_ID ≠ (-1)%Z →
  map weight (drop 1 (dec_row mo d)) = dec_weight_row mo d.
Proof.
  intros Heos. unfold Batch.dec_row, dec_weight_row. cbn [app skipn].
  rewrite drop_0, !map_app, weight_take. cbn [map]. rewrite map_replicate.
  rewrite Nat.add_1_r, replicate_S_end, <- app_assoc.
  unfold weight. cbn. by destruct (Z.eqb_spec EOS_ID (-1)).
Qed.

End rows.

Lemma get_batch_closed_form self (data : list sample) decoding :
  well_formed self data →
  ∃ b, get_batch self data decoding = Ok b ∧
    length (batch_encoder_inputs b) = encoder_count self ∧
    length (encoder_input_length b) = encoder_count self ∧
    (∀ i enc, encoders self !! i = Some enc →
       batch_encoder_inputs b !! i
       = Some (map (λ d : sample, enc_row (batch_input_len self data i) enc (d !!! i)) data) ∧
       encoder_input_length b !! i
       = Some (map (λ d : sample, length (take (batch_input_len self data i) (d !!! i)) + 1)
                   data)) ∧
    let mo := batch_output_len self data in
    let rows := map (dec_row_of BOS_ID EOS_ID self decoding mo) data in
    batch_decoder_inputs b
    = map (map (λ x, if is_minus_one x then Tok EOS_ID else x))
          (Py.transpose (map (λ row, removelast row) rows)) ∧
    batch_targets b
    = map (map (λ x, if is_minus_one x then Tok EOS_ID else x))
          (Py.transpose (map (drop 1) rows)) ∧
    batch_weights b
    = map (map (λ x, if is_minus_one x then 0%Q else 1%Q))
          (Py.transpose (map (drop 1) rows)) ∧
    decoder_input_length b = map (dec_len_of self decoding mo) data.
Proof.
  intros Hwf. unfold Batch.get_batch.
  rewrite batch_max_input_len_spec by done. cbn.
  rewrite (trg_lens_spec self) by done. cbn.
  destruct Hwf as [Hne Hwf].
  assert (Py.max_of (map (λ d, length (trg_of d)) data)
          = Ok (max_list (map (λ d, length (trg_of d)) data))) as ->
    by (destruct data; done).
  cbn.
  set (mil := match max_input_len self with
              | Some cap => _ | None => _ end).
  assert (length mil = encoder_count self) as Hmil.
  { unfold mil. destruct (max_input_len self);
      by rewrite ?length_map, ?length_seq. }
  assert (∀ i, i < encoder_count self → mil !! i = Some (batch_input_len self data i)) as Hlk.
  { intros i Hi. unfold mil, batch_input_len.
    destruct (max_input_len self) as [cap|].
    - change (map ?f ?l) with (f <$> l) at 1. rewrite list_lookup_fmap.
      change (map ?f ?l) with (f <$> l) at 1. rewrite list_lookup_fmap.
      by rewrite lookup_seq_lt.
    - change (map ?f ?l) with (f <$> l) at 1. rewrite list_lookup_fmap.
      by rewrite lookup_seq_lt. }
  edestruct (sample_loop_spec self decoding mil (batch_output_len self data) data)
    as (acc' & Hfold & Hli & Hll & Hei & Hel & Hdi & Hdl); [done|done| | |].
  3: { unfold batch_output_len in Hfold. rewrite Hfold. cbn.
       eexists. split; [done|]. cbn in *. split_and!.
       - done.
       - done.
       - intros i enc Henc.
         pose proof (lookup_lt_Some _ _ _ Henc) as Hi.
         split.
         + rewrite (Hei i enc (batch_input_len self data i) []);
             [done|done|by apply Hlk|].
           by apply lookup_replicate_2.
         + rewrite (Hel i (batch_input_len self data i) []);
             [done|done|by apply Hlk|].
           by apply lookup_replicate_2.
       - by rewrite Hdi.
       - by rewrite Hdi.
       - by rewrite Hdi.
       - by rewrite Hdl. }
  - cbn. by rewrite length_replicate.
  - cbn. by rewrite length_replicate.
Qed.

Lemma transpose_single {A} (r : list A) : Py.transpose [r] = map (λ x, [x]) r.
Proof.
  unfold Py.transpose. apply list_eq. intros i.
  change (map ?f ?l) with (f <$> l). rewrite !list_lookup_fmap.
  destruct (decide (i < length r)) as [Hi|Hi].
  - rewrite lookup_seq_lt by done. cbn.
    destruct (lookup_lt_is_Some_2 r i Hi) as [x Hx]. by rewrite Hx.
  - rewrite lookup_seq_ge by lia. cbn. by rewrite lookup_ge_None_2 by lia.
Qed.

Lemma column_single {A} (r : list A) :
  mapM (λ row : list A, Py.getitem row 0) (map (λ x, [x]) r) = Ok r.
Proof.
  induction r as [|x r IH]; [done|]. cbn. by rewrite IH.
Qed.

(** The encoder side of a one-sample batch depends on the sources only. *)
Lemma get_batch_same_sources self token_ids trg trg' decoding decoding' b b' :
  length token_ids = encoder_count self →
  get_batch self [token_ids ++ [trg]] decoding = Ok b →
  get_batch self [token_ids ++ [trg']] decoding' = Ok b' →
  batch_encoder_inputs b = batch_encoder_inputs b' ∧
  encoder_input_length b = encoder_input_length b'.
Proof.
  intros Hlen Hb Hb'.
  assert (∀ t, well_formed self [token_ids ++ [t]]) as Hwf.
  { intros t. split; [done|]. repeat constructor. rewrite length_app. cbn. lia. }
  destruct (get_batch_closed_form self _ decoding (Hwf trg))
    as (b0 & Hb0 & Hl1 & Hl2 & Henc & _).
  destruct (get_batch_closed_form self _ decoding' (Hwf trg'))
    as (b0' & Hb0' & Hl1' & Hl2' & Henc' & _).
  rewrite Hb in Hb0. rewrite Hb' in Hb0'. simplify_eq.
  assert (∀ i, i < encoder_count self →
            batch_input_len self [token_ids ++ [trg]] i
            = batch_input_len self [token_ids ++ [trg']] i ∧
            (token_ids ++ [trg]) !!! i = (token_ids ++ [trg']) !!! i) as Hsame.
  { intros i Hi. unfold batch_input_len. cbn.
    rewrite !(lookup_total_app_l token_ids) by lia. done. }
  split; apply list_eq; intros i.
  - destruct (decide (i < encoder_count self)) as [Hi|Hi].
    + destruct (lookup_lt_is_Some_2 (encoders self) i Hi) as [enc He].
      destruct (Henc i enc He) as [-> _]. destruct (Henc' i enc He) as [-> _].
      cbn. destruct (Hsame i Hi) as [-> ->]. done.
    + by rewrite !lookup_ge_None_2 by lia.
  - destruct (decide (i < encoder_count self)) as [Hi|Hi].
    + destruct (lookup_lt_is_Some_2 (encoders self) i Hi) as [enc He].
      destruct (Henc i enc He) as [_ ->]. destruct (Henc' i enc He) as [_ ->].
      cbn. destruct (Hsame i Hi) as [-> ->]. done.
    + by rewrite !lookup_ge_None_2 by lia.
Qed.

(** The decoder side of the dummy batch built for decoding. *)
Lemma get_batch_decoding_single self token_ids :
  length token_ids = encoder_count self →
  ∃ b, get_batch self [token_ids ++ [[]]] true = Ok b ∧
    batch_decoder_inputs b
    = map (λ x, [x])
        (map (λ x, if is_minus_one x then Tok EOS_ID else x)
           (removelast ([Tok BOS_ID] ++ replicate (max_output_len self) (Tok EOS_ID)))) ∧
    decoder_input_length b = [max_output_len self].
Proof.
  intros Hlen.
  destruct (get_batch_closed_form self [token_ids ++ [[]]] true)
    as (b & Hb & _ & _ & _ & Hdi & _ & _ & Hdl).
  { split; [done|]. repeat constructor. rewrite length_app. cbn. lia. }
  exists b. split; [done|]. cbn [map] in Hdi, Hdl. rewrite Hdi, Hdl.
  split; [|done]. rewrite transpose_single.
  unfold dec_row_of. by rewrite !map_map.
Qed.

(** The decoder side of the batch built from a full-length target. *)
Lemma get_batch_teacher_single self token_ids (target : list Z) :
  length token_ids = encoder_count self →
  length target = max_output_len self →
  Forall (λ t, (0 ≤ t)%Z) target →
  ∃ b, get_batch self [token_ids ++ [map Tok target]] false = Ok b ∧
    batch_decoder_inputs b
    = map (λ x, [x])
        ((if (BOS_ID =? -1)%Z then Tok EOS_ID else Tok BOS_ID) :: map Tok target) ∧
    decoder_input_length b = [max_output_len self + 1].
Proof.
  intros Hlen Htl Hpos.
  destruct (get_batch_closed_form self [token_ids ++ [map Tok target]] false)
    as (b & Hb & _ & _ & _ & Hdi & _ & _ & Hdl).
  { split; [done|]. repeat constructor. rewrite length_app. cbn. lia. }
  exists b. split; [done|]. cbn [map] in Hdi, Hdl.
  unfold dec_len_of, dec_row_of in Hdi, Hdl.
  assert (trg_of (token_ids ++ [map Tok target]) = map Tok target) as Htrg.
  { unfold trg_of. by rewrite last_snoc. }
  assert (batch_output_len self [token_ids ++ [map Tok target]] = max_output_len self)
    as Hmo.
  { unfold batch_output_len. cbn. rewrite Htrg, length_map, Htl. lia. }
  rewrite Hmo, Htrg in Hdl. rewrite Hmo in Hdi.
  rewrite firstn_all2 in Hdl by (rewrite length_map; lia).
  rewrite length_map, Htl in Hdl. split; [|done].
  rewrite Hdi, transpose_single. unfold Batch.dec_row. rewrite Htrg.
  rewrite firstn_all2 by (rewrite length_map; lia).
  rewrite length_map, Htl, Nat.sub_diag. cbn [replicate].
  rewrite app_nil_r, app_assoc, removelast_last, !map_map. cbn.
  f_equal. rewrite map_map. clear -Hpos. induction Hpos as [|t l Ht _ IH]; [done|].
  cbn in *. rewrite IH. destruct (Z.eqb_spec t (-1)); [lia|done].
Qed.

(** The dummy decoder rows of [decoding=True], once the sentinel is
    replaced. *)
Lemma replace_dummy_row mol :
  BOS_ID ≠ (-1)%Z →
  map (λ x, if is_minus_one x then Tok EOS_ID else x)
      (removelast ([Tok BOS_ID] ++ replicate mol (Tok EOS_ID)))
  = take mol (Tok BOS_ID :: replicate mol (Tok EOS_ID)).
Proof.
  intros Hbos. rewrite removelast_firstn_len, length_app, length_replicate.
  cbn [length Nat.add Nat.pred app].
  rewrite <- firstn_map. f_equal. cbn [map]. rewrite map_replicate. cbn.
  destruct (Z.eqb_spec BOS_ID (-1)); [done|].
  by destruct (Z.eqb_spec EOS_ID (-1)).
Qed.

Lemma replace_dummy_target mol :
  map (λ x, if is_minus_one x then Tok EOS_ID else x)
      (drop 1 ([Tok BOS_ID] ++ replicate mol (Tok EOS_ID)))
  = replicate mol (Tok EOS_ID).
Proof.
  cbn [app skipn]. rewrite drop_0, map_replicate. cbn.
  by destruct (Z.eqb_spec EOS_ID (-1)).
Qed.

Lemma weight_dummy_target mol :
  EOS_ID ≠ (-1)%Z →
  map (λ x, if is_minus_one x then 0%Q else 1%Q)
      (drop 1 ([Tok BOS_ID] ++ replicate mol (Tok EOS_ID)))
  = replicate mol 1%Q.
Proof.
  intros Heos. cbn [app skipn]. rewrite drop_0, map_replicate. cbn.
  by destruct (Z.eqb_spec EOS_ID (-1)).
Qed.

(** C8 (amended).  For a well-formed batch, in either mode, with
    non-negative [utils.BOS_ID] and [utils.EOS_ID] and no target token
    equal to the sentinel [-1]: every source sequence of encoder [i] is
    cut to the batch maximum [m] (capped by [self.max_input_len]) and
    padded to [m + 1] items with [utils.EOS_ID] for a token encoder and
    with a zero vector for a binary encoder, and its length vector
    holds the cut length plus one for the end marker.  With
    [decoding=False] the decoder inputs and targets are padded with
    [utils.EOS_ID] to the batch maximum output length plus one, the
    weights are 1 on the target and its end marker and 0 on the
    padding, and the decoder length vector holds the cut length plus
    one.  With [decoding=True] the decoder side is dummy data: the
    begin marker followed by [utils.EOS_ID], [max_output_len] items in
    all, targets that are [max_output_len] times [utils.EOS_ID] with
    weight 1, and the length [max_output_len] for every sample. *)
Theorem get_batch_padding self (data : list sample) (decoding : bool) :
  well_formed self data →
  (0 ≤ BOS_ID)%Z → (0 ≤ EOS_ID)%Z →
  Forall (λ d, Forall (λ x, is_minus_one x = false) (trg_of d)) data →
  ∃ b, get_batch self data decoding = Ok b ∧
    (∀ i enc, encoders self !! i = Some enc →
       let m := batch_input_len self data i in
       batch_encoder_inputs b !! i
       = Some (map (λ d : sample,
                 take m (d !!! i)
                   ++ replicate (1 + m - length (take m (d !!! i)))
                        (if binary enc
                         then Vec (replicate (embedding_size enc) 0%Q)
                         else Tok EOS_ID)) data) ∧
       encoder_input_length b !! i
       = Some (map (λ d : sample, length (take m (d !!! i)) + 1) data)) ∧
    let mo := batch_output_len self data in
    let mol := max_output_len self in
    if decoding then
      batch_decoder_inputs b
      = Py.transpose (map (λ _, take mol (Tok BOS_ID :: replicate mol (Tok EOS_ID))) data) ∧
      batch_targets b = Py.transpose (map (λ _, replicate mol (Tok EOS_ID)) data) ∧
      batch_weights b = Py.transpose (map (λ _, replicate mol 1%Q) data) ∧
      decoder_input_length b = map (λ _, mol) data
    else
      batch_decoder_inputs b = Py.transpose (map (dec_input_row BOS_ID EOS_ID mo) data) ∧
      batch_targets b = Py.transpose (map (dec_target_row EOS_ID mo) data) ∧
      batch_weights b = Py.transpose (map (dec_weight_row mo) data) ∧
      decoder_input_length b = map (λ d, length (take mo (trg_of d)) + 1) data.
Proof.
  intros Hwf Hbos Heos Htrg.
  destruct (get_batch_closed_form self data decoding Hwf)
    as (b & Hb & _ & _ & Henc & Hdi & Hdt & Hdw & Hdl).
  exists b. split; [done|]. split; [exact Henc|]. cbn zeta in *.
  rewrite Forall_forall in Htrg.
  destruct decoding; unfold dec_row_of, dec_len_of in *.
  - split_and!; [| | |done].
    + rewrite Hdi, transpose_map, !map_map. f_equal.
      apply map_ext. intros d. apply replace_dummy_row. lia.
    + rewrite Hdt, transpose_map, !map_map. f_equal.
      apply map_ext. intros d. apply replace_dummy_target.
    + rewrite Hdw, transpose_map, !map_map. f_equal.
      apply map_ext. intros d. apply weight_dummy_target. lia.
  - split_and!; [| | |done].
    + rewrite Hdi, transpose_map, !map_map. f_equal.
      apply map_ext_in. intros d Hd%list_elem_of_In.
      apply replace_dec_input_row; [lia|by apply Htrg].
    + rewrite Hdt, transpose_map, !map_map. f_equal.
      apply map_ext_in. intros d Hd%list_elem_of_In.
      apply replace_dec_target_row. by apply Htrg.
    + rewrite Hdw, transpose_map, !map_map. f_equal.
      apply map_ext_in. intros d Hd%list_elem_of_In.
      apply weight_dec_row; [by apply Htrg|lia].
Qed.

End facts.

(** C7.  With the vocabulary PAD=0, EOS=1, BOS=2, A=3, B=4, one encoder
    and [max_output_len >= 2], the sample with source [[A, B]] and
    target [[A, B]] yields the time-major decoder inputs [[BOS, A, B]],
    targets [[A, B, EOS]] and weights [[1, 1, 1]]. *)
Theorem get_batch_scenario self enc :
  encoders self = [enc] → 2 ≤ max_output_len self →
  ∃ b, Batch.get_batch 2 1 self [[ [Tok 3; Tok 4]; [Tok 3; Tok 4] ]] false = Ok b ∧
    batch_decoder_inputs b = [[Tok 2]; [Tok 3]; [Tok 4]] ∧
    batch_targets b = [[Tok 3]; [Tok 4]; [Tok 1]] ∧
    batch_weights b = [[1%Q]; [1%Q]; [1%Q]].
Proof.
  intros Henc Hmo.
  destruct (get_batch_closed_form 2 1 self [[ [Tok 3; Tok 4]; [Tok 3; Tok 4] ]] false)
    as (b & Hb & _ & _ & _ & Hdi & Hdt & Hdw & _).
  { split; [done|]. repeat constructor. unfold encoder_count. by rewrite Henc. }
  exists b. split; [done|].
  assert (Batch.batch_output_len self [[ [Tok 3; Tok 4]; [Tok 3; Tok 4] ]] = 2) as Hlen.
  { unfold Batch.batch_output_len.
    change (max_list _) with 2. lia. }
  cbn zeta in *. rewrite Hlen in *.
  by rewrite Hdi, Hdt, Hdw.
Qed.

(** [get_batch_scenario] at the scenario model. *)
Lemma get_batch_scenario_witness :
  encoders scenario_model = [scenario_encoder] ∧
  2 ≤ max_output_len scenario_model ∧
  ∃ b, Batch.get_batch 2 1 scenario_model [[ [Tok 3; Tok 4]; [Tok 3; Tok 4] ]] false = Ok b ∧
    batch_decoder_inputs b = [[Tok 2]; [Tok 3]; [Tok 4]] ∧
    batch_targets b = [[Tok 3]; [Tok 4]; [Tok 1]] ∧
    batch_weights b = [[1%Q]; [1%Q]; [1%Q]].
Proof.
  split; [reflexivity|]. split; [cbn; lia|].
  apply (get_batch_scenario scenario_model scenario_encoder); [reflexivity|cbn; lia].
Defined.

(** C8 (counterexample).  With the vocabulary PAD=0, EOS=1, BOS=2, A=3,
    B=4 and the sources [[A, B]] and [[A]] in one batch, the second
    source has length 2 with its end marker, and the row built for it is
    [[A, EOS, EOS]]: the padding at position 2 is token 1, and token 0
    occurs nowhere in the row.  With [decoding=True] the decoder
    lengths of the same batch are [max_output_len = 50] for both
    samples, whose targets have the lengths 2 and 1. *)
Lemma pad_token_is_eos_not_index_zero :
  (∃ b row,
    Batch.get_batch 2 1 scenario_model
      [[[Tok 3; Tok 4]; [Tok 3; Tok 4]]; [[Tok 3]; [Tok 4]]] false = Ok b ∧
    encoder_input_length b = [[3; 2]] ∧
    batch_encoder_inputs b !! 0 ≫= (.!! 1) = Some row ∧
    row = [Tok 3; Tok 1; Tok 1] ∧
    row !! 2 ≠ Some (Tok 0)) ∧
  (∃ b,
    Batch.get_batch 2 1 scenario_model
      [[[Tok 3; Tok 4]; [Tok 3; Tok 4]]; [[Tok 3]; [Tok 4]]] true = Ok b ∧
    decoder_input_length b = [50; 50]).
Proof.
  split.
  - eexists _, _. split; [reflexivity|]. split; [reflexivity|].
    split; [reflexivity|]. split; [reflexivity|]. discriminate.
  - eexists. split; reflexivity.
Qed.

(** [get_batch_padding] at a batch of two samples. *)
Lemma get_batch_padding_witness :
  let data := [[[Tok 3; Tok 4]; [Tok 3; Tok 4]]; [[Tok 3]; [Tok 4]]] in
  Batch.well_formed scenario_model data ∧
  (0 ≤ 2)%Z ∧ (0 ≤ 1)%Z ∧
  Forall (λ d, Forall (λ x, Batch.is_minus_one x = false) (Batch.trg_of d)) data ∧
  ∃ b, Batch.get_batch 2 1 scenario_model data false = Ok b ∧
    batch_decoder_inputs b
    = Py.transpose (map (Batch.dec_input_row 2 1 (Batch.batch_output_len scenario_model data))
                        data) ∧
    decoder_input_length b
    = map (λ d, length (take (Batch.batch_output_len scenario_model data) (Batch.trg_of d)) + 1)
          data.
Proof.
  intros data.
  assert (Batch.well_formed scenario_model data) as Hwf.
  { split; [discriminate|]. repeat constructor. }
  assert (Forall (λ d, Forall (λ x, Batch.is_minus_one x = false) (Batch.trg_of d)) data)
    as Htrg.
  { repeat constructor. }
  split; [exact Hwf|]. split; [lia|]. split; [lia|]. split; [exact Htrg|].
  destruct (get_batch_padding 2 1 scenario_model data false Hwf ltac:(lia) ltac:(lia) Htrg)
    as (b & Hb & _ & Hdi & _ & _ & Hdl).
  exists b. split; [exact Hb|]. split; [exact Hdi|exact Hdl].
Defined.

End BatchFacts.

(** ** Beam search *)

Module BeamFacts.
Section facts.

Context {num : Type} `{Numeric num}.
Context {State Output EncState Attn : Type}.
Context (BOS_ID EOS_ID : Z).
Context (estimate_lm_score : list Z → list (gmap (list Z) num) → num).

Import Beam.
Abbreviation session := (@Beam.session num State Output EncState Attn).
Abbreviation beam := (@Beam.beam num State Output).
Abbreviation beam_step :=
  (@Beam.beam_step num _ State Output EncState Attn BOS_ID EOS_ID estimate_lm_score).
Abbreviation ends_eos := (Beam.ends_eos EOS_ID).
Abbreviation candidates := (@Beam.candidates num State Output).
Abbreviation inv := (@Beam.inv num State Output EOS_ID).
Abbreviation well_shaped := (@Beam.well_shaped num State Output).
Abbreviation candidates_shaped := (@Beam.candidates_shaped num State Output).

Lemma imap_fst {A} (xs : list A) (k : nat) :
  (imap (λ i x, (k + i, x)) xs).*1 = seq k (length xs).
Proof.
  revert k. induction xs as [|x xs IH]; intros k; [done|].
  cbn. rewrite Nat.add_0_r. f_equal. rewrite <- (IH (S k)).
  f_equal. apply imap_ext. intros i y _. cbn. f_equal. lia.
Qed.

Lemma argsort_perm (xs : list num) : argsort xs ≡ₚ seq 0 (length xs).
Proof.
  unfold argsort. rewrite merge_sort_Permutation.
  by rewrite <- (imap_fst xs 0).
Qed.

Lemma length_slice_to {A} (l : list A) (b : Z) :
  (0 ≤ b)%Z → (Z.of_nat (length (Py.slice_to l b)) ≤ b)%Z.
Proof.
  intros Hb. unfold Py.slice_to.
  destruct (Z.leb_spec 0 b); [|lia]. rewrite length_take. lia.
Qed.

(** What the loop over the kept candidates does to the beam. *)
Lemma candidates_spec hyps scores_ ds out xs : ∀ c c' : candidates,
  foldM (candidate_step EOS_ID hyps scores_ ds out) c xs = Ok c' →
  ∃ cands : list (list Z),
    length cands = length xs ∧
    Forall (λ cand, ∃ h tok, h ∈ hyps ∧ cand = h ++ [tok]) cands ∧
    c_finished_hypotheses c' = c_finished_hypotheses c ++ filter ends_eos cands ∧
    c_new_hypotheses c' = c_new_hypotheses c ++ filter (λ h, ¬ ends_eos h) cands ∧
    c_beam_size c' = (c_beam_size c - Z.of_nat (length (filter ends_eos cands)))%Z.
Proof.
  induction xs as [|[flat_id [hyp_id token_id]] xs IH]; intros c c' Hc; cbn in Hc.
  - simplify_eq. exists []. cbn. rewrite !app_nil_r. split_and!; try done. lia.
  - destruct (Py.getitem hyps hyp_id) as [h|] eqn:Hh; [|done]. cbn in Hc.
    destruct (Py.getitem scores_ flat_id) as [score|] eqn:Hs; [|done]. cbn in Hc.
    apply getitem_elem_of in Hh.
    destruct (decide (Z.of_nat token_id = EOS_ID)) as [Heos|Heos].
    + cbn in Hc. destruct (IH _ _ Hc) as (cands & Hlen & Hall & Hf & Hn & Hb).
      cbn in *. exists ((h ++ [Z.of_nat token_id]) :: cands).
      assert (ends_eos (h ++ [Z.of_nat token_id])) as He.
      { unfold Beam.ends_eos. rewrite last_snoc. by f_equal. }
      rewrite !filter_cons. destruct (decide (ends_eos _)); [|done].
      destruct (decide (¬ ends_eos _)); [done|].
      split_and!; cbn.
      * by rewrite Hlen.
      * constructor; [by exists h, (Z.of_nat token_id)|done].
      * by rewrite Hf, <- (assoc_L (++)).
      * done.
      * lia.
    + destruct (mapM _ ds) as [states|]; [|done]. cbn in Hc.
      destruct (mapM _ out) as [outputs|]; [|done]. cbn in Hc.
      destruct (IH _ _ Hc) as (cands & Hlen & Hall & Hf & Hn & Hb).
      cbn in *. exists ((h ++ [Z.of_nat token_id]) :: cands).
      assert (¬ ends_eos (h ++ [Z.of_nat token_id])) as He.
      { unfold Beam.ends_eos. rewrite last_snoc. congruence. }
      rewrite !filter_cons. destruct (decide (ends_eos _)); [done|].
      destruct (decide (¬ ends_eos _)); [|done].
      split_and!; cbn.
      * by rewrite Hlen.
      * constructor; [by exists h, (Z.of_nat token_id)|done].
      * done.
      * by rewrite Hn, <- (assoc_L (++)).
      * lia.
Qed.

Lemma length_filter_split {A} (P : A → Prop) `{∀ x, Decision (P x)} (l : list A) :
  length (filter P l) + length (filter (λ x, ¬ P x) l) = length l.
Proof.
  induction l as [|x l IH]; [done|]. rewrite !filter_cons.
  destruct (decide (P x)), (decide (¬ P x)); cbn; try done; lia.
Qed.

(** One iteration: at most [beam_size] candidates are kept, those
    ending in the end marker are retired and each one lowers
    [beam_size] by one, the others form the new live beam. *)
Lemma beam_step_spec self (session : list session) ngrams el attn t (st st' : beam) :
  beam_step self session ngrams el attn t st = Ok st' →
  (0 ≤ beam_size st)%Z →
  ∃ cands : list (list Z),
    (Z.of_nat (length cands) ≤ beam_size st)%Z ∧
    Forall (λ cand, ∃ h tok, h ∈ hypotheses st ∧ cand = h ++ [tok]) cands ∧
    finished_hypotheses st' = finished_hypotheses st ++ filter ends_eos cands ∧
    hypotheses st' = filter (λ h, ¬ ends_eos h) cands ∧
    beam_size st' = (beam_size st - Z.of_nat (length (filter ends_eos cands)))%Z.
Proof.
  unfold Beam.beam_step. intros Hstep Hb.
  destruct (build_feeds _ _ _ _ _) as [feeds|]; [|done]. cbn in Hstep.
  destruct (step_scores _ _ _ _ _ _ _) as [scores_|]; [|done]. cbn in Hstep.
  destruct (foldM _ _ _) as [c|] eqn:Hc; [|done]. cbn in Hstep. simplify_eq.
  apply candidates_spec in Hc as (cands & Hlen & Hall & Hf & Hn & Hbs).
  cbn in *. exists cands. split_and!; try done.
  rewrite Hlen, !length_zip_with, !length_map.
  pose proof (length_slice_to (argsort scores_) (beam_size st) Hb). lia.
Qed.

Lemma zip_flat_ids V (flat_ids : list nat) :
  zip flat_ids (zip (map (λ flat_id, flat_id / V) flat_ids)
                    (map (λ flat_id, flat_id mod V) flat_ids))
  = map (λ flat_id, (flat_id, (flat_id / V, flat_id mod V))) flat_ids.
Proof. induction flat_ids as [|x l IH]; [done|]. cbn. by rewrite IH. Qed.

(** The loop over the kept candidates goes through the flat ids in
    order: each one yields its candidate, which is retired when it ends
    with the end marker and joins the new beam otherwise. *)
Lemma candidates_selected self hyps scores_ ds out (flat_ids : list nat) :
  ∀ c c' : candidates,
  foldM (candidate_step EOS_ID hyps scores_ ds out) c
    (map (λ flat_id, (flat_id, (flat_id / trg_vocab_size self,
                                flat_id mod trg_vocab_size self))) flat_ids) = Ok c' →
  ∃ cands : list (list Z),
    Forall2 (λ flat_id cand, candidate_of self hyps flat_id = Some cand) flat_ids cands ∧
    c_finished_hypotheses c' = c_finished_hypotheses c ++ filter ends_eos cands ∧
    c_new_hypotheses c' = c_new_hypotheses c ++ filter (λ h, ¬ ends_eos h) cands ∧
    c_beam_size c' = (c_beam_size c - Z.of_nat (length (filter ends_eos cands)))%Z.
Proof.
  induction flat_ids as [|flat_id flat_ids IH]; intros c c' Hc; cbn [map foldM] in Hc.
  - simplify_eq. exists []. cbn. rewrite !app_nil_r. split_and!; try done. lia.
  - apply bind_Ok_inv in Hc as (c1 & Hstep & Hc).
    destruct (IH _ _ Hc) as (cands & Hall & Hf & Hn & Hb).
    unfold Beam.candidate_step in Hstep.
    apply bind_Ok_inv in Hstep as (h & Hh & Hstep).
    apply bind_Ok_inv in Hstep as (score & _ & Hstep).
    apply getitem_lookup in Hh.
    set (tok := Z.of_nat (flat_id mod trg_vocab_size self)) in *.
    exists ((h ++ [tok]) :: cands).
    assert (candidate_of self hyps flat_id = Some (h ++ [tok])) as Hcand.
    { unfold Beam.candidate_of. by rewrite Hh. }
    rewrite !filter_cons.
    destruct (decide (tok = EOS_ID)) as [Heos|Heos].
    + injection Hstep as <-. cbn in Hf, Hn, Hb.
      assert (ends_eos (h ++ [tok])) as He.
      { unfold Beam.ends_eos. rewrite last_snoc. by f_equal. }
      destruct (decide (ends_eos _)); [|done].
      destruct (decide (¬ ends_eos _)); [done|].
      split_and!; cbn.
      * by constructor.
      * by rewrite Hf, <- (assoc_L (++)).
      * done.
      * lia.
    + apply bind_Ok_inv in Hstep as (states & _ & Hstep).
      apply bind_Ok_inv in Hstep as (outputs & _ & Hstep).
      injection Hstep as <-. cbn in Hf, Hn, Hb.
      assert (¬ ends_eos (h ++ [tok])) as He.
      { unfold Beam.ends_eos. rewrite last_snoc. congruence. }
      destruct (decide (ends_eos _)); [done|].
      destruct (decide (¬ ends_eos _)); [|done].
      split_and!; cbn.
      * by constructor.
      * done.
      * by rewrite Hn, <- (assoc_L (++)).
      * lia.
Qed.

(** One iteration, with the candidates named: they are the extensions
    with the [beam_size] lowest entries of [scores_], in the order of
    [np.argsort]. *)
Lemma beam_step_selected self (session : list session) ngrams el attn t (st st' : beam) :
  beam_step self session ngrams el attn t st = Ok st' →
  ∃ (scores_ : list num) (cands : list (list Z)),
    step_flat_scores BOS_ID estimate_lm_score self session ngrams el attn t st
    = Ok scores_ ∧
    Forall2 (λ flat_id cand, candidate_of self (hypotheses st) flat_id = Some cand)
            (Py.slice_to (argsort scores_) (beam_size st)) cands ∧
    finished_hypotheses st' = finished_hypotheses st ++ filter ends_eos cands ∧
    hypotheses st' = filter (λ h, ¬ ends_eos h) cands ∧
    beam_size st' = (beam_size st - Z.of_nat (length (filter ends_eos cands)))%Z.
Proof.
  unfold Beam.beam_step, Beam.step_flat_scores. intros Hstep.
  destruct (build_feeds _ _ _ _ _) as [feeds|]; [|done]. cbn in Hstep |- *.
  destruct (step_scores _ _ _ _ _ _ _) as [scores_|]; [|done]. cbn in Hstep.
  destruct (foldM _ _ _) as [c|] eqn:Hc; [|done]. cbn in Hstep. simplify_eq.
  rewrite zip_flat_ids in Hc.
  apply (candidates_selected self) in Hc as (cands & Hall & Hf & Hn & Hbs).
  cbn in *. by exists scores_, cands.
Qed.

Lemma inv_step B self (session : list session) ngrams el attn t (st st' : beam) :
  inv B t st →
  beam_step self session ngrams el attn t st = Ok st' →
  inv B (S t) st'.
Proof.
  intros (Hb & Hl & Hf & Hh) Hstep.
  apply beam_step_spec in Hstep as (cands & Hlen & Hall & Hf' & Hn & Hbs); [|lia].
  pose proof (length_filter_split ends_eos cands) as Hsplit.
  unfold Beam.inv. rewrite Hf', Hn, Hbs, length_app. split_and!.
  - lia.
  - lia.
  - apply Forall_app. split; [done|]. apply Forall_forall.
    by intros h [? _]%list_elem_of_filter.
  - apply Forall_forall. intros h [_ Hin]%list_elem_of_filter.
    rewrite Forall_forall in Hall. destruct (Hall h Hin) as (h0 & tok & Hh0 & ->).
    rewrite Forall_forall in Hh. rewrite length_app, (Hh h0 Hh0). cbn. lia.
Qed.

Lemma inv_state_after B self (session : list session) ngrams el attn (st0 : beam) t :
  ∀ st, inv B 0 st0 →
  state_after (beam_step self session ngrams el attn) st0 t = Ok st →
  inv B t st.
Proof.
  induction t as [|t IH]; intros st Hinv Hst; cbn in Hst.
  - by simplify_eq.
  - destruct (state_after _ _ _) as [st1|]; [|done]. cbn in Hst.
    eapply inv_step; [|done]. by apply IH.
Qed.

Lemma beam_loop_spec (step : nat → beam → result beam) (st0 : beam) k :
  ∀ a st st_f,
  state_after step st0 a = Ok st →
  beam_loop step (seq a k) st = Ok st_f →
  ∃ t, a ≤ t ≤ a + k ∧ state_after step st0 t = Ok st_f ∧
    (t = a + k ∨ (a < t ∧ (beam_size st_f ≤ 0)%Z)) ∧
    ∀ t' st', a < t' < t → state_after step st0 t' = Ok st' → (0 < beam_size st')%Z.
Proof.
  induction k as [|k IH]; intros a st st_f Ha Hloop; cbn in Hloop.
  - simplify_eq. exists a. split_and!; [lia|lia|done|left; lia|intros; lia].
  - destruct (step a st) as [st1|] eqn:Hstep; [|done]. cbn in Hloop.
    assert (state_after step st0 (S a) = Ok st1) as Ha1.
    { cbn. by rewrite Ha. }
    destruct (Z.leb_spec (beam_size st1) 0) as [Hle|Hgt].
    + simplify_eq. exists (S a).
      split_and!; [lia|lia|done|right; split; [lia|done]|intros; lia].
    + destruct (IH (S a) st1 st_f Ha1 Hloop) as (t & Ht & Hst & Hstop & Hrun).
      exists t. split_and!; [lia|lia|done| |].
      * destruct Hstop as [->|[? ?]]; [left; lia|right; split; [lia|done]].
      * intros t' st' Ht' Hst'. destruct (decide (t' = S a)) as [->|Hne].
        -- rewrite Ha1 in Hst'. by simplify_eq.
        -- apply (Hrun t' st'); [lia|done].
Qed.

Lemma beam_init_inv self (session : list session) token_ids B el attn (st0 : beam) :
  (1 ≤ B)%Z →
  beam_init BOS_ID EOS_ID self session token_ids B = Ok (el, attn, st0) →
  inv B 0 st0.
Proof.
  unfold Beam.beam_init. intros HB Hinit.
  destruct (Batch.get_batch _ _ _ _ _) as [b|]; [|done]. cbn in Hinit.
  destruct (foldM _ _ _) as [feed|]; [|done]. cbn in Hinit.
  destruct (decide (session = [])); [done|].
  destruct (Py.getitem _ 0) as [di|]; [|done]. cbn in Hinit. simplify_eq.
  unfold Beam.inv. cbn. split_and!; [lia|lia|done|by repeat constructor].
Qed.

(** C1.  For every initial width [B >= 1]: after any number of
    iterations the finished and live hypotheses together number at
    most [B] and [beam_size] is [B] minus the number of finished ones;
    an iteration goes through [beam_size] distinct flat ids of
    [scores_] (all of them when there are fewer; which ones is the
    choice of [np.argsort], on which nothing here depends); the
    candidate of a flat id is hypothesis
    [flat_id // V] extended by token [flat_id % V]; the candidates
    whose new token is the end marker are retired and [beam_size] is
    lowered by one for each, and the others, in their order and
    nothing else, are the new live beam; a returned result
    comes from the first iteration count [t] at which [t] is
    [max_output_len] or [beam_size] has reached zero; and every
    returned hypothesis ends with the end marker or has length
    [max_output_len]. *)
Theorem beam_search_invariant self (session : list session) token_ids B ngrams :
  (1 ≤ B)%Z →
  let at_ := beam_at BOS_ID EOS_ID estimate_lm_score self session token_ids B ngrams in
  (∀ t (st : beam), at_ t = Ok st →
     (Z.of_nat (length (finished_hypotheses st) + length (hypotheses st)) ≤ B)%Z ∧
     beam_size st = (B - Z.of_nat (length (finished_hypotheses st)))%Z) ∧
  (∀ t (st st' : beam), at_ t = Ok st → at_ (S t) = Ok st' →
     ∃ (scores_ : list num) (flat_ids : list nat) (cands : list (list Z)),
       flat_scores_at BOS_ID EOS_ID estimate_lm_score self session token_ids B ngrams t
       = Ok scores_ ∧
       NoDup flat_ids ∧ Forall (λ flat_id, flat_id < length scores_) flat_ids ∧
       length flat_ids = Nat.min (Z.to_nat (beam_size st)) (length scores_) ∧
       Forall2 (λ flat_id cand, candidate_of self (hypotheses st) flat_id = Some cand)
               flat_ids cands ∧
       (Z.of_nat (length cands) ≤ beam_size st)%Z ∧
       Forall (λ cand, ∃ h tok, h ∈ hypotheses st ∧ cand = h ++ [tok]) cands ∧
       finished_hypotheses st' = finished_hypotheses st ++ filter ends_eos cands ∧
       hypotheses st' = filter (λ h, ¬ ends_eos h) cands ∧
       beam_size st' = (beam_size st - Z.of_nat (length (filter ends_eos cands)))%Z) ∧
  (∀ hyps scores,
     beam_search_decoding BOS_ID EOS_ID estimate_lm_score self session token_ids B ngrams
     = Ok (hyps, scores) →
     (∃ t (st : beam), at_ t = Ok st ∧
        (t = max_output_len self ∨ (0 < t < max_output_len self ∧ (beam_size st ≤ 0)%Z)) ∧
        (∀ t' st', 0 < t' < t → at_ t' = Ok st' → (0 < beam_size st')%Z) ∧
        ∀ h, h ∈ hyps → h ∈ hypotheses st ++ finished_hypotheses st) ∧
     Forall (λ h, ends_eos h ∨ length h = max_output_len self) hyps).
Proof.
  intros HB at_. subst at_.
  unfold Beam.beam_at, Beam.flat_scores_at, Beam.beam_search_decoding.
  destruct (beam_init _ _ _ _ _ _) as [[[el attn] st0]|] eqn:Hinit; cbn;
    [|split_and!; intros; done].
  pose proof (beam_init_inv _ _ _ _ _ _ _ HB Hinit) as Hinv0.
  split_and!.
  - intros t st Hst.
    destruct (inv_state_after B _ _ _ _ _ _ _ _ Hinv0 Hst) as (Hb & Hl & _ & _).
    split; [|done]. lia.
  - intros t st st' Hst Hst'. cbn in Hst'. rewrite Hst in Hst' |- *. cbn in Hst' |- *.
    destruct (inv_state_after B _ _ _ _ _ _ _ _ Hinv0 Hst) as (Hb & Hl & _ & _).
    destruct (beam_step_selected _ _ _ _ _ _ _ _ Hst')
      as (scores_ & cands & Hsc & Hsel & Hf & Hn & Hbs).
    assert (Py.slice_to (argsort scores_) (beam_size st)
            = take (Z.to_nat (beam_size st)) (argsort scores_)) as Hids.
    { unfold Py.slice_to. destruct (Z.leb_spec 0 (beam_size st)); [done|lia]. }
    pose proof (argsort_perm scores_) as Hperm.
    exists scores_, (Py.slice_to (argsort scores_) (beam_size st)), cands.
    split_and!; try done.
    + rewrite Hids. eapply sublist_NoDup; [|apply sublist_take].
      rewrite Hperm. apply NoDup_seq.
    + rewrite Hids. apply Forall_take. rewrite Hperm.
      apply Forall_forall. intros i Hi%elem_of_seq. lia.
    + by rewrite Hids, length_take, Hperm, length_seq.
    + rewrite <- (Forall2_length _ _ _ Hsel).
      apply length_slice_to. lia.
    + apply Forall_forall. intros cand Hcand.
      apply list_elem_of_lookup in Hcand as (i & Hi).
      destruct (Forall2_lookup_r _ _ _ _ _ Hsel Hi) as (flat_id & _ & Hc).
      unfold Beam.candidate_of in Hc.
      destruct (hypotheses st !! _) as [h|] eqn:Hh; [|done]. cbn in Hc. simplify_eq.
      eexists _, _. split; [|done]. by eapply list_elem_of_lookup_2.
  - intros hyps scores Hres.
    destruct (beam_loop _ _ _) as [st|] eqn:Hloop; [|done]. cbn in Hres.
    apply bind_Ok_inv in Hres as (hyps' & Hh & Hres).
    apply bind_Ok_inv in Hres as (scores' & _ & Hres).
    injection Hres as -> ->.
    destruct (beam_loop_spec _ st0 _ 0 st0 st eq_refl Hloop)
      as (t & Ht & Hst & Hstop & Hrun).
    destruct (inv_state_after B _ _ _ _ _ _ _ _ Hinv0 Hst) as (Hb & Hl & Hf & Hlen).
    assert (∀ h, h ∈ hyps → h ∈ hypotheses st ++ finished_hypotheses st) as Hsub.
    { intros h Hin. destruct (mapM_elem_of _ _ _ _ Hh Hin) as (i & _ & Hi).
      by apply getitem_elem_of in Hi. }
    split.
    + exists t, st. split_and!; [done| |done|done].
      destruct Hstop as [->|[? ?]]; [by left|].
      destruct (decide (t = max_output_len self)); [by left|right]. lia.
    + apply Forall_forall. intros h Hin%Hsub.
      apply elem_of_app in Hin as [Hin|Hin].
      * destruct Hstop as [->|[_ Hle]].
        -- right. rewrite Forall_forall in Hlen. by apply Hlen.
        -- destruct (hypotheses st); [by apply elem_of_nil in Hin|cbn in Hl; lia].
      * left. rewrite Forall_forall in Hf. by apply Hf.
Qed.

(** *** The guard [if i > 0] of the feeding of [beam_tensors.output] *)

Abbreviation value := (@Beam.value State Output EncState Attn).
Abbreviation feed := (gmap tensor value).

Lemma encoder_length_loop_one el (feeds : list feed) : ∀ (fed : list feed) i0 fed' i',
  foldM (λ '(fed, i) feed,
           '(feed, i) ←
             foldM (λ '(feed, _) i,
                      len ← Py.getitem el i;
                      Ok (<[encoder_input_length_ph i := V_lengths len]> feed, i))
                   (feed, i) [0];
           Ok (fed ++ [feed], i))
        (fed, i0) feeds = Ok (fed', i') →
  (∀ f : feed, f ∈ fed → f !! beam_tensors_output = None) →
  (∀ f : feed, f ∈ feeds → f !! beam_tensors_output = None) →
  (∀ f : feed, f ∈ fed' → f !! beam_tensors_output = None) ∧
  (feeds = [] ∧ fed' = fed ∧ i' = i0 ∨ i' = 0).
Proof.
  induction feeds as [|f feeds IH]; intros fed i0 fed' i' Hfold Hfed Hfeeds.
  - cbn in Hfold. simplify_eq. split; [done|by left].
  - cbn [foldM] in Hfold.
    apply bind_Ok_inv in Hfold as ([fed1 i1] & Hbody & Hfold).
    apply bind_Ok_inv in Hbody as ([f1 i1'] & Hinner & Hbody).
    apply bind_Ok_inv in Hinner as ([f2 i2] & Hinner & Hret).
    apply bind_Ok_inv in Hinner as (len & Hlen & Hinner).
    cbn in Hinner, Hret, Hbody. simplify_eq.
    apply IH in Hfold as [Hnone Hi].
    + split; [done|]. right. by destruct Hi as [(_ & _ & ->)|Hi].
    + intros g [Hg|Hg%list_elem_of_singleton]%elem_of_app; [by apply Hfed|].
      subst g. rewrite lookup_insert_ne by done. apply Hfeeds. by left.
    + intros g Hg. apply Hfeeds. by right.
Qed.

Lemma attention_loop_keeps (attn_states_ : list Attn) batch_size n : ∀ (f f' : feed),
  foldM (λ input_feed_ i,
           a ← Py.getitem attn_states_ i;
           Ok (<[attention_states_t i := V_attn (replicate batch_size a)]> input_feed_))
        f (seq 0 n) = Ok f' →
  f !! beam_tensors_output = None → f' !! beam_tensors_output = None.
Proof.
  generalize 0 as a. induction n as [|n IH]; intros a f f' Hfold Hf; cbn in Hfold.
  - by simplify_eq.
  - apply bind_Ok_inv in Hfold as (f1 & Hbody & Hfold).
    apply bind_Ok_inv in Hbody as (x & _ & Hbody). cbn in Hbody. simplify_eq.
    apply (IH _ _ _ Hfold). by rewrite lookup_insert_ne.
Qed.

(** C10.  With exactly one encoder, no per-session feed dictionary of
    any time step [t], built from any loop state, holds the key
    [beam_tensors.output]: when the guard [if i > 0] is evaluated, [i]
    is the last index of the loop over the encoders, which is 0. *)
Theorem single_encoder_never_feeds_output self el attn t (st : beam) (feeds : list feed) :
  encoder_count self = 1 →
  build_feeds self el attn t st = Ok feeds →
  ∀ f : feed, f ∈ feeds → f !! beam_tensors_output = None.
Proof.
  intros Hone Hfeeds. unfold Beam.build_feeds in Hfeeds. rewrite Hone in Hfeeds.
  apply bind_Ok_inv in Hfeeds as ([fed i] & Hloop & Hfeeds).
  apply bind_Ok_inv in Hfeeds as (fed2 & Hguard & Hfeeds).
  apply encoder_length_loop_one in Hloop as [Hfed Hi].
  - assert (fed2 = fed) as ->.
    { destruct Hi as [(Hnil & Hfed' & Hi)|Hi]; subst.
      - apply map_eq_nil in Hnil. destruct (0 <? t); [|by simplify_eq].
        destruct (output st); by simplify_eq.
      - cbn in Hguard. by simplify_eq. }
    intros f Hf.
    destruct (mapM_elem_of _ _ _ _ Hfeeds Hf) as ([f0 a] & Hin & Hf0).
    apply (attention_loop_keeps _ _ _ _ _ Hf0).
    apply Hfed. by apply elem_of_zip_l in Hin.
  - intros f Hf. by apply elem_of_nil in Hf.
  - intros f (state_ & -> & _)%list_elem_of_fmap.
    by rewrite !lookup_insert_ne, lookup_empty.
Qed.

(** *** The decoder returns a result *)

Lemma snoc_rows_length {A} (rows : list (list A)) (xs : list A) m :
  length xs = length rows →
  Forall (λ row, length row = m) rows →
  Forall (λ row, length row = S m) (zip_with (λ l x, l ++ [x]) rows xs).
Proof.
  revert xs. induction rows as [|row rows IH]; intros [|x xs] Hlen Hrows; try done.
  apply Forall_cons in Hrows as [Hrow Hrows]. cbn. constructor.
  - rewrite length_app, Hrow. cbn. lia.
  - apply IH; [by simplify_eq/=|done].
Qed.

Lemma mapM_getitem_total {A} (rows : list (list A)) i m :
  Forall (λ row, length row = m) rows → i < m →
  ∃ xs, mapM (λ row : list A, Py.getitem row i) rows = Ok xs ∧ length xs = length rows.
Proof.
  intros Hrows Hi.
  destruct (mapM_total (λ row : list A, Py.getitem row i) rows) as [xs Hxs].
  { intros row Hrow. rewrite Forall_forall in Hrows.
    apply getitem_total. rewrite (Hrows row Hrow). done. }
  exists xs. split; [done|]. by eapply mapM_length.
Qed.

Lemma candidate_step_total n hyps scores_ (ds : list (list State))
    (out : list (list Output)) (c : candidates) flat_id hyp_id token_id :
  flat_id < length scores_ → hyp_id < length hyps →
  length ds = n → length out = n →
  Forall (λ row, length row = length hyps) ds →
  Forall (λ row, length row = length hyps) out →
  candidates_shaped n c →
  ∃ c', candidate_step EOS_ID hyps scores_ ds out c (flat_id, (hyp_id, token_id)) = Ok c' ∧
        candidates_shaped n c'.
Proof.
  intros Hflat Hhyp Hds Hout Hdrows Horows (Hs & Hi & Hn & Hrows & Hf).
  destruct (getitem_total hyps hyp_id Hhyp) as [h Hh].
  destruct (getitem_total scores_ flat_id Hflat) as [score Hscore].
  unfold candidate_step. rewrite Hh, Hscore. cbn [mbind result_bind].
  destruct (decide (Z.of_nat token_id = EOS_ID)) as [Heos|Heos].
  - eexists. split; [done|].
    split_and!; cbn; try done. rewrite !length_app, Hf. done.
  - destruct (mapM_getitem_total ds hyp_id _ Hdrows Hhyp) as (states & -> & Hls).
    destruct (mapM_getitem_total out hyp_id _ Horows Hhyp) as (outputs & -> & Hlo).
    cbn [mbind result_bind]. eexists. split; [done|].
    split_and!; cbn.
    + rewrite !length_app, Hs. done.
    + rewrite !length_app, Hi. done.
    + rewrite length_zip_with. lia.
    + rewrite length_app. cbn. rewrite Nat.add_1_r.
      apply snoc_rows_length; [lia|done].
    + done.
Qed.

Lemma candidates_total n hyps scores_ (ds : list (list State)) (out : list (list Output)) xs :
  ∀ c : candidates,
  Forall (λ x : nat * (nat * nat), x.1 < length scores_ ∧ x.2.1 < length hyps) xs →
  length ds = n → length out = n →
  Forall (λ row, length row = length hyps) ds →
  Forall (λ row, length row = length hyps) out →
  candidates_shaped n c →
  ∃ c', foldM (candidate_step EOS_ID hyps scores_ ds out) c xs = Ok c' ∧
        candidates_shaped n c'.
Proof.
  induction xs as [|[flat_id [hyp_id token_id]] xs IH];
    intros c Hxs Hds Hout Hdrows Horows Hc.
  - by exists c.
  - apply Forall_cons in Hxs as [[Hflat Hhyp] Hxs]. cbn in Hflat, Hhyp.
    destruct (candidate_step_total n hyps scores_ ds out c flat_id hyp_id token_id)
      as (c1 & Hc1 & Hshape); try done.
    cbn [foldM]. rewrite Hc1. cbn [mbind result_bind]. by apply IH.
Qed.

Lemma encoder_length_loop_total el len (feeds : list feed) : ∀ (fed : list feed) i0,
  Py.getitem el 0 = Ok len →
  foldM (λ '(fed, i) feed,
           '(feed, i) ←
             foldM (λ '(feed, _) i,
                      len ← Py.getitem el i;
                      Ok (<[encoder_input_length_ph i := V_lengths len]> feed, i))
                   (feed, i) [0];
           Ok (fed ++ [feed], i))
        (fed, i0) feeds
  = Ok (fed ++ map (λ feed, <[encoder_input_length_ph 0 := V_lengths len]> feed) feeds,
        if feeds is [] then i0 else 0).
Proof.
  induction feeds as [|f feeds IH]; intros fed i0 Hlen.
  - cbn. by rewrite app_nil_r.
  - specialize (IH (fed ++ [<[encoder_input_length_ph 0 := V_lengths len]> f]) 0 Hlen).
    cbn [foldM] in IH |- *. rewrite Hlen in IH |- *.
    cbn [mbind result_bind] in IH |- *. rewrite IH.
    cbn. rewrite <- (assoc_L (++)). by destruct feeds.
Qed.

Lemma build_feeds_total self el (attn : list (list Attn)) t (st : beam) :
  encoder_count self = 1 → length el = 1 →
  Forall (λ a, length a = 1) attn → state st ≠ [] →
  ∃ feeds : list feed,
    build_feeds self el attn t st = Ok feeds ∧
    length feeds = Nat.min (length (state st)) (length attn).
Proof.
  intros Hone Hel Hattn Hst. unfold Beam.build_feeds. rewrite Hone.
  destruct (getitem_total el 0) as [len Hlen]; [lia|].
  change (seq 0 1) with [0].
  rewrite (encoder_length_loop_total el len) by done.
  cbn [mbind result_bind app].
  destruct (state st) as [|s0 ss] eqn:Hstate; [done|]. cbn [map].
  cbn [Nat.ltb Nat.leb mbind result_bind].
  match goal with
  | |- ∃ feeds, mapM ?f ?l = Ok feeds ∧ _ =>
      destruct (mapM_total f l) as [feeds Hfeeds]
  end.
  { intros [f a] Hin. apply elem_of_zip_r in Hin.
    rewrite Forall_forall in Hattn. specialize (Hattn a Hin).
    destruct (getitem_total a 0) as [x Hx]; [lia|].
    cbn [foldM]. rewrite Hx. cbn. eauto. }
  exists feeds. split; [done|].
  rewrite (mapM_length _ _ _ Hfeeds), length_zip_with.
  cbn [length]. by rewrite !length_map.
Qed.

Lemma length_mjoin_uniform {A} (rows : list (list A)) m :
  Forall (λ row, length row = m) rows → length (mjoin rows) = length rows * m.
Proof.
  induction 1 as [|row rows Hrow _ IH]; [done|].
  change (mjoin (row :: rows)) with (row ++ mjoin rows).
  rewrite length_app, IH, Hrow. cbn. lia.
Qed.

Lemma lm_scores_total self ng (hyps : list (list Z)) :
  ng ≠ [] →
  ∃ lm, lm_scores BOS_ID estimate_lm_score self ng hyps = Ok lm ∧
        length lm = length hyps ∧
        Forall (λ row, length row = trg_vocab_size self) lm.
Proof.
  intros Hng. unfold Beam.lm_scores.
  destruct ng as [|unigrams ng]; [done|].
  match goal with
  | |- ∃ lm, mapM ?f ?l = Ok lm ∧ _ => destruct (mapM_total f l) as [lm Hlm]
  end.
  { intros h _. apply mapM_total. intros token_id _. cbn.
    destruct (decide _); [eauto|]. destruct (decide _); eauto. }
  exists lm. split; [done|]. split; [by eapply mapM_length|].
  apply mapM_Forall2 in Hlm. clear -Hlm.
  induction Hlm as [|h row hyps lm Hrow _ IH]; constructor; [|done].
  apply mapM_length in Hrow. by rewrite Hrow, length_seq.
Qed.

Lemma step_scores_total self n ngrams (hyps : list (list Z)) (scores : list num)
    (decoder_output : list (list (nat → num))) :
  length hyps = length scores →
  Forall (λ rows, length rows = length scores) decoder_output →
  (∀ ng, ngrams = Some ng → ng ≠ []) →
  ∃ scores_,
    step_scores BOS_ID estimate_lm_score self n ngrams hyps scores decoder_output
    = Ok scores_ ∧
    length scores_ = length scores * trg_vocab_size self.
Proof.
  intros Hhyps Hrows Hng. unfold Beam.step_scores.
  assert (∃ lm_score weights,
    (match ngrams with
     | Some ngrams =>
         lm_score ← lm_scores BOS_ID estimate_lm_score self ngrams hyps;
         Ok (Some lm_score,
             Some (replicate n
                     (fdiv (fsub (of_Q 1)
                              (of_Q match lm_weight self with
                                    | Some w => if Qeq_bool w 0 then (2 # 10)%Q else w
                                    | None => (2 # 10)%Q
                                    end))
                           (of_nat n))
                   ++ [of_Q match lm_weight self with
                            | Some w => if Qeq_bool w 0 then (2 # 10)%Q else w
                            | None => (2 # 10)%Q
                            end]))
     | None => Ok (None, None)
     end) = Ok (lm_score, weights) ∧
    ∀ lm, lm_score = Some lm →
          length lm = length hyps ∧ Forall (λ row, length row = trg_vocab_size self) lm)
    as (lm_score & weights & -> & Hlm).
  { destruct ngrams as [ng|].
    - destruct (lm_scores_total self ng hyps) as (lm & -> & Hl & Hr); [by apply Hng|].
      cbn [mbind result_bind]. eexists _, _. split; [done|].
      intros lm' ?; by simplify_eq.
    - eexists _, _. split; [done|]. done. }
  cbn [mbind result_bind].
  match goal with
  | |- ∃ s, mapM ?f ?l ≫= _ = Ok s ∧ _ =>
      destruct (mapM_total f l) as [rows Hrows']
  end.
  { intros [h score] (i & y & Heq & Hi)%elem_of_lookup_imap. simplify_eq.
    apply lookup_lt_Some in Hi.
    destruct (mapM_getitem_total decoder_output i _ Hrows Hi) as (log_rows & -> & _).
    cbn [mbind result_bind].
    assert (∃ lm_row, match lm_score with
                      | Some lm_score => Py.getitem lm_score i
                      | None => Ok (replicate (trg_vocab_size self) (of_Q 0))
                      end = Ok lm_row ∧ length lm_row = trg_vocab_size self)
      as (lm_row & -> & Hlrow).
    { destruct lm_score as [lm|].
      - destruct (Hlm lm eq_refl) as [Hl Hr].
        destruct (getitem_total lm i) as [row Hrow]; [lia|].
        exists row. split; [done|]. rewrite Forall_forall in Hr. apply Hr.
        by eapply getitem_elem_of.
      - eexists. split; [done|]. by rewrite length_replicate. }
    cbn [mbind result_bind]. apply mapM_total.
    intros t' Ht%elem_of_seq.
    destruct (getitem_total lm_row t') as [x ->]; [lia|]. cbn. eauto. }
  exists (mjoin rows). rewrite Hrows'. split; [done|].
  rewrite (length_mjoin_uniform rows (trg_vocab_size self)).
  - by rewrite (mapM_length _ _ _ Hrows'), length_imap.
  - apply mapM_Forall2 in Hrows'. clear -Hrows'.
    induction Hrows' as [|[h score] row l rows Hrow _ IH]; constructor; [|done].
    cbn in Hrow. apply bind_Ok_inv in Hrow as (log_rows & _ & Hrow).
    apply bind_Ok_inv in Hrow as (lm_row & _ & Hrow).
    apply mapM_length in Hrow. by rewrite Hrow, length_seq.
Qed.

Lemma flat_ids_bound (scores_ : list num) (b : Z) :
  Forall (λ flat_id, flat_id < length scores_) (Py.slice_to (argsort scores_) b).
Proof.
  apply Forall_forall. intros x Hx.
  assert (x ∈ argsort scores_) as Hin.
  { unfold Py.slice_to in Hx. destruct (0 <=? b)%Z; by apply subseteq_take in Hx. }
  rewrite argsort_perm in Hin. apply elem_of_seq in Hin. lia.
Qed.

Lemma candidate_ids_bound (flat_ids : list nat) V m :
  Forall (λ flat_id, flat_id < m * V) flat_ids →
  Forall (λ x : nat * (nat * nat), x.1 < m * V ∧ x.2.1 < m)
    (zip flat_ids
       (zip (map (λ flat_id, flat_id / V) flat_ids)
            (map (λ flat_id, flat_id mod V) flat_ids))).
Proof.
  induction 1 as [|flat_id flat_ids Hflat _ IH]; cbn; constructor; [|done].
  cbn. split; [done|]. apply Nat.Div0.div_lt_upper_bound. lia.
Qed.

Lemma decoder_runs_shape {A} (proj : Output * (nat → num) * State → A)
    (sessions : list session) (feeds : list feed) batch_size m :
  length feeds = length sessions → batch_size = m →
  let res := zip_with (λ session_ input_feed_,
                         map (run_decoder session_ input_feed_) (seq 0 batch_size))
                      sessions feeds in
  length (map (map proj) res) = length sessions ∧
  Forall (λ row, length row = m) (map (map proj) res).
Proof.
  intros Hlen <- res. subst res. split.
  - rewrite length_map, length_zip_with. lia.
  - apply Forall_forall. intros row (r & -> & Hr)%list_elem_of_fmap.
    apply elem_of_lookup_zip_with in Hr as (i & s_ & f & -> & _ & _).
    by rewrite !length_map, length_seq.
Qed.

(** With one encoder, at least one session and a language model with
    at least one order (or none), an iteration of the loop raises no
    error on a loop state whose arrays have matching shapes, and it
    leaves such a state. *)
Lemma beam_step_total self (sessions : list session) ngrams el
    (attn : list (list Attn)) t (st : beam) :
  encoder_count self = 1 → length el = 1 → sessions ≠ [] →
  length attn = length sessions → Forall (λ a, length a = 1) attn →
  (∀ ng, ngrams = Some ng → ng ≠ []) →
  well_shaped (length sessions) st →
  ∃ st' : beam,
    beam_step self sessions ngrams el attn t st = Ok st' ∧
    well_shaped (length sessions) st'.
Proof.
  intros Hone Hel Hsess Hattn Hattn1 Hng (Hsc & Hdi & Hstl & Hstrows & Hfin).
  unfold Beam.beam_step.
  destruct (build_feeds_total self el attn t st) as (feeds & -> & Hfeeds); try done.
  { intros Hnil. rewrite Hnil in Hstl. by destruct sessions. }
  assert (length feeds = length sessions) as Hfl by lia.
  cbn [mbind result_bind].
  destruct (decoder_runs_shape (λ r, r.1.1) sessions feeds _ _ Hfl Hdi)
    as [Hout Houtrows].
  destruct (decoder_runs_shape (λ r, r.1.2) sessions feeds _ _ Hfl Hdi)
    as [_ Hdorows].
  destruct (decoder_runs_shape (λ r, r.2) sessions feeds _ _ Hfl Hdi)
    as [Hds Hdsrows].
  cbn zeta in Hout, Houtrows, Hdorows, Hds, Hdsrows.
  match goal with
  | |- ∃ st', step_scores _ _ _ ?n _ _ _ ?dout ≫= _ = _ ∧ _ =>
      destruct (step_scores_total self n ngrams (hypotheses st) (scores st) dout)
        as (scores_ & -> & Hlen_)
  end; [done|by rewrite Hsc|done|].
  cbn [mbind result_bind].
  match goal with
  | |- ∃ st', foldM (candidate_step _ ?hyps _ ?ds ?out) ?c ?xs ≫= _ = _ ∧ _ =>
      destruct (candidates_total (length sessions) hyps scores_ ds out xs c)
        as (c' & -> & Hc')
  end; try done.
  { rewrite Hlen_, <- Hsc. apply candidate_ids_bound.
    rewrite <- Hlen_. apply flat_ids_bound. }
  { unfold Beam.candidates_shaped. cbn. rewrite length_map.
    split_and!; try done. apply Forall_forall.
    by intros row (? & -> & _)%list_elem_of_fmap. }
  cbn [mbind result_bind]. eexists. split; [done|]. exact Hc'.
Qed.

(** The loop raises no error from such a state, and the state it ends
    in has matching shapes. *)
Lemma beam_loop_total self (sessions : list session) ngrams el
    (attn : list (list Attn)) ts :
  encoder_count self = 1 → length el = 1 → sessions ≠ [] →
  length attn = length sessions → Forall (λ a, length a = 1) attn →
  (∀ ng, ngrams = Some ng → ng ≠ []) →
  ∀ st : beam,
  well_shaped (length sessions) st →
  ∃ st' : beam,
    beam_loop (beam_step self sessions ngrams el attn) ts st = Ok st' ∧
    well_shaped (length sessions) st'.
Proof.
  intros Hone Hel Hsess Hattn Hattn1 Hng.
  induction ts as [|t ts IH]; intros st Hst; [by exists st|].
  destruct (beam_step_total self sessions ngrams el attn t st) as (st1 & Hst1 & Hshape);
    try done.
  cbn [beam_loop]. rewrite Hst1. cbn [mbind result_bind].
  destruct (beam_size st1 <=? 0)%Z; [by exists st1|by apply IH].
Qed.

(** With one encoder, one source sentence, at least one session and
    [max_output_len >= 1] the code before the loop raises no error and
    hands the loop a state with matching shapes. *)
Lemma beam_init_total self (sessions : list session) token_ids B :
  encoder_count self = 1 → length token_ids = 1 → sessions ≠ [] →
  1 ≤ max_output_len self →
  ∃ el (attn : list (list Attn)) (st0 : beam),
    beam_init BOS_ID EOS_ID self sessions token_ids B = Ok (el, attn, st0) ∧
    length el = 1 ∧ length attn = length sessions ∧
    Forall (λ a, length a = 1) attn ∧
    well_shaped (length sessions) st0.
Proof.
  intros Hone Hlen Hsess Hmax. unfold Beam.beam_init.
  destruct (BatchFacts.get_batch_closed_form BOS_ID EOS_ID self [token_ids ++ [[]]] true)
    as (b & Hb & Hei & Hel & _).
  { split; [done|]. repeat constructor. rewrite length_app. cbn. lia. }
  destruct (BatchFacts.get_batch_decoding_single BOS_ID EOS_ID self token_ids)
    as (b' & Hb' & Hdi & _); [lia|].
  rewrite Hb in Hb'. injection Hb' as <-. rewrite Hb.
  cbn [mbind result_bind]. rewrite Hone in *. change (seq 0 1) with [0].
  destruct (getitem_total (encoder_input_length b) 0) as [len Hlen0]; [lia|].
  destruct (getitem_total (batch_encoder_inputs b) 0) as [inp Hinp]; [lia|].
  cbn [foldM]. rewrite Hlen0. cbn [mbind result_bind]. rewrite Hinp.
  cbn [mbind result_bind mret result_ret].
  destruct (decide (sessions = [])); [done|].
  destruct (max_output_len self) as [|k]; [lia|].
  rewrite Hdi. cbn [app replicate removelast map Py.getitem lookup list_lookup].
  cbn [mbind result_bind].
  eexists _, _, _. split; [done|]. split; [done|].
  split; [by rewrite !length_map|]. split.
  - apply Forall_forall. intros a (? & -> & (s_ & -> & _)%list_elem_of_fmap)%list_elem_of_fmap.
    done.
  - unfold Beam.well_shaped. cbn.
    split_and!; try done.
    + by rewrite length_zip_with, !length_map, Nat.min_id.
    + apply Forall_forall. intros row Hrow.
      apply elem_of_lookup_zip_with in Hrow as (i & s_ & e & -> & _ & _). done.
Qed.

(** Beam search returns: with one encoder, one source sentence, at
    least one session, [max_output_len >= 1] and a language model
    with at least one order (or none), [beam_search_decoding] raises
    no error. *)
Lemma beam_search_returns self (sessions : list session) token_ids B ngrams :
  encoder_count self = 1 → length token_ids = 1 → sessions ≠ [] →
  1 ≤ max_output_len self →
  (∀ ng, ngrams = Some ng → ng ≠ []) →
  ∃ hyps scores,
    beam_search_decoding BOS_ID EOS_ID estimate_lm_score self sessions token_ids B ngrams
    = Ok (hyps, scores).
Proof.
  intros Hone Hlen Hsess Hmax Hng. unfold Beam.beam_search_decoding.
  destruct (beam_init_total self sessions token_ids B)
    as (el & attn & st0 & -> & Hel & Hattn & Hattn1 & Hst0); try done.
  cbn [mbind result_bind].
  destruct (beam_loop_total self sessions ngrams el attn (seq 0 (max_output_len self))
              Hone Hel Hsess Hattn Hattn1 Hng st0 Hst0)
    as (st & -> & (Hsc & _ & _ & _ & Hfin)).
  cbn [mbind result_bind].
  set (hyps := hypotheses st ++ finished_hypotheses st).
  set (scores_ := if Qle_bool (len_normalization self) 0 then _ else _).
  assert (length scores_ = length hyps) as Hlen_.
  { subst scores_ hyps. destruct (Qle_bool _ _).
    - rewrite !length_app. lia.
    - rewrite length_zip_with, !length_app. lia. }
  assert (∀ i, i ∈ argsort scores_ → i < length scores_) as Hidx.
  { intros i Hi. rewrite argsort_perm in Hi. apply elem_of_seq in Hi. lia. }
  destruct (mapM_total (Py.getitem hyps) (argsort scores_)) as [hs ->].
  { intros i Hi. apply getitem_total. rewrite <- Hlen_. by apply Hidx. }
  destruct (mapM_total (Py.getitem scores_) (argsort scores_)) as [ss ->].
  { intros i Hi. apply getitem_total. by apply Hidx. }
  by exists hs, ss.
Qed.

(** Under the same conditions the loop state exists after any number
    of iterations. *)
Lemma beam_at_total self (sessions : list session) token_ids B ngrams t :
  encoder_count self = 1 → length token_ids = 1 → sessions ≠ [] →
  1 ≤ max_output_len self →
  (∀ ng, ngrams = Some ng → ng ≠ []) →
  ∃ st : beam,
    beam_at BOS_ID EOS_ID estimate_lm_score self sessions token_ids B ngrams t = Ok st.
Proof.
  intros Hone Hlen Hsess Hmax Hng. unfold Beam.beam_at.
  destruct (beam_init_total self sessions token_ids B)
    as (el & attn & st0 & -> & Hel & Hattn & Hattn1 & Hst0); try done.
  cbn [mbind result_bind].
  assert (∃ st : beam,
            state_after (beam_step self sessions ngrams el attn) st0 t = Ok st ∧
            well_shaped (length sessions) st) as (st & Hst & _); [|by exists st].
  induction t as [|t (st & Hst & Hshape)]; [by exists st0|].
  destruct (beam_step_total self sessions ngrams el attn t st) as (st' & Hst' & Hshape');
    try done.
  exists st'. split; [|done]. cbn [state_after]. by rewrite Hst.
Qed.

End facts.

(** [beam_search_invariant] at a width of 2 over a two-token vocabulary. *)
Lemma beam_search_invariant_witness :
  (1 ≤ 2)%Z ∧
  ∀ t st,
    Beam.beam_at 2 1 (λ _ _, EReal.NaN) two_token_model [fair_session] [[Tok 3; Tok 4]] 2 None t
    = Ok st →
    (Z.of_nat (length (Beam.finished_hypotheses st) + length (Beam.hypotheses st)) ≤ 2)%Z ∧
    Beam.beam_size st = (2 - Z.of_nat (length (Beam.finished_hypotheses st)))%Z.
Proof.
  split; [lia|].
  exact (proj1 (beam_search_invariant 2 1 (λ _ _, EReal.NaN) two_token_model
                  [fair_session] [[Tok 3; Tok 4]] 2 None ltac:(lia))).
Defined.

(** [single_encoder_never_feeds_output] at time step 3, with the outputs
    of the previous step at hand. *)
Lemma single_encoder_never_feeds_output_witness :
  encoder_count short_model = 1 ∧
  ∃ feeds : list (gmap tensor (@Beam.value nat nat nat nat)),
    Beam.build_feeds short_model [[3]] [[9]] 3 later_beam = Ok feeds ∧
    ∀ f, f ∈ feeds → f !! beam_tensors_output = None.
Proof.
  split; [reflexivity|]. eexists. split; [vm_compute; reflexivity|].
  apply (single_encoder_never_feeds_output short_model [[3]] [[9]] 3 later_beam);
    [reflexivity|vm_compute; reflexivity].
Defined.

End BeamFacts.

(** ** Scoring of one beam-search step on ideal floats *)

Module ScoreFacts.
Import EReal Beam.
Local Open Scope R_scope.

Lemma Rsign_pos r : 0 < r → Rsign r = Gt.
Proof.
  intros Hr. unfold Rsign. destruct (Rlt_dec r 0); [lra|].
  destruct (Rlt_dec 0 r); [done|lra].
Qed.

Lemma ln_half : ln (1 / 2) = - ln 2.
Proof. replace (1 / 2) with (/ 2) by lra. apply ln_Rinv. lra. Qed.

Lemma ln_2_pos : 0 < ln 2.
Proof. rewrite <- ln_1. apply ln_increasing; lra. Qed.

(** C2 (failing input).  One model, no language model, the empty
    hypothesis with score 0 and a uniform distribution over two
    tokens: the code scores each candidate [ln 2 / 2], the average
    being taken over the model's log-probabilities and a row of
    zeros, while the accumulated score minus the plain average of the
    model's log-probabilities is [ln 2]. *)
Theorem no_lm_average_counts_zero_row :
  step_scores 2 (λ _ _, NaN) two_token_model 1 None [[]] [of_Q 0]
    [[λ _ : nat, Finite (1 / 2)]]
  = Ok [Finite (ln 2 / 2); Finite (ln 2 / 2)] ∧
  spec_candidate_score (of_Q 0) [Finite (1 / 2)] = Finite (ln 2) ∧
  Finite (ln 2 / 2) ≠ Finite (ln 2).
Proof.
  assert (Q2R 0 = 0) as HQ0 by (unfold Q2R; cbn; lra).
  assert (Rsign (1 / 2) = Gt) as Hs by (apply Rsign_pos; lra).
  split_and!.
  - unfold step_scores. cbn. unfold elog. rewrite Hs.
    cbn. rewrite (Rsign_pos (1 + 1)) by lra.
    rewrite HQ0, ln_half. do 3 f_equal; [|f_equal]; f_equal; lra.
  - unfold spec_candidate_score. cbn. unfold elog. rewrite Hs.
    cbn. rewrite (Rsign_pos 1) by lra.
    rewrite HQ0, ln_half. f_equal. lra.
  - intros Heq. injection Heq as Heq. pose proof ln_2_pos. lra.
Qed.

End ScoreFacts.

(** ** Graph construction *)

Module GraphFacts.
Section facts.

Context {Tensor : Type}.
Context (encoder_rnn : encoder_config → option Tensor → Tensor → Tensor → Tensor).
Context (first_backward_annotation : nat → Tensor → Tensor).
Context (last_annotation : Tensor → Tensor).
Context (concat : list Tensor → Tensor).
Context (decoder_loop :
  decoder_config → list encoder_config → Tensor → list Tensor → Tensor →
  list Tensor → option Tensor → Graph.decoder_graph (Tensor:=Tensor)).

Abbreviation multi_encoder :=
  (Graph.multi_encoder encoder_rnn first_backward_annotation last_annotation concat).
Abbreviation spec_multi_encoder :=
  (Graph.spec_multi_encoder encoder_rnn first_backward_annotation last_annotation concat).
Abbreviation init :=
  (Graph.init encoder_rnn first_backward_annotation last_annotation concat decoder_loop).

(** The loop of [multi_encoder] returns in its first iteration: for a
    non-empty list of encoders the result holds the outputs and the
    state of the first encoder only. *)
Lemma multi_encoder_first_only x xs e es l ls dropout :
  length xs = length es →
  multi_encoder (x :: xs) (e :: es) (l :: ls) dropout
  = Ok (Some (spec_multi_encoder [x] [e] [l] dropout)).
Proof.
  intros Hlen. unfold Graph.multi_encoder, Graph.spec_multi_encoder. cbn.
  rewrite Hlen, Nat.eqb_refl. done.
Qed.

(** C4 (failing input).  With two encoders [multi_encoder] returns one
    hidden-state tensor and the final state of the first encoder
    alone, where its docstring promises two tensors and the
    concatenation of both final states. *)
Theorem multi_encoder_two_encoders x1 x2 e1 e2 l1 l2 dropout :
  ∃ outputs state,
    multi_encoder [x1; x2] [e1; e2] [l1; l2] dropout = Ok (Some (outputs, state)) ∧
    length outputs = 1 ∧
    (outputs, state) = spec_multi_encoder [x1] [e1] [l1] dropout ∧
    length (spec_multi_encoder [x1; x2] [e1; e2] [l1; l2] dropout).1 = 2.
Proof.
  eexists _, _. split; [by apply multi_encoder_first_only|]. done.
Qed.

(** With a single encoder the loop and the docstring agree. *)
Lemma multi_encoder_one_encoder x e l dropout :
  multi_encoder [x] [e] [l] dropout = Ok (Some (spec_multi_encoder [x] [e] [l] dropout)).
Proof. by apply multi_encoder_first_only. Qed.

(** C5.  With attention enabled the constructor raises: whatever
    [multi_encoder] returns, [attention_decoder] either fails (its
    assertion, or the building of local attention without filters) or
    returns five values, which do not unpack into four. *)
Theorem init_raises_with_attention encoders decoder_cfg dropout ph :
  raises (init encoders decoder_cfg dropout true ph).
Proof.
  unfold raises, Graph.init.
  destruct (Graph.multi_encoder _ _ _ _ _ _ _ _) as [[[attn st]|]|e]; cbn; eauto.
  unfold Graph.attention_decoder.
  destruct (negb _); cbn; eauto.
  destruct (mapM _ _); cbn; eauto.
Qed.

(** When the encoder is built, the cell size is even and the encoder
    has global attention, or local attention with filters, the
    exception is the [ValueError] of the four-name unpacking. *)
Lemma init_value_error x e l ph decoder_cfg dropout :
  Graph.p_encoder_inputs ph = [x] → Graph.p_encoder_input_length ph = [l] →
  dec_cell_size decoder_cfg mod 2 = 0 →
  attention_window_size e = 0 ∨ 0 < attention_filters e →
  init [e] decoder_cfg dropout true ph = Raise ValueError.
Proof.
  intros Hx Hl Heven Hattn.
  assert (Graph.build_attention e = Ok tt) as Hbuild.
  { unfold Graph.build_attention. destruct Hattn as [-> | Hf]; [done|].
    destruct (Nat.ltb_spec 0 (attention_filters e)); [|lia].
    by destruct (0 <? attention_window_size e). }
  unfold Graph.init. rewrite Hx, Hl, multi_encoder_one_encoder.
  cbn -[Graph.build_attention].
  unfold Graph.attention_decoder. rewrite Heven.
  cbn -[Graph.build_attention]. by rewrite Hbuild.
Qed.

(** With local attention and no attention filters the exception is the
    [TypeError] of [compute_energy], called without [attn_size]. *)
Lemma init_type_error x e l ph decoder_cfg dropout :
  Graph.p_encoder_inputs ph = [x] → Graph.p_encoder_input_length ph = [l] →
  dec_cell_size decoder_cfg mod 2 = 0 →
  0 < attention_window_size e → attention_filters e = 0 →
  init [e] decoder_cfg dropout true ph = Raise TypeError.
Proof.
  intros Hx Hl Heven Hw Hf.
  assert (Graph.build_attention e = Raise TypeError) as Hbuild.
  { unfold Graph.build_attention. rewrite Hf.
    by destruct (Nat.ltb_spec 0 (attention_window_size e)); [|lia]. }
  unfold Graph.init. rewrite Hx, Hl, multi_encoder_one_encoder.
  cbn -[Graph.build_attention].
  unfold Graph.attention_decoder. rewrite Heven.
  cbn -[Graph.build_attention]. by rewrite Hbuild.
Qed.

End facts.
End GraphFacts.

(** ** The decoder loop *)

Module DecoderFacts.
Section facts.

Context {Enc State Emb Ctx Weights Hidden Logits Output : Type}.
Context (encode : list (list (list item)) → list (list nat) → Enc).
Context (initial_state_projection : Enc → State).
Context (initial_weights : Enc → Weights).
Context (embed : item → Emb).
Context (attention_ : Enc → State → Weights → Ctx * Weights).
Context (maxout : State → Emb → Ctx → Hidden).
Context (softmax1 : Hidden → Logits).
Context (argmax : Logits → nat).
Context (multinomial : Logits → nat → nat).
Context (cell : Emb → Ctx → State → Output * State).
Context (zero_output : Output).
Context (BOS_ID EOS_ID : Z).

Import Decoder.
Abbreviation loop_vars := (@Decoder.loop_vars State Emb Weights Hidden Logits Output).
Abbreviation _time_step :=
  (Decoder._time_step embed attention_ maxout softmax1 argmax multinomial cell zero_output).
Abbreviation advance :=
  (Decoder.advance embed attention_ maxout softmax1 cell zero_output).
Abbreviation logits_of := (Decoder.logits_of attention_ maxout softmax1).

Lemma time_step_eq enc inputs time_steps seq fp fa rand noise (v : loop_vars) :
  _time_step enc inputs time_steps seq fp fa rand noise v
  = sample ←
      (if (Z.of_nat (time v) <? Z.of_nat time_steps - 1)%Z && Qle_bool fp (rand (time v))
       then Py.getitem inputs (time v + 1)
       else if negb fa
            then Ok (Tok (Z.of_nat (multinomial (logits_of enc v) (noise (time v)))))
            else Ok (Tok (Z.of_nat (argmax (logits_of enc v)))));
    Ok (advance enc seq sample v).
Proof.
  unfold Decoder._time_step, Decoder.advance, Decoder.logits_of.
  destruct (attention_ enc (state v) (prev_weights v)) as [ctx w]. cbn.
  destruct (if _ && _ then _ else _) as [sample|]; [|done]. cbn.
  destruct seq as [n|]; [destruct (n <=? time v)|]; cbn;
    try done; by destruct (cell _ _ _).
Qed.

(** With [feed_previous = 1.0] the step feeds back its own argmax. *)
Lemma time_step_greedy enc inputs time_steps seq rand noise (v : loop_vars) :
  uniform rand →
  _time_step enc inputs time_steps seq 1%Q true rand noise v
  = Ok (advance enc seq (Tok (Z.of_nat (argmax (logits_of enc v)))) v).
Proof.
  intros Hu. rewrite time_step_eq.
  assert (Qle_bool 1 (rand (time v)) = false) as ->.
  { destruct (Qle_bool 1 (rand (time v))) eqn:Hle; [|done].
    apply Qle_bool_iff in Hle. destruct (Hu (time v)) as [_ Hlt].
    exfalso. by apply (Qlt_not_le _ _ Hlt). }
  by rewrite andb_false_r.
Qed.

(** With [feed_previous = 0.0] the step feeds the next ground-truth
    token, except at the last step. *)
Lemma time_step_teacher enc inputs time_steps seq rand noise (v : loop_vars) x :
  uniform rand →
  time v + 1 < time_steps →
  inputs !! (time v + 1) = Some x →
  _time_step enc inputs time_steps seq 0%Q true rand noise v
  = Ok (advance enc seq x v).
Proof.
  intros Hu Ht Hx. rewrite time_step_eq.
  assert (Qle_bool 0 (rand (time v)) = true) as ->.
  { apply Qle_bool_iff. by destruct (Hu (time v)). }
  destruct (Z.ltb_spec (Z.of_nat (time v)) (Z.of_nat time_steps - 1)); [|lia].
  cbn. unfold Py.getitem. by rewrite Hx.
Qed.

Lemma time_step_last enc inputs time_steps seq fp rand noise (v : loop_vars) :
  time_steps ≤ time v + 1 →
  _time_step enc inputs time_steps seq fp true rand noise v
  = Ok (advance enc seq (Tok (Z.of_nat (argmax (logits_of enc v)))) v).
Proof.
  intros Ht. rewrite time_step_eq.
  destruct (Z.ltb_spec (Z.of_nat (time v)) (Z.of_nat time_steps - 1)); [lia|done].
Qed.

Lemma advance_seq enc s1 s2 x (v : loop_vars) :
  time v < s1 → time v < s2 →
  advance enc (Some s1) x v = advance enc (Some s2) x v.
Proof.
  intros H1 H2. unfold Decoder.advance.
  destruct (Nat.leb_spec s1 (time v)); [lia|].
  destruct (Nat.leb_spec s2 (time v)); [lia|]. done.
Qed.

Lemma steps_S (body : loop_vars → result loop_vars) k v :
  steps body (S k) v = v' ← steps body k v; body v'.
Proof. done. Qed.

Lemma steps_front (body : loop_vars → result loop_vars) k v :
  steps body (S k) v = v' ← body v; steps body k v'.
Proof.
  induction k as [|k IH]; cbn.
  - by destruct (body v).
  - cbn in IH. rewrite IH. destruct (body v); [done|done].
Qed.

Lemma while_loop_steps (body : loop_vars → result loop_vars) time_steps :
  (∀ v v', body v = Ok v' → time v' = time v + 1) →
  ∀ fuel v, time v + fuel = time_steps →
  while_loop body time_steps fuel v = steps body fuel v.
Proof.
  intros Hbody. induction fuel as [|fuel IH]; intros v Ht; [done|].
  rewrite steps_front. cbn [while_loop].
  destruct (Nat.ltb_spec (time v) time_steps); [|lia].
  destruct (body v) as [v'|] eqn:Hv; [|done]. cbn.
  apply IH. rewrite (Hbody _ _ Hv). lia.
Qed.

Lemma time_step_time enc inputs time_steps seq fp fa rand noise (v v' : loop_vars) :
  _time_step enc inputs time_steps seq fp fa rand noise v = Ok v' →
  time v' = time v + 1 ∧ proj_outputs v' = proj_outputs v ++ [logits_of enc v].
Proof.
  rewrite time_step_eq. intros (x & _ & Hv)%bind_Ok_inv. by simplify_eq.
Qed.

(** While the greedy run is in progress, the teacher-forced run fed
    with the greedy tokens goes through the same loop variables. *)
Lemma steps_agree enc inputs_g inputs_t T T' sg st rand rand' noise noise'
    (v0 : loop_vars) :
  uniform rand → uniform rand' →
  time v0 = 0 → proj_outputs v0 = [] →
  T ≤ sg → T ≤ st → T < T' →
  ∀ k (vk : loop_vars), k ≤ T →
    steps (_time_step enc inputs_g T (Some sg) 1%Q true rand noise) k v0 = Ok vk →
    (∀ j l, proj_outputs vk !! j = Some l →
            inputs_t !! (j + 1) = Some (Tok (Z.of_nat (argmax l)))) →
    steps (_time_step enc inputs_t T' (Some st) 0%Q true rand' noise') k v0 = Ok vk ∧
    time vk = k ∧ length (proj_outputs vk) = k.
Proof.
  intros Hu Hu' Ht0 Hp0 Hsg Hst HT.
  induction k as [|k IH]; intros vk Hk Hsteps Hfeed; cbn in Hsteps.
  - simplify_eq. split; [done|]. split; [done|]. by rewrite Hp0.
  - apply bind_Ok_inv in Hsteps as (v1 & Hsteps & Hbody).
    rewrite time_step_greedy in Hbody by done. simplify_eq.
    destruct (IH v1) as (Hsteps' & Htime & Hlen); [lia|done| |].
    { intros j l Hj. apply Hfeed. cbn. by apply lookup_app_l_Some. }
    cbn [steps]. rewrite Hsteps'. cbn.
    rewrite (time_step_teacher _ _ _ _ _ _ _ (Tok (Z.of_nat (argmax (logits_of enc v1)))));
      [|done|lia|].
    + rewrite (advance_seq enc st sg) by lia. split; [done|]. cbn.
      rewrite length_app. cbn. lia.
    + rewrite Htime. apply Hfeed. cbn.
      rewrite lookup_app_r by lia. by rewrite Hlen, Nat.sub_diag.
Qed.

Abbreviation greedy_decoding :=
  (Decoder.greedy_decoding encode initial_state_projection initial_weights embed
     attention_ maxout softmax1 argmax multinomial cell zero_output BOS_ID EOS_ID).
Abbreviation greedy_outputs :=
  (Decoder.greedy_outputs encode initial_state_projection initial_weights embed
     attention_ maxout softmax1 argmax multinomial cell zero_output BOS_ID EOS_ID).
Abbreviation teacher_forced_outputs :=
  (Decoder.teacher_forced_outputs encode initial_state_projection initial_weights embed
     attention_ maxout softmax1 argmax multinomial cell zero_output BOS_ID EOS_ID).

(** The round trip on the decoder loop, for a graph without dropout:
    if the run that feeds back its own argmax ([feed_previous = 1.0])
    yields the logits [logits], then the run that is given their
    argmax tokens as ground truth with [feed_previous = 0.0] computes,
    at every time step of the first run, the logits computed there.
    (The teacher-forced pass has one more step, for the end marker.) *)
Lemma decoder_round_trip self token_ids rand noise rand' noise' logits :
  length token_ids = encoder_count self →
  uniform rand → uniform rand' →
  greedy_outputs self token_ids rand noise = Ok logits →
  ∃ logits',
    teacher_forced_outputs self token_ids (map (λ l, Z.of_nat (argmax l)) logits)
      rand' noise' = Ok logits' ∧
    length logits = max_output_len self ∧
    length logits' = max_output_len self + 1 ∧
    ∀ t l, logits !! t = Some l → logits' !! t = Some l.
Proof.
  intros Hlen Hu Hu' Hout.
  unfold Decoder.greedy_outputs in Hout.
  destruct (BatchFacts.get_batch_decoding_single BOS_ID EOS_ID self token_ids Hlen)
    as (b & Hb & Hdi & Hdl).
  rewrite Hb in Hout. cbn [mbind result_bind] in Hout.
  unfold Decoder.run_outputs in Hout.
  rewrite Hdi, BatchFacts.column_single, Hdl in Hout.
  cbn [mbind result_bind Py.getitem lookup list_lookup] in Hout.
  apply bind_Ok_inv in Hout as (vT & Hdec & Hout). simplify_eq.
  unfold Decoder.attention_decoder in Hdec.
  apply bind_Ok_inv in Hdec as (first & Hfirst & Hloop).
  (* the dummy decoder inputs start with the begin marker *)
  destruct (max_output_len self) as [|M] eqn:HM; [done|].
  assert (map (λ x, if Batch.is_minus_one x then Tok EOS_ID else x)
            (removelast ([Tok BOS_ID] ++ replicate (S M) (Tok EOS_ID)))
          = (if (BOS_ID =? -1)%Z then Tok EOS_ID else Tok BOS_ID)
            :: replicate M (Tok EOS_ID)) as Hrow.
  { rewrite replicate_S_end, app_assoc, removelast_last. cbn. f_equal.
    rewrite BatchFacts.map_replicate. cbn. by destruct (Z.eqb_spec EOS_ID (-1)). }
  rewrite Hrow in Hfirst, Hloop, Hdi.
  cbn in Hfirst. simplify_eq.
  set (b0 := if (BOS_ID =? -1)%Z then Tok EOS_ID else Tok BOS_ID) in *.
  cbn [length] in Hloop. rewrite length_replicate in Hloop.
  rewrite while_loop_steps in Hloop; [| |done].
  2: { intros v v' Hv. by apply time_step_time in Hv as [? _]. }
  (* the batch of the teacher-forced pass *)
  set (tokens := map (λ l, Z.of_nat (argmax l)) (proj_outputs vT)).
  set (v0 := {| time := 0 |}) in *.
  destruct (steps_agree (encode (batch_encoder_inputs b) (encoder_input_length b))
              _ (b0 :: map Tok tokens) (S M) (S (S M)) (S M) (S M + 1)
              rand rand' noise noise' v0 Hu Hu' eq_refl eq_refl
              ltac:(lia) ltac:(lia) ltac:(lia) (S M) vT ltac:(lia) Hloop)
    as (Hsteps' & Htime & HlenT).
  { intros j l Hj. replace (j + 1) with (S j) by lia.
    change ((b0 :: map Tok tokens) !! S j) with ((Tok <$> tokens) !! j).
    unfold tokens. change (map ?f ?l) with (f <$> l).
    by rewrite !list_lookup_fmap, Hj. }
  destruct (BatchFacts.get_batch_teacher_single BOS_ID EOS_ID self token_ids tokens)
    as (b' & Hb' & Hdi' & Hdl'); [done| |  |].
  { unfold tokens. by rewrite length_map, HlenT. }
  { unfold tokens. apply Forall_forall. intros t (l & -> & _)%list_elem_of_fmap. lia. }
  destruct (BatchFacts.get_batch_same_sources _ _ _ _ _ _ _ _ _ _ Hlen Hb Hb')
    as [He1 He2].
  eexists. split_and!.
  - unfold Decoder.teacher_forced_outputs. fold tokens. rewrite Hb'.
    cbn [mbind result_bind]. unfold Decoder.run_outputs.
    rewrite Hdi', BatchFacts.column_single, Hdl'.
    cbn [mbind result_bind Py.getitem lookup list_lookup].
    unfold Decoder.attention_decoder.
    cbn [mbind result_bind Py.getitem lookup list_lookup length].
    rewrite length_map.
    replace (length tokens) with (S M) by (unfold tokens; by rewrite length_map, HlenT).
    rewrite <- He1, <- He2.
    rewrite while_loop_steps; [| |done].
    2: { intros v v' Hv. by apply time_step_time in Hv as [? _]. }
    rewrite HM. subst v0 b0. rewrite (steps_S _ (S M)), Hsteps'. cbn [mbind result_bind].
    rewrite time_step_last by lia. cbn. done.
  - done.
  - cbn. rewrite length_app. cbn. lia.
  - intros t l Ht. cbn. by apply lookup_app_l_Some.
Qed.


End facts.

(** [decoder_round_trip] on the toy decoder, whose greedy run selects
    the tokens [[1, 4, 1]]. *)
Lemma decoder_round_trip_toy :
  ∃ logits logits',
    Toy.greedy_outputs short_model [[Tok 3; Tok 4]] (λ _, 0%Q) (λ _, 0) = Ok logits ∧
    map (λ l, Z.of_nat (Toy.argmax l)) logits = [1; 4; 1]%Z ∧
    Toy.teacher_forced_outputs short_model [[Tok 3; Tok 4]] [1; 4; 1]%Z
      (λ _, (1 # 2)%Q) (λ _, 7) = Ok logits' ∧
    ∀ t l, logits !! t = Some l → logits' !! t = Some l.
Proof.
  assert (Decoder.uniform (λ _, 0%Q)) as H0
    by (intros t; split; [unfold Qle|unfold Qlt]; cbn; lia).
  assert (Decoder.uniform (λ _, (1 # 2)%Q)) as H1
    by (intros t; split; [unfold Qle|unfold Qlt]; cbn; lia).
  eexists. 
  destruct (decoder_round_trip Toy.encode (λ enc, enc) (λ _, 0) Toy.embed Toy.attention_
              Toy.maxout Toy.softmax1 Toy.argmax Toy.multinomial Toy.cell 0 2%Z 1%Z
              short_model [[Tok 3; Tok 4]] (λ _, 0%Q) (λ _, 0) (λ _, (1 # 2)%Q) (λ _, 7)
              _ eq_refl H0 H1 ltac:(vm_compute; reflexivity))
    as (logits' & Ht & _ & _ & Hsame).
  exists logits'. split; [vm_compute; reflexivity|]. split; [reflexivity|].
  split; [exact Ht|exact Hsame].
Qed.


End DecoderFacts.

(** ** Attention weights *)

Module AttentionFacts.
Import Attention.
Local Open Scope R_scope.

Lemma reduce_sum_cons x l : reduce_sum (x :: l) = x + reduce_sum l.
Proof. done. Qed.

Lemma reduce_sum_app l k : reduce_sum (l ++ k) = reduce_sum l + reduce_sum k.
Proof.
  induction l as [|x l IH]; cbn [app].
  - unfold reduce_sum at 2. cbn. lra.
  - rewrite !reduce_sum_cons, IH. lra.
Qed.

Lemma reduce_sum_zeros n : reduce_sum (replicate n 0) = 0.
Proof.
  induction n as [|n IH]; cbn [replicate]; [done|].
  rewrite reduce_sum_cons, IH. lra.
Qed.

Lemma reduce_sum_div l s : reduce_sum (map (λ x, x / s) l) = reduce_sum l / s.
Proof.
  induction l as [|x l IH]; cbn [map].
  - unfold reduce_sum. cbn. lra.
  - rewrite !reduce_sum_cons, IH. lra.
Qed.

Lemma reduce_sum_pos (f : R → R) l :
  l ≠ [] → (∀ x, 0 < f x) → 0 < reduce_sum (map f l).
Proof.
  intros Hl Hf. destruct l as [|x l]; [done|]. clear Hl. cbn [map].
  assert (0 <= reduce_sum (map f l)) as H.
  { induction l as [|y l IH]; cbn [map].
    - unfold reduce_sum. cbn. lra.
    - rewrite reduce_sum_cons. pose proof (Hf y). lra. }
  rewrite reduce_sum_cons. pose proof (Hf x). lra.
Qed.

Lemma sequence_mask_0 n : sequence_mask 0 n = replicate n 0.
Proof.
  unfold sequence_mask. generalize 0%nat at 2.
  induction n as [|n IH]; intros a; cbn; [done|]. by rewrite IH.
Qed.

Lemma sequence_mask_S len n : sequence_mask (S len) (S n) = 1 :: sequence_mask len n.
Proof.
  unfold sequence_mask. cbn. f_equal.
  rewrite <- seq_shift, map_map. done.
Qed.

(** Multiplying by the mask keeps the first [len] terms and zeroes the rest. *)
Lemma masked_terms (f : R → R) (l : list R) : ∀ len,
  zip_with (λ x m, f x * m) l (sequence_mask len (length l))
  = map f (take len l) ++ replicate (length l - len) 0.
Proof.
  induction l as [|x l IH]; intros len; [by destruct len|].
  destruct len as [|len].
  - rewrite sequence_mask_0. cbn. f_equal; [lra|].
    clear. induction l as [|y l IH]; cbn; [done|]. rewrite IH. f_equal. lra.
  - cbn [length]. rewrite sequence_mask_S. cbn. rewrite IH. f_equal. lra.
Qed.

Lemma global_attention_closed e len :
  let total := reduce_sum (map (λ x, exp (x - reduce_max e)) (take len e)) in
  global_attention e len
  = map (λ x, exp (x - reduce_max e) / total) (take len e)
    ++ replicate (length e - len) 0.
Proof.
  intros total. unfold global_attention.
  rewrite (masked_terms exp), length_map.
  rewrite reduce_sum_app, reduce_sum_zeros, Rplus_0_r.
  rewrite firstn_map, !map_map. fold total.
  rewrite map_app, map_map. f_equal.
  induction (length e - len)%nat as [|n IH]; cbn; [done|].
  rewrite IH. f_equal. unfold Rdiv. ring.
Qed.

(** The sibling path.  In global attention, on real numbers, for a
    sample whose source length is at least 1: the weight of every
    position at or beyond the source length is 0; the weight of a
    position [j] before it is [exp (e_j - max e)] divided by the sum of
    these terms over the positions before the source length only; and
    the weights of these positions sum to 1.  (In [float32] the same
    holds up to rounding as long as the exponentials of the source
    positions do not all underflow.) *)
Lemma global_attention_normalized (e : list R) (len : nat) :
  (1 ≤ len)%nat → e ≠ [] →
  let w := global_attention e len in
  let total := reduce_sum (map (λ x, exp (x - reduce_max e)) (take len e)) in
  (∀ j, (len ≤ j < length e)%nat → w !! j = Some 0) ∧
  (∀ j x, (j < len)%nat → e !! j = Some x →
          w !! j = Some (exp (x - reduce_max e) / total)) ∧
  reduce_sum (take len w) = 1.
Proof.
  intros Hlen He w total. subst w. rewrite global_attention_closed. fold total.
  assert (0 < total) as Hpos.
  { apply reduce_sum_pos; [|intros; apply exp_pos].
    destruct e; [done|]. by destruct len; [lia|]. }
  assert (length (map (λ x, exp (x - reduce_max e) / total) (take len e))
          = Nat.min len (length e)) as Hl by by rewrite length_map, length_take.
  split_and!.
  - intros j Hj. rewrite lookup_app_r by lia.
    apply lookup_replicate_2. lia.
  - intros j x Hj Hx. rewrite lookup_app_l.
    + change (map ?f ?l) with (f <$> l). rewrite list_lookup_fmap.
      rewrite lookup_take_lt by done. by rewrite Hx.
    + rewrite Hl. apply lookup_lt_Some in Hx. lia.
  - rewrite take_app, (firstn_all2 (map _ _)) by lia.
    replace (take _ (replicate _ 0)) with (@nil R).
    2: { rewrite Hl. destruct (decide (len ≤ length e)%nat).
         - replace (len - Nat.min len (length e))%nat with 0%nat by lia. done.
         - replace (length e - len)%nat with 0%nat by lia. cbn.
           by rewrite take_nil. }
    rewrite app_nil_r.
    rewrite <- (map_map (λ x, exp (x - reduce_max e)) (λ y, y / total)).
    rewrite reduce_sum_div. fold total. by field; lra.
Qed.

Lemma softmax_pos l j x : softmax l !! j = Some x → 0 < x.
Proof.
  unfold softmax. change (map ?f ?l) with (f <$> l) at 1.
  rewrite list_lookup_fmap. destruct (l !! j) as [y|] eqn:Hy; [|done].
  cbn. intros ?; simplify_eq.
  apply Rdiv_lt_0_compat; [apply exp_pos|].
  apply reduce_sum_pos; [|apply exp_pos]. intros ->. done.
Qed.

(** In local attention every weight is positive, inside the window
    or not: the mask multiplies the energies, not the exponentials. *)
Lemma local_attention_pos e z window j x :
  local_attention e z window !! j = Some x → 0 < x.
Proof.
  unfold local_attention. rewrite lookup_zip_with.
  intros (w & Hw & (d & Hd & ?)%bind_Some)%bind_Some. simplify_eq.
  apply Rmult_lt_0_compat; [by eapply softmax_pos|apply exp_pos].
Qed.

(** C3 (failing input).  Local attention over four positions with
    zero energies, [z = 0] and window size 1: the aligned position is 2,
    position 0 lies outside the window [[1, 3]] and is masked, and its
    weight is not 0.  The mask multiplies the energies before the
    softmax where [global_attention] multiplies the exponentials. *)
Theorem local_attention_masked_weight_nonzero :
  local_mask 4 0 1 !! 0%nat = Some 0 ∧
  ∃ x, local_attention [0; 0; 0; 0] 0 1 !! 0%nat = Some x ∧ x ≠ 0.
Proof.
  assert (aligned_position 4 0 = 2) as Hpt.
  { unfold aligned_position, floor, sigmoid.
    rewrite Ropp_0, exp_0. replace (INR 4 * (1 / (1 + 1))) with (INR 2) by (cbn; lra).
    by rewrite Int_part_INR. }
  split.
  - unfold local_mask. rewrite Hpt. cbn.
    destruct (Rlt_dec 0 (2 - 1)); [|lra].
    destruct (Rlt_dec (2 + 1) 0); [lra|].
    destruct (Req_dec_T (1 + 0) 0); [lra|done].
  - destruct (local_attention [0; 0; 0; 0] 0 1 !! 0%nat) as [x|] eqn:Hx.
    + exists x. split; [done|]. apply local_attention_pos in Hx. lra.
    + apply lookup_ge_None in Hx. unfold local_attention, softmax in Hx.
      rewrite length_zip_with, !length_map, length_zip_with in Hx.
      unfold local_mask in Hx. rewrite !length_map, length_zip_with in Hx.
      rewrite !length_map, length_seq in Hx. cbn in Hx. lia.
Qed.

(** [global_attention_normalized] on two positions of which the first
    is a source position. *)
Lemma global_attention_normalized_witness :
  (1 ≤ 1)%nat ∧ [0; 0] ≠ [] ∧
  (∀ j, (1 ≤ j < 2)%nat → global_attention [0; 0] 1 !! j = Some 0) ∧
  reduce_sum (take 1 (global_attention [0; 0] 1)) = 1.
Proof.
  split; [lia|]. split; [discriminate|].
  destruct (global_attention_normalized [0; 0] 1 ltac:(lia) ltac:(discriminate))
    as (Hmask & _ & Hsum).
  split; [exact Hmask|exact Hsum].
Defined.

End AttentionFacts.

(** ** The brevity penalty of the sentence-level reward *)

Module BleuFacts.
Import Bleu.

Lemma truncate_eos_first EOS_ID s : truncate EOS_ID (EOS_ID :: s) = [].
Proof.
  unfold truncate, where_equal. cbn. by destruct (decide (EOS_ID = EOS_ID)).
Qed.

(** Whatever the reference, an empty hypothesis makes the quotient of
    the brevity penalty a division by zero: its value is [nan] or an
    infinity, never a number. *)
Lemma brevity_ratio_empty EOS_ID hyp ref :
  truncate EOS_ID hyp = [] →
  hyp_len EOS_ID hyp = S754_zero false ∧
  (brevity_ratio EOS_ID hyp ref = S754_nan ∨
   ∃ s, brevity_ratio EOS_ID hyp ref = S754_infinity s).
Proof.
  intros Hhyp. unfold brevity_ratio, hyp_len. rewrite Hhyp. cbn [length].
  change (to_float (Z.of_nat 0)) with (S754_zero false). split; [done|].
  unfold fdiv32. destruct (ref_len EOS_ID ref) as [s|s| |s m e]; cbn; eauto.
Qed.

(** C9 (failing input).  With [EOS_ID = 1], the hypothesis [[1]] is
    empty once truncated: against the reference [[3, 1]] the quotient
    [ref_len / hyp_len] is [1 / 0 = +inf], and against the reference
    [[1]] it is [0 / 0 = nan]; no guard replaces the zero denominator. *)
Theorem brevity_ratio_divides_by_zero :
  truncate 1 [1%Z] = [] ∧
  hyp_len 1 [1%Z] = S754_zero false ∧
  brevity_ratio 1 [1%Z] [3%Z; 1%Z] = S754_infinity false ∧
  brevity_ratio 1 [1%Z] [1%Z] = S754_nan.
Proof. by vm_compute. Qed.

End BleuFacts.

(** ** Lists as numpy arrays: indexing by a list of indices, transposition *)

Module PyLists.

Lemma mapM_cons {A B} (f : A → result B) (x : A) (l : list A) :
  mapM f (x :: l) = y ← f x; k ← mapM f l; Ok (y :: k).
Proof. done. Qed.

(** [l[idx]] for in-range indices. *)
Lemma mapM_getitem_omap {A} (l : list A) (idx : list nat) :
  Forall (λ i, i < length l) idx →
  mapM (Py.getitem l) idx = Ok (omap (l !!.) idx) ∧
  length (omap (l !!.) idx) = length idx.
Proof.
  induction 1 as [|i idx Hi _ [IH IHlen]]; [done|].
  destruct (lookup_lt_is_Some_2 l i Hi) as [x Hx].
  rewrite mapM_cons, IH. unfold Py.getitem. cbn. rewrite Hx. cbn.
  by rewrite IHlen.
Qed.

Lemma omap_lookup_seq {A} (l : list A) : omap (l !!.) (seq 0 (length l)) = l.
Proof.
  induction l as [|x l IH] using rev_ind; [done|].
  rewrite length_app. cbn [length]. rewrite Nat.add_1_r, seq_S, omap_app.
  cbn. rewrite lookup_app_r, Nat.sub_diag by lia. cbn. f_equal.
  rewrite <- IH at 2. clear IH.
  assert (Forall (λ i, i < length l) (seq 0 (length l))) as Hall.
  { apply Forall_forall. intros i Hi%elem_of_seq. lia. }
  induction Hall as [|i idx Hi _ IH]; [done|].
  cbn. rewrite lookup_app_l by done. by rewrite IH.
Qed.

Lemma zip_omap_lookup {A B} (l : list A) (k : list B) (idx : list nat) :
  length l = length k → Forall (λ i, i < length l) idx →
  zip (omap (l !!.) idx) (omap (k !!.) idx) = omap (zip l k !!.) idx.
Proof.
  intros Hlen. induction 1 as [|i idx Hi _ IH]; [done|].
  destruct (lookup_lt_is_Some_2 l i Hi) as [x Hx].
  destruct (lookup_lt_is_Some_2 k i) as [y Hy]; [lia|].
  cbn. rewrite Hx, Hy. cbn.
  rewrite (proj2 (lookup_zip_with_Some pair l k i (x, y))) by eauto.
  cbn. by rewrite IH.
Qed.

Lemma transpose_lookup {A} (rows : list (list A)) n j :
  rows ≠ [] → Forall (λ row, length row = n) rows → j < n →
  Py.transpose rows !! j = Some (omap (λ row, row !! j) rows).
Proof.
  intros Hne Hrows Hj. destruct rows as [|r rows]; [done|].
  apply Forall_cons in Hrows as [Hr _]. unfold Py.transpose.
  rewrite list_lookup_fmap, lookup_seq_lt by lia. done.
Qed.

Lemma transpose_length {A} (rows : list (list A)) n :
  rows ≠ [] → Forall (λ row, length row = n) rows →
  length (Py.transpose rows) = n.
Proof.
  intros Hne Hrows. destruct rows as [|r rows]; [done|].
  apply Forall_cons in Hrows as [Hr _]. unfold Py.transpose.
  by rewrite length_map, length_seq.
Qed.

(** A column of a rectangular array has one item per row. *)
Lemma column_lookup {A} (rows : list (list A)) n j :
  Forall (λ row, length row = n) rows → j < n →
  ∀ i, omap (λ row, row !! j) rows !! i = rows !! i ≫= (.!! j).
Proof.
  intros Hrows Hj. induction Hrows as [|row rows Hrow _ IH]; intros i; [done|].
  destruct (lookup_lt_is_Some_2 row j) as [x Hx]; [lia|].
  cbn [omap list_omap]. rewrite Hx. cbn. destruct i as [|i]; cbn; [done|]. apply IH.
Qed.

Lemma column_length {A} (rows : list (list A)) n j :
  Forall (λ row, length row = n) rows → j < n →
  length (omap (λ row, row !! j) rows) = length rows.
Proof.
  intros Hrows Hj. induction Hrows as [|row rows Hrow _ IH]; [done|].
  destruct (lookup_lt_is_Some_2 row j) as [x Hx]; [lia|].
  cbn. rewrite Hx. cbn. by rewrite IH.
Qed.

(** Transposing a rectangular array with at least one row and one
    column twice gives the array back. *)
Lemma transpose_involutive {A} (rows : list (list A)) n :
  rows ≠ [] → 0 < n → Forall (λ row, length row = n) rows →
  Py.transpose (Py.transpose rows) = rows.
Proof.
  intros Hne Hn Hrows.
  assert (Py.transpose rows = map (λ j, omap (λ row, row !! j) rows) (seq 0 n)) as Hcols.
  { destruct rows as [|r rows]; [done|].
    apply Forall_cons in Hrows as [Hr _]. unfold Py.transpose. by rewrite Hr. }
  rewrite Hcols. destruct n as [|n]; [lia|].
  unfold Py.transpose at 1. cbn [seq map].
  rewrite (column_length rows (S n) 0) by (done || lia).
  change (omap (λ row, row !! 0) rows :: map _ _)
    with (map (λ j, omap (λ row : list A, row !! j) rows) (seq 0 (S n))).
  apply list_eq. intros i.
  rewrite list_lookup_fmap.
  destruct (decide (i < length rows)) as [Hi|Hi].
  - rewrite lookup_seq_lt by done. cbn [fmap option_fmap option_map Nat.add].
    destruct (lookup_lt_is_Some_2 rows i Hi) as [row Hrow]. rewrite Hrow. f_equal.
    assert (length row = S n) as Hlen.
    { rewrite Forall_forall in Hrows. apply Hrows. by eapply list_elem_of_lookup_2. }
    transitivity (omap (row !!.) (seq 0 (length row))); [|apply omap_lookup_seq].
    rewrite Hlen.
    assert (Forall (λ j, j < S n) (seq 0 (S n))) as Hall.
    { apply Forall_forall. intros j Hj%elem_of_seq. lia. }
    revert Hall. generalize (seq 0 (S n)). intros js Hall.
    induction Hall as [|j js Hj _ IH]; [done|].
    cbn [map omap list_omap]. rewrite (column_lookup rows (S n) j Hrows Hj i), Hrow.
    cbn. destruct (row !! j); cbn; by rewrite IH.
  - rewrite lookup_seq_ge by lia. cbn. symmetry. apply lookup_ge_None_2. lia.
Qed.

Lemma where_equal_imap (s : list Z) (v : Z) : ∀ g : nat → nat,
  omap (λ p : nat * Z, if decide (p.2 = v) then Some p.1 else None)
       (imap (λ i x, (g i, x)) s)
  = map g (Bleu.where_equal s v).
Proof.
  unfold Bleu.where_equal. induction s as [|x s IH]; intros g; [done|].
  cbn [imap omap list_omap]. cbn [snd fst].
  change (imap ((λ i x, (g i, x)) ∘ S) s) with (imap (λ i x, (g (S i), x)) s).
  change (imap (pair ∘ S) s) with (imap (λ i x, (S i, x)) s).
  rewrite (IH (λ j, g (S j))), (IH S).
  destruct (decide (x = v)); cbn [map]; by rewrite map_map.
Qed.

(** The first index [np.where] returns is the position of the first
    occurrence; it returns none when there is no occurrence. *)
Lemma where_equal_first (s : list Z) (v : Z) :
  ((v ∉ s) ∧ Bleu.where_equal s v = []) ∨
  (∃ pre post rest, s = pre ++ v :: post ∧ (v ∉ pre) ∧
                    Bleu.where_equal s v = length pre :: rest).
Proof.
  induction s as [|x s IH].
  - left. split; [by apply not_elem_of_nil|done].
  - assert (Bleu.where_equal (x :: s) v
            = (if decide (x = v) then [0] else []) ++ map S (Bleu.where_equal s v)) as Heq.
    { unfold Bleu.where_equal at 1. cbn [imap omap list_omap]. cbn [snd fst].
      change (imap (pair ∘ S) s) with (imap (λ i x, (S i, x)) s).
      rewrite (where_equal_imap s v S). by destruct (decide (x = v)). }
    rewrite Heq. destruct (decide (x = v)) as [->|Hne].
    + right. exists [], s, (map S (Bleu.where_equal s v)).
      split_and!; [done|by apply not_elem_of_nil|done].
    + destruct IH as [[Hnot ->]|(pre & post & rest & -> & Hpre & ->)].
      * left. split; [|done]. by apply not_elem_of_cons.
      * right. exists (x :: pre), post, (map S rest).
        split_and!; [done| |done]. apply not_elem_of_cons. by split; [congruence|].
Qed.

End PyLists.

(** ** Beam search: errors, edge cases and the returned list *)

Module BeamEdge.
Section facts.

Context {num : Type} `{Numeric num}.
Context {State Output EncState Attn : Type}.
Context (BOS_ID EOS_ID : Z).
Context (estimate_lm_score : list Z → list (gmap (list Z) num) → num).

Import Beam.
Abbreviation session := (@Beam.session num State Output EncState Attn).
Abbreviation beam := (@Beam.beam num State Output).
Abbreviation beam_step :=
  (@Beam.beam_step num _ State Output EncState Attn BOS_ID EOS_ID estimate_lm_score).
Abbreviation beam_at :=
  (@Beam.beam_at num _ State Output EncState Attn).
Abbreviation beam_search_decoding :=
  (@Beam.beam_search_decoding num _ State Output EncState Attn BOS_ID EOS_ID
     estimate_lm_score).
Abbreviation build_feeds := (@Beam.build_feeds num State Output EncState Attn).
Abbreviation value := (@Beam.value State Output EncState Attn).
Abbreviation feed := (gmap tensor value).
Abbreviation well_shaped := (@Beam.well_shaped num State Output).

(** *** The code before the loop, for any number of encoders *)

Lemma init_feed_total (el : list (list nat)) (inputs : list (list sentence)) n :
  ∀ a (feed0 : feed), a + n ≤ length el → a + n ≤ length inputs →
  ∃ feed1 : feed,
    foldM (λ input_feed i,
             len ← Py.getitem el i;
             inp ← Py.getitem inputs i;
             Ok (<[encoder_inputs_ph i := V_sentences inp]>
                   (<[encoder_input_length_ph i := V_lengths len]> input_feed)))
          feed0 (seq a n) = Ok feed1.
Proof.
  induction n as [|n IH]; intros a feed0 Hel Hin; [by exists feed0|].
  destruct (getitem_total el a) as [len Hlen]; [lia|].
  destruct (getitem_total inputs a) as [inp Hinp]; [lia|].
  cbn [seq foldM]. rewrite Hlen. cbn [mbind result_bind]. rewrite Hinp.
  cbn [mbind result_bind]. apply IH; lia.
Qed.

(** What [beam_init] hands to the loop. *)
Lemma beam_init_spec self (sessions : list session) token_ids B :
  length token_ids = encoder_count self → sessions ≠ [] →
  (max_output_len self = 0 ∧
   beam_init BOS_ID EOS_ID self sessions token_ids B = Raise IndexError) ∨
  (1 ≤ max_output_len self ∧
   ∃ el (attn : list (list Attn)) (st0 : beam),
     beam_init BOS_ID EOS_ID self sessions token_ids B = Ok (el, attn, st0) ∧
     length el = encoder_count self ∧ length attn = length sessions ∧
     Forall (λ a, length a = encoder_count self) attn ∧
     well_shaped (length sessions) st0 ∧
     hypotheses st0 = [[]] ∧ beam_size st0 = B ∧
     finished_hypotheses st0 = [] ∧ output st0 = None).
Proof.
  intros Hlen Hsess. unfold Beam.beam_init.
  destruct (BatchFacts.get_batch_closed_form BOS_ID EOS_ID self [token_ids ++ [[]]] true)
    as (b & Hb & Hei & Hel & _).
  { split; [done|]. repeat constructor. rewrite length_app. cbn. lia. }
  destruct (BatchFacts.get_batch_decoding_single BOS_ID EOS_ID self token_ids Hlen)
    as (b' & Hb' & Hdi & _).
  rewrite Hb in Hb'. injection Hb' as <-. rewrite Hb.
  cbn [mbind result_bind].
  destruct (init_feed_total (encoder_input_length b) (batch_encoder_inputs b)
              (encoder_count self) 0 ∅) as [feed1 ->]; [lia|lia|].
  cbn [mbind result_bind].
  destruct (decide (sessions = [])); [done|].
  rewrite Hdi.
  destruct (max_output_len self) as [|k].
  - left. split; [done|]. done.
  - right. split; [lia|].
    cbn [app replicate removelast map Py.getitem lookup list_lookup].
    cbn [mbind result_bind].
    eexists _, _, _. split; [done|]. split; [done|].
    split; [by rewrite !length_map|]. split.
    { apply Forall_forall.
      intros a (? & -> & (s_ & -> & _)%list_elem_of_fmap)%list_elem_of_fmap.
      cbn. by rewrite length_map, length_seq. }
    split; [|done].
    unfold Beam.well_shaped. cbn. split_and!; try done.
    + by rewrite length_zip_with, !length_map, Nat.min_id.
    + apply Forall_forall. intros row Hrow.
      apply elem_of_lookup_zip_with in Hrow as (i & s_ & e & -> & _ & _). done.
Qed.

(** *** Two or more encoders *)

(** The loop over the encoders leaves its variable at the last index. *)
Lemma encoder_length_inner el n : ∀ a (f : feed) i0,
  a + n ≤ length el →
  ∃ f' : feed,
    foldM (λ '(feed, _) i,
             len ← Py.getitem el i;
             Ok (<[encoder_input_length_ph i := V_lengths len]> feed, i))
          (f, i0) (seq a n)
    = Ok (f', if n is 0 then i0 else a + n - 1).
Proof.
  induction n as [|n IH]; intros a f i0 Hel; [by exists f|].
  destruct (getitem_total el a) as [len Hlen]; [lia|].
  cbn [seq foldM]. rewrite Hlen. cbn [mbind result_bind].
  destruct (IH (S a) (<[encoder_input_length_ph a := V_lengths len]> f) a) as [f' ->];
    [lia|].
  exists f'. f_equal. f_equal. destruct n; lia.
Qed.

Lemma encoder_length_outer el n (feeds : list feed) : ∀ (fed : list feed) i0,
  1 ≤ n → n ≤ length el →
  ∃ fed' : list feed,
    foldM (λ '(fed, i) feed,
             '(feed, i) ←
               foldM (λ '(feed, _) i,
                        len ← Py.getitem el i;
                        Ok (<[encoder_input_length_ph i := V_lengths len]> feed, i))
                     (feed, i) (seq 0 n);
             Ok (fed ++ [feed], i))
          (fed, i0) feeds
    = Ok (fed', if feeds is [] then i0 else n - 1).
Proof.
  induction feeds as [|f feeds IH]; intros fed i0 Hn Hel; [by exists fed|].
  destruct (encoder_length_inner el n 0 f i0) as [f' Hf']; [lia|].
  cbn [foldM]. rewrite Hf'. cbn [mbind result_bind].
  destruct n as [|n]; [lia|].
  destruct (IH (fed ++ [f']) (0 + S n - 1)) as [fed' ->]; [lia|lia|].
  exists fed'. f_equal. f_equal. destruct feeds; lia.
Qed.

(** With two or more encoders the guard [if i > 0] holds at every time
    step, the first included, where [output] is still [None]. *)
Lemma build_feeds_first_step_raises self el (attn : list (list Attn)) t (st : beam) :
  2 ≤ encoder_count self → length el = encoder_count self →
  state st ≠ [] → output st = None →
  build_feeds self el attn t st = Raise TypeError.
Proof.
  intros Hn Hel Hst Hout. unfold Beam.build_feeds.
  match goal with
  | |- foldM ?f (?fed, ?i0) ?feeds ≫= _ = _ =>
      destruct (encoder_length_outer el (encoder_count self) feeds fed i0) as [fed' ->];
        [lia|lia|]
  end.
  cbn [mbind result_bind].
  destruct (state st) as [|s0 ss]; [done|]. cbn [map].
  destruct (Nat.ltb_spec 0 (encoder_count self - 1)); [|lia].
  by rewrite Hout.
Qed.

(** X1.  With two or more encoders, one source sentence per encoder, at
    least one session and [max_output_len >= 1], beam search raises
    [TypeError] in its first iteration: the loop over the encoders
    reassigns the step counter [i], the guard [if i > 0] holds, and
    [zip(input_feed, output)] is applied to [output = None]. *)
Theorem beam_search_multi_encoder_raises self (sessions : list session) token_ids B ngrams :
  2 ≤ encoder_count self → length token_ids = encoder_count self →
  sessions ≠ [] → 1 ≤ max_output_len self →
  beam_search_decoding self sessions token_ids B ngrams = Raise TypeError.
Proof.
  intros Hn Hlen Hsess Hmax. unfold Beam.beam_search_decoding.
  destruct (beam_init_spec self sessions token_ids B Hlen Hsess)
    as [[H0 _]|(_ & el & attn & st0 & -> & Hel & _ & _ & Hshape & _ & _ & _ & Hout)];
    [lia|].
  cbn [mbind result_bind].
  destruct (max_output_len self) as [|k]; [lia|].
  cbn [seq beam_loop]. unfold Beam.beam_step.
  rewrite (build_feeds_first_step_raises self el attn 0 st0); try done.
  destruct Hshape as (_ & _ & Hst & _). intros Hnil. rewrite Hnil in Hst.
  by destruct sessions.
Qed.

(** X2.  A model with [max_output_len = 0] cannot decode: the batch of
    [get_batch] then has no decoder time step, and reading the first
    decoder input, [decoder_inputs[0]], raises [IndexError] before the
    loop (one source sentence per encoder, at least one session). *)
Theorem beam_search_no_output_len self (sessions : list session) token_ids B ngrams :
  length token_ids = encoder_count self → sessions ≠ [] →
  max_output_len self = 0 →
  beam_search_decoding self sessions token_ids B ngrams = Raise IndexError.
Proof.
  intros Hlen Hsess Hmax. unfold Beam.beam_search_decoding.
  destruct (beam_init_spec self sessions token_ids B Hlen Hsess)
    as [[_ ->]|[? _]]; [done|lia].
Qed.

(** *** The final ranking *)

(** The values picked by [np.argsort] are the values, sorted. *)
Lemma argsort_values (xs : list num) :
  omap (xs !!.) (argsort xs)
  = (merge_sort (λ p q : nat * num, Is_true (fleb p.2 q.2)) (imap pair xs)).*2.
Proof.
  unfold argsort.
  set (sorted := merge_sort _ _).
  assert (∀ p, p ∈ sorted → xs !! p.1 = Some p.2) as Hin.
  { intros p Hp. subst sorted. rewrite merge_sort_Permutation in Hp.
    apply elem_of_lookup_imap in Hp as (i & x & -> & Hx). done. }
  induction sorted as [|p sorted IH]; [done|].
  cbn. rewrite (Hin p) by left. cbn. f_equal. apply IH.
  intros q Hq. apply Hin. by right.
Qed.

Lemma Sorted_snd (l : list (nat * num)) :
  Sorted (λ p q : nat * num, Is_true (fleb p.2 q.2)) l →
  Sorted (λ x y, Is_true (fleb x y)) (l.*2).
Proof.
  induction 1 as [|p l _ IH Hhd]; cbn; constructor; [done|].
  destruct Hhd; cbn; by constructor.
Qed.

(** [hypotheses[sorted_idx]] and [scores[sorted_idx]]: the pairs of a
    hypothesis and its score are kept, and the scores come out in
    ascending order when [<=] is total on them. *)
Lemma ranking_spec (hs : list (list Z)) (xs : list num) :
  length hs = length xs →
  ∃ hs' xs',
    mapM (Py.getitem hs) (argsort xs) = Ok hs' ∧
    mapM (Py.getitem xs) (argsort xs) = Ok xs' ∧
    length hs' = length hs ∧ length xs' = length xs ∧
    zip hs' xs' ≡ₚ zip hs xs ∧
    ((∀ x y, fleb x y = true ∨ fleb y x = true) →
     Sorted (λ x y, Is_true (fleb x y)) xs').
Proof.
  intros Hlen.
  assert (Forall (λ i, i < length xs) (argsort xs)) as Hidx.
  { apply Forall_forall. intros i Hi.
    rewrite BeamFacts.argsort_perm in Hi. apply elem_of_seq in Hi. lia. }
  destruct (PyLists.mapM_getitem_omap xs (argsort xs) Hidx) as [Hxs Hxl].
  destruct (PyLists.mapM_getitem_omap hs (argsort xs)) as [Hhs Hhl]; [by rewrite Hlen|].
  exists (omap (hs !!.) (argsort xs)), (omap (xs !!.) (argsort xs)).
  assert (length (argsort xs) = length xs) as Hal.
  { by rewrite BeamFacts.argsort_perm, length_seq. }
  split_and!; [done|done|lia|lia| |].
  - rewrite PyLists.zip_omap_lookup by (done || by rewrite Hlen).
    rewrite BeamFacts.argsort_perm.
    replace (length xs) with (length (zip hs xs))
      by (rewrite length_zip_with; lia).
    by rewrite PyLists.omap_lookup_seq.
  - intros Htotal. rewrite argsort_values. apply Sorted_snd.
    assert (Total (λ p q : nat * num, Is_true (fleb p.2 q.2))) as Htot.
    { intros p q. destruct (Htotal p.2 q.2) as [->| ->]; [by left|by right]. }
    apply (Sorted_merge_sort _).
Qed.

(** X3.  With one encoder, one source sentence, at least one session,
    [max_output_len >= 1], a non-empty n-gram table if one is given and
    an initial width [B >= 1], beam search returns an n-best list: as many scores as hypotheses, at most [B]
    of them, the scores in ascending order whenever the comparison of
    scores is total, and the pairs of a hypothesis and its
    (length-normalized) score being those of the state in which the
    loop stops: the state after the first iteration that leaves
    [beam_size <= 0], or after [max_output_len] iterations when there
    is none. *)
Theorem beam_search_n_best self (sessions : list session) token_ids B ngrams :
  (∀ x y : num, fleb x y = true ∨ fleb y x = true) →
  encoder_count self = 1 → length token_ids = 1 → sessions ≠ [] →
  1 ≤ max_output_len self →
  (∀ ng, ngrams = Some ng → ng ≠ []) →
  (1 ≤ B)%Z →
  ∃ hyps scores,
    beam_search_decoding self sessions token_ids B ngrams = Ok (hyps, scores) ∧
    length scores = length hyps ∧
    (Z.of_nat (length hyps) ≤ B)%Z ∧
    Sorted (λ x y, Is_true (fleb x y)) scores ∧
    ∃ t (st : beam),
      beam_at BOS_ID EOS_ID estimate_lm_score self sessions token_ids B ngrams t = Ok st ∧
      1 ≤ t ≤ max_output_len self ∧
      (t = max_output_len self ∨ (beam_size st ≤ 0)%Z) ∧
      (∀ t' (st' : beam), 0 < t' < t →
         beam_at BOS_ID EOS_ID estimate_lm_score self sessions token_ids B ngrams t'
         = Ok st' → (0 < beam_size st')%Z) ∧
      zip hyps scores
      ≡ₚ zip (BeamRank.merged_hypotheses st) (BeamRank.normalized_scores self st).
Proof.
  intros Htotal Hone Hlen Hsess Hmax Hng HB.
  unfold Beam.beam_search_decoding, Beam.beam_at.
  destruct (beam_init_spec self sessions token_ids B)
    as [[H0 _]|(_ & el & attn & st0 & Hinit & Hel & Hattn & Hattn1 & Hst0 & _)];
    [lia|done|lia|].
  rewrite Hinit. cbn [mbind result_bind]. rewrite Hone in Hel, Hattn1.
  destruct (BeamFacts.beam_loop_total BOS_ID EOS_ID estimate_lm_score self sessions
              ngrams el attn (seq 0 (max_output_len self))
              Hone Hel Hsess Hattn Hattn1 Hng st0 Hst0)
    as (st & Hloop & (Hsc & _ & _ & _ & Hfin)).
  rewrite Hloop. cbn [mbind result_bind].
  destruct (BeamFacts.beam_loop_spec _ st0 _ 0 st0 st eq_refl Hloop)
    as (t & Ht & Hst & Hstop & Hrun).
  pose proof (BeamFacts.beam_init_inv _ _ _ _ _ _ _ _ _ HB Hinit) as Hinv0.
  destruct (BeamFacts.inv_state_after _ _ _ B _ _ _ _ _ _ _ _ Hinv0 Hst)
    as (Hb & Hl & _ & _).
  change (hypotheses st ++ finished_hypotheses st) with (BeamRank.merged_hypotheses st).
  change (if Qle_bool (len_normalization self) 0 then _ else _)
    with (BeamRank.normalized_scores self st).
  assert (length (BeamRank.merged_hypotheses st)
          = length (BeamRank.normalized_scores self st)) as Hlens.
  { unfold BeamRank.normalized_scores, BeamRank.merged_hypotheses.
    destruct (Qle_bool _ _).
    - rewrite !length_app. lia.
    - rewrite length_zip_with, !length_app. lia. }
  destruct (ranking_spec _ _ Hlens) as (hs & xs & -> & -> & Hhl & Hxl & Hperm & Hsorted).
  cbn [mbind result_bind]. exists hs, xs.
  split_and!; [done|lia| |by apply Hsorted|].
  - rewrite Hhl. unfold BeamRank.merged_hypotheses. rewrite length_app. lia.
  - exists t, st.
    split_and!; [done| | | |exact Hrun|done].
    + destruct Hstop as [->|[? _]]; lia.
    + lia.
    + destruct Hstop as [->|[_ ?]]; [left; lia|by right].
Qed.

(** X4.  With a beam of width 0, beam search on a single-encoder model
    (one source sentence, at least one session, [max_output_len >= 1],
    a non-empty n-gram table if one is given) returns no hypothesis and
    no score: the empty n-best list, and no exception. *)
Theorem beam_search_zero_width self (sessions : list session) token_ids ngrams :
  encoder_count self = 1 → length token_ids = 1 → sessions ≠ [] →
  1 ≤ max_output_len self →
  (∀ ng, ngrams = Some ng → ng ≠ []) →
  beam_search_decoding self sessions token_ids 0 ngrams = Ok ([], []).
Proof.
  intros Hone Hlen Hsess Hmax Hng.
  unfold Beam.beam_search_decoding.
  destruct (beam_init_spec self sessions token_ids 0)
    as [[H0 _]|(_ & el & attn & st0 & Hinit & Hel & Hattn & Hattn1 & Hst0
                & _ & Hb0 & Hf0 & _)];
    [lia|done|lia|].
  rewrite Hinit. cbn [mbind result_bind]. rewrite Hone in Hel, Hattn1.
  destruct (max_output_len self) as [|k]; [lia|].
  cbn [seq beam_loop].
  destruct (BeamFacts.beam_step_total BOS_ID EOS_ID estimate_lm_score self sessions
              ngrams el attn 0 st0 Hone Hel Hsess Hattn Hattn1 Hng Hst0)
    as (st & Hstep & (Hsc & _ & _ & _ & Hfin)).
  rewrite Hstep. cbn [mbind result_bind].
  destruct (BeamFacts.beam_step_spec _ _ _ _ _ _ _ _ _ _ _ Hstep)
    as (cands & Hcands & _ & Hf & Hh & Hbs); [lia|].
  assert (cands = []) as -> by (destruct cands; [done|cbn in Hcands; lia]).
  rewrite Hf0 in Hf. cbn in Hf, Hh, Hbs. rewrite Hb0 in Hbs.
  rewrite Hbs. change (0 - Z.of_nat 0 <=? 0)%Z with true. cbn [mbind result_bind].
  rewrite Hh, Hf in *. cbn in Hsc, Hfin.
  destruct (scores st); [|done]. destruct (finished_scores st); [|done].
  cbn. by destruct (Qle_bool _ _).
Qed.

(** *** [self.lm_weight or 0.2] *)

Lemma beam_loop_ext (step step' : nat → beam → result beam) ts :
  (∀ t st, step t st = step' t st) →
  ∀ st, beam_loop step ts st = beam_loop step' ts st.
Proof.
  intros Hext. induction ts as [|t ts IH]; intros st; [done|].
  cbn [beam_loop]. rewrite Hext. destruct (step' t st) as [st'|]; [|done].
  cbn [mbind result_bind]. by rewrite IH.
Qed.

Lemma step_scores_zero_lm_weight self w n ngrams hyps scores dout :
  lm_weight self = Some w → Qeq_bool w 0 = true →
  step_scores BOS_ID estimate_lm_score (set_lm_weight self None) n ngrams hyps scores dout
  = step_scores BOS_ID estimate_lm_score self n ngrams hyps scores dout.
Proof.
  intros Hw H0. unfold Beam.step_scores, Beam.lm_scores, set_lm_weight.
  cbn [lm_weight trg_vocab_size]. by rewrite Hw, H0.
Qed.

(** X5.  A model configured with a language-model weight equal to zero
    decodes exactly as a model with no configured weight, that is, with
    the default weight 0.2: [self.lm_weight or 0.2] takes [0.0] for
    unset. *)
Theorem zero_lm_weight_is_default self w (sessions : list session) token_ids B ngrams :
  lm_weight self = Some w → (w == 0)%Q →
  beam_search_decoding self sessions token_ids B ngrams
  = beam_search_decoding (set_lm_weight self None) sessions token_ids B ngrams.
Proof.
  intros Hw H0%Qeq_bool_iff. unfold Beam.beam_search_decoding.
  change (beam_init BOS_ID EOS_ID (set_lm_weight self None) sessions token_ids B)
    with (beam_init BOS_ID EOS_ID self sessions token_ids B).
  destruct (beam_init _ _ _ _ _ _) as [[[el attn] st0]|]; [|done].
  cbn [mbind result_bind].
  change (max_output_len (set_lm_weight self None)) with (max_output_len self).
  change (len_normalization (set_lm_weight self None)) with (len_normalization self).
  rewrite (beam_loop_ext (beam_step (set_lm_weight self None) sessions ngrams el attn)
             (beam_step self sessions ngrams el attn)); [done|].
  intros t st. unfold Beam.beam_step.
  change (build_feeds (set_lm_weight self None) el attn t st)
    with (build_feeds self el attn t st).
  destruct (build_feeds self el attn t st) as [feeds|]; [|done].
  cbn [mbind result_bind].
  by rewrite (step_scores_zero_lm_weight self w).
Qed.

(** *** The tokens of the hypotheses *)

Lemma step_scores_length self n ngrams hyps scores dout scores_ :
  step_scores BOS_ID estimate_lm_score self n ngrams hyps scores dout = Ok scores_ →
  length scores_ = length scores * trg_vocab_size self.
Proof.
  unfold Beam.step_scores. intros Hs.
  apply bind_Ok_inv in Hs as ([lm w] & _ & Hs).
  apply bind_Ok_inv in Hs as (rows & Hrows & Hs). injection Hs as <-.
  rewrite (BeamFacts.length_mjoin_uniform rows (trg_vocab_size self)).
  - by rewrite (mapM_length _ _ _ Hrows), length_imap.
  - apply mapM_Forall2 in Hrows. clear -Hrows.
    induction Hrows as [|[h score] row l rows Hrow _ IH]; constructor; [|done].
    cbn in Hrow. apply bind_Ok_inv in Hrow as (log_rows & _ & Hrow).
    apply bind_Ok_inv in Hrow as (lm_row & _ & Hrow).
    apply mapM_length in Hrow. by rewrite Hrow, length_seq.
Qed.

Lemma candidate_tokens_bound (flat_ids : list nat) V m :
  Forall (λ flat_id, flat_id < m * V) flat_ids →
  Forall (λ x : nat * (nat * nat), x.2.2 < V)
    (zip flat_ids
       (zip (map (λ flat_id, flat_id / V) flat_ids)
            (map (λ flat_id, flat_id mod V) flat_ids))).
Proof.
  induction 1 as [|flat_id flat_ids Hflat _ IH]; cbn; constructor; [|done].
  cbn. apply Nat.mod_upper_bound. intros ->. lia.
Qed.

Abbreviation candidates := (@Beam.candidates num State Output).
Abbreviation live_tokens := (BeamRank.live_tokens).
Abbreviation finished_tokens := (BeamRank.finished_tokens).

Lemma candidates_tokens self hyps scores_ (ds : list (list State))
    (out : list (list Output)) xs :
  Forall (live_tokens self EOS_ID) hyps →
  Forall (λ x : nat * (nat * nat), x.2.2 < trg_vocab_size self) xs →
  ∀ c c' : candidates,
  Forall (live_tokens self EOS_ID) (c_new_hypotheses c) →
  Forall (finished_tokens self EOS_ID) (c_finished_hypotheses c) →
  foldM (candidate_step EOS_ID hyps scores_ ds out) c xs = Ok c' →
  Forall (live_tokens self EOS_ID) (c_new_hypotheses c') ∧
  Forall (finished_tokens self EOS_ID) (c_finished_hypotheses c').
Proof.
  intros Hhyps. induction 1 as [|[flat_id [hyp_id token_id]] xs Htok _ IH];
    intros c c' Hnew Hfin Hfold.
  - cbn in Hfold. by simplify_eq.
  - cbn [foldM] in Hfold. apply bind_Ok_inv in Hfold as (c1 & Hstep & Hfold).
    cbn in Htok. unfold Beam.candidate_step in Hstep.
    apply bind_Ok_inv in Hstep as (h & Hh & Hstep).
    apply bind_Ok_inv in Hstep as (score & _ & Hstep).
    apply getitem_elem_of in Hh.
    assert (live_tokens self EOS_ID h) as Hlive
      by (rewrite Forall_forall in Hhyps; by apply Hhyps).
    assert (BeamRank.valid_token self (Z.of_nat token_id)) as Hvalid
      by (unfold BeamRank.valid_token; lia).
    destruct (decide (Z.of_nat token_id = EOS_ID)) as [Heos|Heos].
    + injection Hstep as <-. apply IH in Hfold; [done|done|]. cbn.
      apply Forall_app. split; [done|]. constructor; [|done].
      exists h. rewrite Heos in *. done.
    + apply bind_Ok_inv in Hstep as (states & _ & Hstep).
      apply bind_Ok_inv in Hstep as (outputs & _ & Hstep). injection Hstep as <-.
      apply IH in Hfold; [done| |done]. cbn.
      apply Forall_app. split; [done|]. constructor; [|done].
      apply Forall_app. split; [done|]. by constructor.
Qed.

Lemma beam_step_tokens self (sessions : list session) ngrams el attn t (st st' : beam) :
  Forall (live_tokens self EOS_ID) (hypotheses st) →
  Forall (finished_tokens self EOS_ID) (finished_hypotheses st) →
  beam_step self sessions ngrams el attn t st = Ok st' →
  Forall (live_tokens self EOS_ID) (hypotheses st') ∧
  Forall (finished_tokens self EOS_ID) (finished_hypotheses st').
Proof.
  intros Hlive Hfin Hstep. unfold Beam.beam_step in Hstep.
  apply bind_Ok_inv in Hstep as (feeds & _ & Hstep).
  apply bind_Ok_inv in Hstep as (scores_ & Hscores & Hstep).
  apply bind_Ok_inv in Hstep as (c & Hc & Hstep). simplify_eq. cbn.
  apply step_scores_length in Hscores.
  eapply (candidates_tokens self _ _ _ _ _ Hlive) in Hc; [done| |done|done].
  apply (candidate_tokens_bound _ _ (length (scores st))).
  rewrite <- Hscores. apply BeamFacts.flat_ids_bound.
Qed.

Lemma state_after_tokens self (sessions : list session) ngrams el attn (st0 : beam) t :
  ∀ st,
  Forall (live_tokens self EOS_ID) (hypotheses st0) →
  Forall (finished_tokens self EOS_ID) (finished_hypotheses st0) →
  state_after (beam_step self sessions ngrams el attn) st0 t = Ok st →
  Forall (live_tokens self EOS_ID) (hypotheses st) ∧
  Forall (finished_tokens self EOS_ID) (finished_hypotheses st).
Proof.
  induction t as [|t IH]; intros st Hlive Hfin Hst; cbn in Hst.
  - by simplify_eq.
  - apply bind_Ok_inv in Hst as (st1 & Hst1 & Hstep).
    destruct (IH st1 Hlive Hfin Hst1) as [Hlive1 Hfin1].
    by eapply beam_step_tokens.
Qed.

(** X6.  Every hypothesis beam search returns consists of token ids
    of the target vocabulary, and holds the end-of-sequence marker at
    its last position or nowhere: an extension by the end marker is
    retired and never extended again. *)
Theorem beam_search_tokens self (sessions : list session) token_ids B ngrams hyps scores :
  beam_search_decoding self sessions token_ids B ngrams = Ok (hyps, scores) →
  Forall (λ h, Forall (BeamRank.valid_token self) h ∧ BeamRank.eos_only_last EOS_ID h) hyps.
Proof.
  unfold Beam.beam_search_decoding. intros Hres.
  apply bind_Ok_inv in Hres as ([[el attn] st0] & Hinit & Hres).
  apply bind_Ok_inv in Hres as (st & Hloop & Hres).
  apply bind_Ok_inv in Hres as (hyps' & Hh & Hres).
  apply bind_Ok_inv in Hres as (scores' & _ & Hres). injection Hres as -> ->.
  destruct (BeamFacts.beam_loop_spec _ st0 _ 0 st0 st eq_refl Hloop)
    as (t & _ & Hst & _ & _).
  assert (hypotheses st0 = [[]] ∧ finished_hypotheses st0 = []) as [Hh0 Hf0].
  { unfold Beam.beam_init in Hinit.
    apply bind_Ok_inv in Hinit as (b & _ & Hinit).
    apply bind_Ok_inv in Hinit as (feed1 & _ & Hinit).
    destruct (decide (sessions = [])); [done|].
    apply bind_Ok_inv in Hinit as (di & _ & Hinit). by simplify_eq. }
  destruct (state_after_tokens self sessions ngrams el attn st0 t st) as [Hlive Hfin];
    [rewrite Hh0; by repeat constructor|by rewrite Hf0|done|].
  apply Forall_forall. intros h Hin.
  destruct (mapM_elem_of _ _ _ _ Hh Hin) as (i & _ & Hi%getitem_elem_of).
  rewrite Forall_forall in Hlive, Hfin.
  apply elem_of_app in Hi as [Hi|Hi].
  - specialize (Hlive h Hi). unfold BeamRank.live_tokens in Hlive. split.
    + eapply Forall_impl; [exact Hlive|]. by intros tok [? _].
    + intros j Hj. rewrite Forall_forall in Hlive.
      destruct (Hlive EOS_ID) as [_ Hne]; [by eapply list_elem_of_lookup_2|done].
  - destruct (Hfin h Hi) as (h' & -> & Hlive' & Hvalid). split.
    + apply Forall_app. split; [|by constructor].
      eapply Forall_impl; [exact Hlive'|]. by intros tok [? _].
    + intros j Hj. rewrite length_app. cbn.
      destruct (decide (j < length h')) as [Hlt|Hge].
      * rewrite lookup_app_l in Hj by done.
        unfold BeamRank.live_tokens in Hlive'. rewrite Forall_forall in Hlive'.
        destruct (Hlive' EOS_ID) as [_ Hne]; [by eapply list_elem_of_lookup_2|done].
      * apply lookup_lt_Some in Hj. rewrite length_app in Hj. cbn in Hj. lia.
Qed.

End facts.

(** The comparison of ideal floats is total, [nan] being the largest. *)
Lemma eleb_total (x y : EReal.ereal) : EReal.eleb x y = true ∨ EReal.eleb y x = true.
Proof.
  destruct x as [a| | |], y as [b| | |]; cbn; auto.
  destruct (Rle_dec a b); [by left|]. right.
  destruct (Rle_dec b a); [done|]. exfalso. lra.
Qed.

(** [beam_search_multi_encoder_raises] on a model with two encoders. *)
Lemma beam_search_multi_encoder_raises_witness :
  2 ≤ encoder_count two_encoder_model ∧
  length [[Tok 3]; [Tok 4]] = encoder_count two_encoder_model ∧
  [fair_session] ≠ [] ∧
  1 ≤ max_output_len two_encoder_model ∧
  Beam.beam_search_decoding 2 1 (λ _ _, EReal.NaN) two_encoder_model [fair_session]
    [[Tok 3]; [Tok 4]] 2 None = Raise TypeError.
Proof.
  split_and!; [cbn; lia|done|done|cbn; lia|].
  apply (beam_search_multi_encoder_raises 2 1 (λ _ _, EReal.NaN) two_encoder_model
           [fair_session] [[Tok 3]; [Tok 4]] 2 None); [cbn; lia|done|done|cbn; lia].
Defined.

(** [beam_search_no_output_len] on a model with [max_output_len = 0]. *)
Lemma beam_search_no_output_len_witness :
  length [[Tok 3; Tok 4]] = encoder_count no_output_model ∧
  [fair_session] ≠ [] ∧
  max_output_len no_output_model = 0 ∧
  Beam.beam_search_decoding 2 1 (λ _ _, EReal.NaN) no_output_model [fair_session]
    [[Tok 3; Tok 4]] 2 None = Raise IndexError.
Proof.
  split_and!; [done|done|done|].
  by apply (beam_search_no_output_len 2 1 (λ _ _, EReal.NaN) no_output_model
              [fair_session] [[Tok 3; Tok 4]] 2 None).
Defined.

(** [beam_search_n_best] at a width of 2 over a two-token vocabulary. *)
Lemma beam_search_n_best_witness :
  (∀ x y : EReal.ereal, fleb x y = true ∨ fleb y x = true) ∧
  encoder_count two_token_model = 1 ∧
  (1 ≤ 2)%Z ∧
  ∃ hyps scores,
    Beam.beam_search_decoding 2 1 (λ _ _, EReal.NaN) two_token_model [fair_session]
      [[Tok 3; Tok 4]] 2 None = Ok (hyps, scores) ∧
    length scores = length hyps ∧
    (Z.of_nat (length hyps) ≤ 2)%Z ∧
    Sorted (λ x y, Is_true (fleb x y)) scores.
Proof.
  split_and!; [exact eleb_total|done|lia|].
  destruct (beam_search_n_best 2 1 (λ _ _, EReal.NaN) two_token_model [fair_session]
              [[Tok 3; Tok 4]] 2 None)
    as (hyps & scores & Hres & Hlen & HB & Hsorted & _);
    [exact eleb_total|done|done|done|cbn; lia|done|lia|].
  by exists hyps, scores.
Defined.

(** [beam_search_zero_width] over a two-token vocabulary. *)
Lemma beam_search_zero_width_witness :
  encoder_count two_token_model = 1 ∧
  1 ≤ max_output_len two_token_model ∧
  Beam.beam_search_decoding 2 1 (λ _ _, EReal.NaN) two_token_model [fair_session]
    [[Tok 3; Tok 4]] 0 None = Ok ([], []).
Proof.
  split_and!; [done|cbn; lia|].
  apply (beam_search_zero_width 2 1 (λ _ _, EReal.NaN) two_token_model [fair_session]
           [[Tok 3; Tok 4]] None); [done|done|done|cbn; lia|done].
Defined.

(** [zero_lm_weight_is_default] on a model configured with [lm_weight=0.0]. *)
Lemma zero_lm_weight_is_default_witness :
  lm_weight zero_lm_model = Some 0%Q ∧
  (0 == 0)%Q ∧
  Beam.beam_search_decoding 2 1 (λ _ _, EReal.NaN) zero_lm_model [fair_session]
    [[Tok 3; Tok 4]] 2 (Some [∅])
  = Beam.beam_search_decoding 2 1 (λ _ _, EReal.NaN) (set_lm_weight zero_lm_model None)
      [fair_session] [[Tok 3; Tok 4]] 2 (Some [∅]).
Proof.
  split_and!; [done|done|].
  by apply (zero_lm_weight_is_default 2 1 (λ _ _, EReal.NaN) zero_lm_model 0%Q).
Defined.

(** [beam_search_tokens] at a width of 2 over a two-token vocabulary. *)
Lemma beam_search_tokens_witness :
  ∃ hyps scores,
    Beam.beam_search_decoding 2 1 (λ _ _, EReal.NaN) two_token_model [fair_session]
      [[Tok 3; Tok 4]] 2 None = Ok (hyps, scores) ∧
    Forall (λ h, Forall (BeamRank.valid_token two_token_model) h ∧
                 BeamRank.eos_only_last 1 h) hyps.
Proof.
  destruct (BeamFacts.beam_search_returns 2 1 (λ _ _, EReal.NaN) two_token_model
              [fair_session] [[Tok 3; Tok 4]] 2 None)
    as (hyps & scores & Hres); [done|done|done|cbn; lia|done|].
  exists hyps, scores. split; [done|].
  exact (beam_search_tokens 2 1 (λ _ _, EReal.NaN) two_token_model [fair_session]
           [[Tok 3; Tok 4]] 2 None hyps scores Hres).
Defined.

End BeamEdge.

(** ** Batch construction: errors and the layout of the arrays *)

Module BatchEdge.
Section facts.

Context (BOS_ID EOS_ID : Z).
Import Batch.
Abbreviation get_batch := (Batch.get_batch BOS_ID EOS_ID).

(** A loop all of whose failures are the exception [e] returns or
    raises [e]; it raises [e] when some iteration does. *)
Lemma mapM_ok_or_raise {A B} (f : A → result B) (e : exn) (l : list A) :
  (∀ x, x ∈ l → (∃ y, f x = Ok y) ∨ f x = Raise e) →
  (∃ k, mapM f l = Ok k ∧ length k = length l) ∨ mapM f l = Raise e.
Proof.
  induction l as [|x l IH]; intros Hf; [left; by exists []|].
  change (mapM f (x :: l)) with (y ← f x; k ← mapM f l; Ok (y :: k)).
  destruct (Hf x) as [[y ->]| ->]; [left| |by right].
  cbn [mbind result_bind].
  destruct IH as [(k & -> & Hk)| ->]; [intros z Hz; apply Hf; by right| |by right].
  left. exists (y :: k). cbn. by rewrite Hk.
Qed.

Lemma mapM_raise {A B} (f : A → result B) (e : exn) (l : list A) :
  (∀ x, x ∈ l → (∃ y, f x = Ok y) ∨ f x = Raise e) →
  (∃ x, x ∈ l ∧ f x = Raise e) →
  mapM f l = Raise e.
Proof.
  intros Hf (x & Hx & Hfx).
  destruct (mapM_ok_or_raise f e l Hf) as [(k & Hk & _)|]; [|done].
  apply mapM_Forall2 in Hk. apply list_elem_of_lookup in Hx as [i Hi].
  destruct (Forall2_lookup_l _ _ _ _ _ Hk Hi) as (y & _ & Hy). congruence.
Qed.

(** X7.  An empty batch is refused: [max()] of an empty sequence raises
    [ValueError], whatever the model and the mode. *)
Theorem get_batch_empty_raises self decoding :
  get_batch self [] decoding = Raise ValueError.
Proof.
  unfold Batch.get_batch, Batch.batch_max_input_len.
  destruct (encoder_count self) as [|n]; [done|].
  by rewrite (mapM_raise _ ValueError (seq 0 (S n)));
    [|intros i _; by right|exists 0; split; [by left|done]].
Qed.

(** X8.  A sample with fewer sequences than the model has encoders (or
    with no sequence at all) makes [get_batch] raise [IndexError]. *)
Theorem get_batch_short_sample_raises self (data : list sample) decoding (d : sample) :
  d ∈ data → length d < encoder_count self ∨ d = [] →
  get_batch self data decoding = Raise IndexError.
Proof.
  intros Hd Hshort. unfold Batch.get_batch.
  assert (∀ i, (∃ m, (lens ← mapM (λ data_ : sample, length <$> Py.getitem data_ i) data;
                      Py.max_of lens) = Ok m) ∨
               (lens ← mapM (λ data_ : sample, length <$> Py.getitem data_ i) data;
                Py.max_of lens) = Raise IndexError) as Hinner.
  { intros i.
    destruct (mapM_ok_or_raise (λ data_ : sample, length <$> Py.getitem data_ i)
                IndexError data) as [(lens & -> & Hlens)| ->]; [| |by right].
    - intros x _. unfold Py.getitem. destruct (x !! i); cbn; eauto.
    - left. cbn. destruct lens as [|l lens]; [|by eexists].
      cbn in Hlens. by destruct data; [apply elem_of_nil in Hd|]. }
  destruct (decide (length d < encoder_count self)) as [Hlt|Hge].
  - unfold Batch.batch_max_input_len.
    rewrite (mapM_raise _ IndexError (seq 0 (encoder_count self))); [done| |].
    + intros i _. apply Hinner.
    + exists (length d). split; [apply elem_of_seq; lia|].
      rewrite (mapM_raise _ IndexError data); [done| |].
      * intros x _. unfold Py.getitem. destruct (x !! length d); cbn; eauto.
      * exists d. split; [done|]. unfold Py.getitem.
        by rewrite lookup_ge_None_2.
  - destruct Hshort as [?| ->]; [done|].
    destruct (mapM_ok_or_raise
                (λ i, lens ← mapM (λ data_ : sample, length <$> Py.getitem data_ i) data;
                      Py.max_of lens) IndexError (seq 0 (encoder_count self)))
      as [(mil & Hmil & _)|Hraise]; [intros i _; apply Hinner| |].
    + unfold Batch.batch_max_input_len. rewrite Hmil. cbn [mbind result_bind].
      rewrite (mapM_raise _ IndexError data); [done| |].
      * intros x _. unfold Py.getlast. destruct (last x); cbn; eauto.
      * by exists [].
    + unfold Batch.batch_max_input_len. by rewrite Hraise.
Qed.

(** *** The time-major arrays *)

(** Column [t + 1] of the rows without their last item is column [t]
    of the rows without their first item. *)
Lemma shifted_columns {A} (rows : list (list A)) n t :
  Forall (λ row, length row = n) rows → S (S t) < n →
  omap (λ row, row !! S t) (map (λ row, removelast row) rows)
  = omap (λ row, row !! t) (map (drop 1) rows).
Proof.
  intros Hrows Ht. induction Hrows as [|row rows Hrow _ IH]; [done|].
  cbn [map omap list_omap]. rewrite IH.
  rewrite BatchFacts.lookup_removelast by lia.
  by rewrite lookup_drop.
Qed.

Lemma length_dec_row_of self decoding mo (d : sample) :
  length (dec_row_of BOS_ID EOS_ID self decoding mo d)
  = if decoding then S (max_output_len self) else mo + 2.
Proof.
  unfold dec_row_of, dec_row. destruct decoding.
  - cbn. by rewrite length_replicate.
  - rewrite !length_app, length_replicate, length_take. cbn. lia.
Qed.

Lemma last_target_item self decoding mo (d : sample) n :
  length (dec_row_of BOS_ID EOS_ID self decoding mo d) = S (S n) →
  ∃ x, drop 1 (dec_row_of BOS_ID EOS_ID self decoding mo d) !! n = Some x ∧
       (if is_minus_one x then Tok EOS_ID else x) = Tok EOS_ID.
Proof.
  rewrite length_dec_row_of. unfold dec_row_of, dec_row. destruct decoding; intros Hn.
  - exists (Tok EOS_ID). split.
    + cbn. rewrite drop_0. apply lookup_replicate_2. lia.
    + cbn. by destruct (EOS_ID =? -1)%Z.
  - cbn [app drop]. rewrite drop_0.
    set (T := take mo (trg_of d)). assert (length T ≤ mo) as HT
      by (subst T; rewrite length_take; lia).
    destruct (decide (length T = mo)) as [Heq|Hne].
    + exists (Tok EOS_ID). split.
      * rewrite lookup_app_r by lia. replace (n - length T) with 0 by lia. done.
      * cbn. by destruct (EOS_ID =? -1)%Z.
    + exists (Tok (-1)%Z). split; [|done].
      rewrite lookup_app_r by lia.
      replace (n - length T) with (S (n - length T - 1)) by lia. cbn.
      apply lookup_replicate_2. lia.
Qed.

Lemma last_target_row self decoding mo n (ds : list sample) :
  Forall (λ row, length row = S (S n)) (map (dec_row_of BOS_ID EOS_ID self decoding mo) ds) →
  map (λ x, if is_minus_one x then Tok EOS_ID else x)
    (omap (λ row, row !! n)
       (map (drop 1) (map (dec_row_of BOS_ID EOS_ID self decoding mo) ds)))
  = replicate (length ds) (Tok EOS_ID).
Proof.
  induction ds as [|d ds IH]; intros Hrows; [done|].
  cbn [map] in Hrows. apply Forall_cons in Hrows as [Hd Hrows].
  destruct (last_target_item self decoding mo d n Hd) as (x & Hx & Hrep).
  cbn [map omap list_omap length replicate]. rewrite Hx. cbn.
  rewrite Hrep. f_equal. by apply IH.
Qed.

(** X9.  The targets are the decoder inputs one time step ahead: for
    every well-formed batch, in either mode, row [t] of the targets is
    row [t + 1] of the decoder inputs, both arrays have the same
    number of time steps, and the last row of the targets holds the
    end-of-sequence marker for every sample. *)
Theorem get_batch_targets_shifted self (data : list sample) decoding :
  well_formed self data →
  ∃ b, get_batch self data decoding = Ok b ∧
    length (batch_targets b) = length (batch_decoder_inputs b) ∧
    (∀ t, S t < length (batch_decoder_inputs b) →
          batch_targets b !! t = batch_decoder_inputs b !! S t) ∧
    (∀ row, last (batch_targets b) = Some row →
            row = replicate (length data) (Tok EOS_ID)).
Proof.
  intros Hwf.
  destruct (BatchFacts.get_batch_closed_form BOS_ID EOS_ID self data decoding Hwf)
    as (b & Hb & _ & _ & _ & Hdi & Htg & _).
  exists b. split; [done|]. cbn zeta in Hdi, Htg.
  set (mo := batch_output_len self data) in *.
  set (rows := map (dec_row_of BOS_ID EOS_ID self decoding mo) data) in *.
  set (n := if decoding then S (max_output_len self) else mo + 2).
  assert (Forall (λ row, length row = n) rows) as Hrows.
  { subst rows. apply Forall_forall. intros row (d & -> & _)%list_elem_of_fmap.
    apply length_dec_row_of. }
  assert (rows ≠ []) as Hne.
  { subst rows. destruct Hwf as [Hd _]. by destruct data. }
  assert (Forall (λ row, length row = n - 1) (map (λ row, removelast row) rows)) as Hin.
  { apply Forall_forall. intros row (r & -> & Hr)%list_elem_of_fmap.
    rewrite Forall_forall in Hrows. rewrite <- (Hrows r Hr).
    destruct r as [|x r] using rev_ind; [done|].
    rewrite removelast_last, length_app. cbn. lia. }
  assert (Forall (λ row, length row = n - 1) (map (drop 1) rows)) as Htr.
  { apply Forall_forall. intros row (r & -> & Hr)%list_elem_of_fmap.
    rewrite Forall_forall in Hrows. rewrite <- (Hrows r Hr), length_drop. done. }
  assert (map (λ row, removelast row) rows ≠ []) as Hne1 by (by destruct rows).
  assert (map (drop 1) rows ≠ []) as Hne2 by (by destruct rows).
  assert (length (batch_decoder_inputs b) = n - 1) as Hli.
  { by rewrite Hdi, length_map, (PyLists.transpose_length _ (n - 1)). }
  assert (length (batch_targets b) = n - 1) as Hlt.
  { by rewrite Htg, length_map, (PyLists.transpose_length _ (n - 1)). }
  split_and!.
  - lia.
  - intros t Ht. rewrite Htg, Hdi, !list_lookup_fmap.
    rewrite (PyLists.transpose_lookup _ (n - 1)) by (done || lia).
    rewrite (PyLists.transpose_lookup _ (n - 1)) by (done || lia).
    cbn. do 2 f_equal. symmetry. apply (shifted_columns rows n); [done|lia].
  - intros row Hlast.
    destruct (decide (n - 1 = 0)) as [H0|Hpos].
    { rewrite H0 in Hlt. by destruct (batch_targets b). }
    rewrite last_lookup, Hlt in Hlast.
    assert (n = S (S (n - 2))) as Hn by lia.
    replace (Init.Nat.pred (n - 1)) with (n - 2) in Hlast by lia.
    rewrite Htg, list_lookup_fmap, (PyLists.transpose_lookup _ (n - 1)) in Hlast
      by (done || lia).
    cbn in Hlast. injection Hlast as <-.
    apply last_target_row. by rewrite <- Hn.
Qed.

(** *** The encoder arrays and their effective lengths *)

(** X10.  For every well-formed batch, in either mode, the rows of each
    encoder's array have one common length (the array is rectangular),
    and the effective length recorded for a row lies between 1 and that
    common length, the row holding nothing but the pad item from the
    last counted position on: the effective length counts the (cut)
    sentence and exactly one end marker. *)
Theorem get_batch_lengths_in_range self (data : list sample) decoding :
  well_formed self data →
  ∃ b, get_batch self data decoding = Ok b ∧
    ∀ i enc, encoders self !! i = Some enc →
      ∃ rows lens time_steps,
        batch_encoder_inputs b !! i = Some rows ∧
        encoder_input_length b !! i = Some lens ∧
        length rows = length data ∧
        Forall (λ row : sentence, length row = time_steps) rows ∧
        Forall2 (λ (row : sentence) len,
                   1 ≤ len ≤ time_steps ∧
                   drop (len - 1) row
                   = replicate (time_steps - (len - 1)) (pad_of EOS_ID enc))
                rows lens.
Proof.
  intros Hwf.
  destruct (BatchFacts.get_batch_closed_form BOS_ID EOS_ID self data decoding Hwf)
    as (b & Hb & _ & _ & Henc & _).
  exists b. split; [done|]. intros i enc Hi.
  destruct (Henc i enc Hi) as [Hrows Hlens].
  set (m := batch_input_len self data i) in *.
  eexists _, _, (m + 1). split; [exact Hrows|]. split; [exact Hlens|].
  split; [by rewrite length_map|]. split.
  - apply Forall_forall. intros row (d & -> & _)%list_elem_of_fmap.
    apply BatchFacts.length_enc_row.
  - apply Forall2_fmap, Forall_Forall2_diag, Forall_forall. intros d _.
    assert (length (take m (d !!! i)) ≤ m) by (rewrite length_take; lia).
    split; [lia|]. unfold enc_row.
    replace (length (take m (d !!! i)) + 1 - 1) with (length (take m (d !!! i))) by lia.
    rewrite drop_app_length. f_equal. lia.
Qed.

End facts.

(** [get_batch_short_sample_raises] on a batch whose second sample is empty. *)
Lemma get_batch_short_sample_raises_witness :
  [] ∈ [[[Tok 3]; [Tok 4]]; []] ∧
  Batch.get_batch 2 1 scenario_model [[[Tok 3]; [Tok 4]]; []] false = Raise IndexError.
Proof.
  split; [by right; left|].
  apply (get_batch_short_sample_raises 2 1 scenario_model _ false []);
    [by right; left|by right].
Defined.

(** [get_batch_targets_shifted] on a batch of two samples. *)
Lemma get_batch_targets_shifted_witness :
  let data := [[[Tok 3; Tok 4]; [Tok 3; Tok 4]]; [[Tok 3]; [Tok 4]]] in
  Batch.well_formed scenario_model data ∧
  ∃ b, Batch.get_batch 2 1 scenario_model data false = Ok b ∧
    length (batch_targets b) = length (batch_decoder_inputs b) ∧
    ∀ t, S t < length (batch_decoder_inputs b) →
         batch_targets b !! t = batch_decoder_inputs b !! S t.
Proof.
  assert (Batch.well_formed scenario_model
            [[[Tok 3; Tok 4]; [Tok 3; Tok 4]]; [[Tok 3]; [Tok 4]]]) as Hwf.
  { split; [done|]. by repeat constructor. }
  split; [exact Hwf|].
  destruct (get_batch_targets_shifted 2 1 scenario_model _ false Hwf)
    as (b & Hb & Hlen & Hshift & _).
  by exists b.
Defined.

(** [get_batch_lengths_in_range] on a batch of two samples. *)
Lemma get_batch_lengths_in_range_witness :
  let data := [[[Tok 3; Tok 4]; [Tok 3; Tok 4]]; [[Tok 3]; [Tok 4]]] in
  Batch.well_formed scenario_model data ∧
  ∃ b, Batch.get_batch 2 1 scenario_model data false = Ok b ∧
    ∃ rows lens time_steps,
      batch_encoder_inputs b !! 0 = Some rows ∧
      encoder_input_length b !! 0 = Some lens ∧
      Forall2 (λ (row : sentence) len, 1 ≤ len ≤ time_steps) rows lens.
Proof.
  assert (Batch.well_formed scenario_model
            [[[Tok 3; Tok 4]; [Tok 3; Tok 4]]; [[Tok 3]; [Tok 4]]]) as Hwf.
  { split; [done|]. by repeat constructor. }
  split; [exact Hwf|].
  destruct (get_batch_lengths_in_range 2 1 scenario_model _ false Hwf) as (b & Hb & Hall).
  destruct (Hall 0 scenario_encoder eq_refl)
    as (rows & lens & time_steps & Hrows & Hlens & _ & _ & Hrange).
  exists b. split; [done|]. exists rows, lens, time_steps. split_and!; [done|done|].
  eapply Forall2_impl; [exact Hrange|]. by intros row len [? _].
Defined.

End BatchEdge.

(** ** The decoder loop: what it emits and what it feeds back *)

Module DecoderLoop.
Section facts.

Context {Enc State Emb Ctx Weights Hidden Logits Output : Type}.
Context (initial_state_projection : Enc → State).
Context (initial_weights : Enc → Weights).
Context (embed : item → Emb).
Context (attention_ : Enc → State → Weights → Ctx * Weights).
Context (maxout : State → Emb → Ctx → Hidden).
Context (softmax1 : Hidden → Logits).
Context (argmax : Logits → nat).
Context (multinomial : Logits → nat → nat).
Context (cell : Emb → Ctx → State → Output * State).
Context (zero_output : Output).

Import Decoder.
Abbreviation loop_vars := (@Decoder.loop_vars State Emb Weights Hidden Logits Output).
Abbreviation _time_step :=
  (Decoder._time_step embed attention_ maxout softmax1 argmax multinomial cell zero_output).
Abbreviation advance :=
  (Decoder.advance embed attention_ maxout softmax1 cell zero_output).
Abbreviation logits_of := (Decoder.logits_of attention_ maxout softmax1).
Abbreviation attention_decoder :=
  (Decoder.attention_decoder initial_state_projection initial_weights embed attention_
     maxout softmax1 argmax multinomial cell zero_output).

Abbreviation selected := (DecoderPolicy.selected argmax multinomial).

(** After [k] steps the loop has written [k] entries to each array. *)
Lemma steps_arrays enc (inputs : list item) sl fp fa rand noise (v0 : loop_vars) :
  time v0 = 0 → proj_outputs v0 = [] → decoder_outputs v0 = [] →
  samples v0 = [] → weights v0 = [] →
  ∀ k, k ≤ length inputs →
  ∃ vk : loop_vars,
    steps (_time_step enc inputs (length inputs) sl fp fa rand noise) k v0 = Ok vk ∧
    time vk = k ∧
    length (proj_outputs vk) = k ∧ length (decoder_outputs vk) = k ∧
    length (samples vk) = k ∧ length (weights vk) = k ∧
    ∀ j logits, proj_outputs vk !! j = Some logits →
      samples vk !! j = selected inputs fp fa rand noise j logits.
Proof.
  intros Ht Hp Hd Hs Hw. induction k as [|k IH]; intros Hk.
  - exists v0. rewrite Hp, Hd, Hs, Hw. by split_and!.
  - destruct IH as (vk & Hsteps & Htime & Hlp & Hld & Hls & Hlw & Hsel); [lia|].
    cbn [steps]. rewrite Hsteps. cbn [mbind result_bind].
    rewrite DecoderFacts.time_step_eq. rewrite Htime.
    assert (∃ x, (if (Z.of_nat k <? Z.of_nat (length inputs) - 1)%Z
                     && Qle_bool fp (rand k)
                  then Py.getitem inputs (k + 1)
                  else if negb fa
                       then Ok (Tok (Z.of_nat (multinomial (logits_of enc vk) (noise k))))
                       else Ok (Tok (Z.of_nat (argmax (logits_of enc vk))))) = Ok x ∧
                 selected inputs fp fa rand noise k (logits_of enc vk) = Some x)
      as (x & -> & Hx).
    { unfold DecoderPolicy.selected.
      destruct (Z.ltb_spec (Z.of_nat k) (Z.of_nat (length inputs) - 1)) as [Hlt|Hge].
      - destruct (Nat.ltb_spec (S k) (length inputs)); [|lia].
        destruct (Qle_bool fp (rand k)); cbn [andb].
        + destruct (lookup_lt_is_Some_2 inputs (S k)) as [x Hx]; [lia|].
          exists x. unfold Py.getitem. by rewrite Nat.add_1_r, Hx.
        + destruct (negb fa); eauto.
      - destruct (Nat.ltb_spec (S k) (length inputs)); [lia|]. cbn [andb].
        destruct (negb fa); eauto. }
    cbn [mbind result_bind]. eexists. split; [done|].
    unfold Decoder.advance. cbn [time proj_outputs decoder_outputs samples weights].
    rewrite !length_app, Htime, Hlp, Hld, Hls, Hlw. cbn [length].
    split_and!; try lia.
    intros j logits Hj.
    destruct (decide (j < k)) as [Hlt|Hge].
    + rewrite lookup_app_l in Hj by lia. rewrite lookup_app_l by lia. by apply Hsel.
    + assert (j = k) as ->.
      { apply lookup_lt_Some in Hj. rewrite length_app, Hlp in Hj. cbn in Hj. lia. }
      rewrite lookup_app_r in Hj by lia. rewrite lookup_app_r by lia.
      rewrite Hlp, Nat.sub_diag in Hj. rewrite Hls, Nat.sub_diag.
      cbn in Hj. injection Hj as <-. cbn. by rewrite Hx.
Qed.

Lemma attention_decoder_runs enc (inputs : list item) sl fp fa rand noise :
  inputs ≠ [] →
  ∃ v : loop_vars,
    attention_decoder enc inputs sl fp fa rand noise = Ok v ∧
    time v = length inputs ∧
    length (proj_outputs v) = length inputs ∧
    length (decoder_outputs v) = length inputs ∧
    length (samples v) = length inputs ∧
    length (weights v) = length inputs ∧
    ∀ j logits, proj_outputs v !! j = Some logits →
      samples v !! j = selected inputs fp fa rand noise j logits.
Proof.
  intros Hne. unfold Decoder.attention_decoder.
  destruct inputs as [|first inputs]; [done|].
  cbn [Py.getitem lookup list_lookup mbind result_bind].
  set (ins := first :: inputs).
  rewrite DecoderFacts.while_loop_steps.
  - by apply steps_arrays.
  - intros v v' Hv. by destruct (DecoderFacts.time_step_time _ _ _ _ _ _ _ _ _ _ _ _ _ _ _
                                    _ _ _ Hv).
  - done.
Qed.

(** X11.  Given at least one decoder input, the loop of
    [attention_decoder] runs once per input time step and raises no
    error, for every sequence length, feeding probability and random
    draw: it emits one logits vector, one hidden output, one sample and
    one attention snapshot per step, and the sample of step [j] is the
    next ground-truth input when [j] is not the last step and the draw
    is at least [feed_previous], and otherwise the argmax of the step's
    logits (or a multinomial draw from them when [feed_argmax] is off).
    The inputs are never read past their end. *)
Theorem attention_decoder_policy enc (inputs : list item) sl fp fa rand noise :
  inputs ≠ [] →
  ∃ v : loop_vars,
    attention_decoder enc inputs sl fp fa rand noise = Ok v ∧
    time v = length inputs ∧
    length (proj_outputs v) = length inputs ∧
    length (decoder_outputs v) = length inputs ∧
    length (samples v) = length inputs ∧
    length (weights v) = length inputs ∧
    ∀ j logits, proj_outputs v !! j = Some logits →
      samples v !! j = selected inputs fp fa rand noise j logits.
Proof. apply attention_decoder_runs. Qed.

(** *** Samples that are shorter than the batch *)

Lemma advance_frozen enc s x (v : loop_vars) :
  s ≤ time v →
  state (advance enc (Some s) x v) = state v ∧
  output (advance enc (Some s) x v) = zero_output.
Proof.
  intros Hs. unfold Decoder.advance. cbn [state output].
  destruct (Nat.leb_spec s (time v)); [done|lia].
Qed.

(** X12.  Once the time step has reached the sample's sequence length
    the recurrent cell is no longer applied: every later step leaves
    the decoder state as it is and outputs zeros (the copy-through of
    the RNN step), whatever is fed. *)
Theorem state_frozen_after_length enc (inputs : list item) time_steps s fp fa rand noise
    (v0 vs : loop_vars) :
  time v0 = 0 →
  steps (_time_step enc inputs time_steps (Some s) fp fa rand noise) s v0 = Ok vs →
  ∀ k (vk : loop_vars), s < k →
    steps (_time_step enc inputs time_steps (Some s) fp fa rand noise) k v0 = Ok vk →
    state vk = state vs ∧ output vk = zero_output.
Proof.
  intros Ht Hs.
  assert (∀ k (vk : loop_vars),
            steps (_time_step enc inputs time_steps (Some s) fp fa rand noise) k v0 = Ok vk →
            time vk = k) as Htime.
  { induction k as [|k IH]; intros vk Hk; cbn in Hk; [by simplify_eq|].
    apply bind_Ok_inv in Hk as (v' & Hv' & Hk).
    destruct (DecoderFacts.time_step_time _ _ _ _ _ _ _ _ _ _ _ _ _ _ _ _ _ _ Hk)
      as [-> _].
    rewrite (IH v' Hv'). lia. }
  induction k as [|k IH]; intros vk Hk Hsteps; [lia|].
  cbn [steps] in Hsteps. apply bind_Ok_inv in Hsteps as (v' & Hv' & Hstep).
  rewrite DecoderFacts.time_step_eq in Hstep.
  apply bind_Ok_inv in Hstep as (x & _ & Hstep). injection Hstep as <-.
  destruct (advance_frozen enc s x v') as [Hst Hout]; [rewrite (Htime k v' Hv'); lia|].
  rewrite Hst, Hout. split; [|done].
  destruct (decide (s = k)) as [->|Hne].
  - rewrite Hs in Hv'. by injection Hv' as ->.
  - by destruct (IH v') as [-> _]; [lia|done|].
Qed.

End facts.

(** [attention_decoder_policy] on the toy decoder with three inputs. *)
Lemma attention_decoder_policy_witness :
  [Tok 2; Tok 3; Tok 4] ≠ [] ∧
  ∃ v, ToyLoop.attention_decoder 5 [Tok 2; Tok 3; Tok 4] (Some 3) (1 # 2)%Q true
         (λ t, (Z.of_nat t # 3)%Q) (λ _, 0) = Ok v ∧
       length (Decoder.samples v) = 3.
Proof.
  split; [done|].
  destruct (attention_decoder_policy (λ enc : nat, enc) (λ _ : nat, 0) Toy.embed
              Toy.attention_ Toy.maxout Toy.softmax1 Toy.argmax Toy.multinomial Toy.cell 0
              5 [Tok 2; Tok 3; Tok 4] (Some 3) (1 # 2)%Q true
              (λ t, (Z.of_nat t # 3)%Q) (λ _, 0))
    as (v & Hv & _ & _ & _ & Hs & _); [done|].
  by exists v.
Defined.

(** [state_frozen_after_length] on the toy decoder: a sample of length 1
    in a loop of three steps. *)
Lemma state_frozen_after_length_witness :
  Decoder.time ToyLoop.initial = 0 ∧ 1 < 3 ∧
  ∃ vs vk,
    Decoder.steps (ToyLoop._time_step 5 [Tok 2; Tok 3; Tok 4] 3 (Some 1) 1%Q true
                     (λ _, 0%Q) (λ _, 0)) 1 ToyLoop.initial = Ok vs ∧
    Decoder.steps (ToyLoop._time_step 5 [Tok 2; Tok 3; Tok 4] 3 (Some 1) 1%Q true
                     (λ _, 0%Q) (λ _, 0)) 3 ToyLoop.initial = Ok vk ∧
    Decoder.state vk = Decoder.state vs ∧ Decoder.output vk = 0.
Proof.
  split; [done|]. split; [lia|].
  eexists _, _. split; [reflexivity|]. split; [reflexivity|].
  apply (state_frozen_after_length Toy.embed Toy.attention_ Toy.maxout Toy.softmax1
           Toy.argmax Toy.multinomial Toy.cell 0 5 [Tok 2; Tok 3; Tok 4] 3 1 1%Q true
           (λ _, 0%Q) (λ _, 0) ToyLoop.initial _ eq_refl eq_refl 3); [lia|reflexivity].
Defined.

End DecoderLoop.

(** ** The constructor without attention *)

Module GraphEdge.
Section facts.

Context {Tensor : Type}.
Context (encoder_rnn : encoder_config → option Tensor → Tensor → Tensor → Tensor).
Context (first_backward_annotation : nat → Tensor → Tensor).
Context (last_annotation : Tensor → Tensor).
Context (concat : list Tensor → Tensor).
Context (decoder_loop :
  decoder_config → list encoder_config → Tensor → list Tensor → Tensor →
  list Tensor → option Tensor → Graph.decoder_graph (Tensor:=Tensor)).

Abbreviation init :=
  (Graph.init encoder_rnn first_backward_annotation last_annotation concat decoder_loop).

(** X14.  With [attention=False] the constructor calls
    [decoders.decoder], which raises [NotImplementedError]: when the
    placeholders match a non-empty list of encoders, that is the
    exception the constructor raises. *)
Theorem init_without_attention_not_implemented x xs e es l ls ph decoder_cfg dropout :
  Graph.p_encoder_inputs ph = x :: xs →
  Graph.p_encoder_input_length ph = l :: ls →
  length xs = length es →
  init (e :: es) decoder_cfg dropout false ph = Raise NotImplementedError.
Proof.
  intros Hx Hl Hlen. unfold Graph.init. rewrite Hx, Hl.
  by rewrite GraphFacts.multi_encoder_first_only.
Qed.

(** X15.  The constructor of [Seq2SeqModel] returns for no
    configuration: with attention the decoder's five values are unpacked
    into four names (when the decoder is built at all), without
    attention the decoder is not implemented, and before that
    [multi_encoder] may fail or return [None]. *)
Theorem init_never_returns encoders decoder_cfg dropout attention ph :
  raises (init encoders decoder_cfg dropout attention ph).
Proof.
  unfold Graph.init, raises.
  destruct (Graph.multi_encoder _ _ _ _ _ _ _ _) as [[[states state]|]|e];
    cbn; [|by eexists..].
  destruct attention; [|by eexists].
  unfold Graph.attention_decoder.
  destruct (negb _); cbn; [by eexists|].
  destruct (mapM _ _); cbn; by eexists.
Qed.

End facts.

(** [init_without_attention_not_implemented] on a toy graph with one encoder. *)
Lemma init_without_attention_not_implemented_witness :
  Graph.p_encoder_inputs ToyGraph.placeholders = [10] ∧
  Graph.p_encoder_input_length ToyGraph.placeholders = [11] ∧
  ToyGraph.init [scenario_encoder] ToyGraph.decoder None false ToyGraph.placeholders
  = Raise NotImplementedError.
Proof.
  split; [done|]. split; [done|].
  by apply (init_without_attention_not_implemented ToyGraph.encoder_rnn
              ToyGraph.first_backward_annotation ToyGraph.last_annotation ToyGraph.concat
              ToyGraph.decoder_loop 10 [] scenario_encoder [] 11 []).
Defined.

End GraphEdge.

(** ** The REINFORCE step: what is handed to the reward *)

Module ReinforceFacts.
Section facts.

Context (BOS_ID EOS_ID : Z).
Import Reinforce.

(** [(np.arange(time_steps) <= i).astype(np.float32)]. *)
Lemma step_weights i n : ∀ a,
  map (λ t, if t <=? i then 1%Q else 0%Q) (seq a n)
  = replicate (Nat.min n (S i - a)) 1%Q ++ replicate (n - (S i - a)) 0%Q.
Proof.
  induction n as [|n IH]; intros a; [done|].
  cbn [seq map]. rewrite IH. destruct (Nat.leb_spec a i).
  - replace (S i - a) with (S (S i - S a)) by lia. done.
  - replace (S i - a) with 0 by lia. replace (S i - S a) with 0 by lia.
    rewrite !Nat.min_0_r, !Nat.sub_0_r. done.
Qed.

(** X16.  The hypothesis handed to the reward is the sampled output up
    to and including its first end-of-sequence token (the whole output
    when it has none), the weights of the sample are 1 on exactly these
    positions and 0 after them, and the reference is the target cut
    to the sample's decoder length. *)
Theorem cut_sample_spec (output_ : list Z) (target_ : list item) (length_ : nat) :
  ∃ kept dropped,
    output_ = kept ++ dropped ∧
    Reinforce.cut_sample EOS_ID output_ target_ length_
    = (replicate (length kept) 1%Q ++ replicate (length dropped) 0%Q,
       (kept, take length_ target_)) ∧
    (((EOS_ID ∉ output_) ∧ dropped = []) ∨
     (∃ pre, kept = pre ++ [EOS_ID] ∧ (EOS_ID ∉ pre))).
Proof.
  unfold Reinforce.cut_sample.
  destruct (PyLists.where_equal_first output_ EOS_ID)
    as [[Hnot ->]|(pre & post & rest & -> & Hpre & ->)].
  - exists output_, []. split_and!; [by rewrite app_nil_r|cbn; by rewrite app_nil_r|by left].
  - exists (pre ++ [EOS_ID]), post. split_and!.
    + by rewrite <- (assoc_L (++)).
    + f_equal; [|f_equal].
      * rewrite step_weights, !length_app. cbn [length]. f_equal; f_equal; lia.
      * rewrite Nat.add_1_r, (cons_middle EOS_ID pre post), (assoc_L (++)).
        rewrite take_app_length'; [done|]. rewrite length_app. cbn. lia.
    + right. by exists pre.
Qed.

(** *** The reference of each sample *)

Lemma cut_sample_target (output_ : list Z) (target_ : list item) (length_ : nat) :
  (Reinforce.cut_sample EOS_ID output_ target_ length_).2.2 = take length_ target_.
Proof. unfold Reinforce.cut_sample. by destruct (Bleu.where_equal _ _). Qed.

Lemma cuts_targets (os : list (list Z)) : ∀ (tls : list (list item * nat)),
  length os = length tls →
  map (λ c : list Q * (list Z * list item), c.2.2)
      (zip_with (λ output_ tl, Reinforce.cut_sample EOS_ID output_ tl.1 tl.2) os tls)
  = map (λ tl, take tl.2 tl.1) tls.
Proof.
  induction os as [|o os IH]; intros [|tl tls] Hlen; try done.
  cbn [zip_with map]. rewrite cut_sample_target. f_equal. apply IH.
  cbn in Hlen. lia.
Qed.

Lemma zip_map_same {A B C} (f : A → B) (g : A → C) (l : list A) :
  zip (map f l) (map g l) = map (λ x, (f x, g x)) l.
Proof. induction l as [|x l IH]; [done|]. cbn. by rewrite IH. Qed.

(** X17.  In [reinforce_step] the reference handed to the reward for a
    sample is its target sentence, cut to the output length of the
    batch and followed by exactly one end-of-sequence token: none of the
    padding of the batch reaches the reward. *)
Theorem reinforce_reference self (data : list sample) (outputs : list (list Z)) :
  Batch.well_formed self data →
  Forall (λ d, Forall (λ x, Batch.is_minus_one x = false) (Batch.trg_of d)) data →
  outputs ≠ [] → Forall (λ row, length row = length data) outputs →
  ∃ b, Batch.get_batch BOS_ID EOS_ID self data false = Ok b ∧
    map (λ c : list Q * (list Z * list item), c.2.2) (Reinforce.cuts EOS_ID b outputs)
    = map (λ d, take (Batch.batch_output_len self data) (Batch.trg_of d) ++ [Tok EOS_ID])
          data.
Proof.
  intros Hwf Htrg Hne Hout.
  destruct (BatchFacts.get_batch_closed_form BOS_ID EOS_ID self data false Hwf)
    as (b & Hb & _ & _ & _ & _ & Hdt & _ & Hdl).
  exists b. split; [done|]. cbn zeta in Hdt, Hdl.
  set (mo := Batch.batch_output_len self data) in *.
  assert (batch_targets b = Py.transpose (map (Batch.dec_target_row EOS_ID mo) data))
    as Htargets.
  { rewrite Hdt, BatchFacts.transpose_map, !map_map. f_equal.
    apply map_ext_in. intros d Hd%list_elem_of_In.
    apply BatchFacts.replace_dec_target_row.
    rewrite Forall_forall in Htrg. by apply Htrg. }
  assert (data ≠ []) as Hdata by apply Hwf.
  unfold Reinforce.cuts. rewrite Htargets, Hdl.
  rewrite (PyLists.transpose_involutive _ (mo + 1)).
  - rewrite zip_map_same, cuts_targets.
    + rewrite map_map. apply map_ext. intros d. cbn [fst snd].
      unfold Batch.dec_len_of, Batch.dec_target_row.
      rewrite (assoc_L (++)), Nat.add_1_r.
      rewrite take_app_length'; [done|]. rewrite length_app. cbn. lia.
    + rewrite (PyLists.transpose_length outputs (length data)) by done.
      by rewrite length_map.
  - by destruct data.
  - lia.
  - apply Forall_forall. intros row (d & -> & _)%list_elem_of_fmap.
    unfold Batch.dec_target_row. rewrite !length_app, length_replicate, length_take.
    cbn. lia.
Qed.

End facts.

(** [reinforce_reference] on a batch of two samples and three sampled steps. *)
Lemma reinforce_reference_witness :
  let data := [[[Tok 3; Tok 4]; [Tok 3; Tok 4]]; [[Tok 3]; [Tok 4]]] in
  let outputs := [[1; 3]; [3; 1]; [4; 4]]%Z in
  Batch.well_formed scenario_model data ∧
  Forall (λ row, length row = length data) outputs ∧
  ∃ b, Batch.get_batch 2 1 scenario_model data false = Ok b ∧
    map (λ c : list Q * (list Z * list item), c.2.2) (Reinforce.cuts 1 b outputs)
    = [[Tok 3; Tok 4; Tok 1]; [Tok 4; Tok 1]].
Proof.
  assert (Batch.well_formed scenario_model
            [[[Tok 3; Tok 4]; [Tok 3; Tok 4]]; [[Tok 3]; [Tok 4]]]) as Hwf.
  { split; [done|]. by repeat constructor. }
  split; [exact Hwf|]. split; [by repeat constructor|].
  destruct (reinforce_reference 2 1 scenario_model _ [[1; 3]; [3; 1]; [4; 4]]%Z Hwf)
    as (b & Hb & Href); [by repeat constructor|done|by repeat constructor|].
  exists b. split; [done|]. exact Href.
Defined.

End ReinforceFacts.

(** ** Attention: what padding cannot change, and the mass of local attention *)

Module AttentionMore.
Import Attention.
Local Open Scope R_scope.

Lemma reduce_sum_exp_shift (l : list R) (m : R) :
  reduce_sum (map (λ x, exp (x - m)) l) = reduce_sum (map exp l) * exp (- m).
Proof.
  induction l as [|x l IH]; [unfold reduce_sum; cbn; lra|].
  cbn [map]. rewrite !AttentionFacts.reduce_sum_cons, IH.
  unfold Rminus. rewrite exp_plus. lra.
Qed.

(** The stabilizing shift cancels: the weights of the counted
    positions are the plain softmax of their energies. *)
Lemma global_attention_unshifted e len :
  global_attention e len
  = map (λ x, exp x / reduce_sum (map exp (take len e))) (take len e)
    ++ replicate (length e - len) 0.
Proof.
  rewrite AttentionFacts.global_attention_closed. cbn zeta. f_equal.
  set (m := reduce_max e).
  rewrite reduce_sum_exp_shift.
  destruct (take len e) as [|x0 l] eqn:Hl; [done|]. rewrite <- Hl.
  assert (0 < reduce_sum (map exp (take len e))) as Hpos.
  { apply AttentionFacts.reduce_sum_pos; [by rewrite Hl|apply exp_pos]. }
  apply map_ext. intros x. unfold Rminus. rewrite exp_plus.
  pose proof (exp_pos (- m)). field. split; lra.
Qed.

(** *** Padding and the context vector *)

Lemma compute_energy_take hidden y k v n :
  take n (Energy.compute_energy hidden y k v) = Energy.compute_energy (take n hidden) y k v.
Proof. unfold Energy.compute_energy. by rewrite firstn_map. Qed.

Lemma compute_energy_length hidden y k v :
  length (Energy.compute_energy hidden y k v) = length hidden.
Proof. unfold Energy.compute_energy. by rewrite length_map. Qed.

Lemma take_length_take {A} (l : list A) n : take (length (take n l)) l = take n l.
Proof.
  rewrite length_take. destruct (Nat.min_spec n (length l)) as [[_ ->]|[? ->]]; [done|].
  by rewrite firstn_all, take_ge by lia.
Qed.

(** Hidden states that carry the weight 0 add nothing to the sum. *)
Lemma weighted_sum_masked (d : nat) (ws : list R) : ∀ (n : nat) (hs : list (list R)),
  reduce_sum (zip_with (λ w h, w * nth d h 0) (ws ++ replicate n 0) hs)
  = reduce_sum (zip_with (λ w h, w * nth d h 0) ws (take (length ws) hs)).
Proof.
  induction ws as [|w ws IH]; intros n hs.
  - cbn [app length take zip_with]. revert hs.
    induction n as [|n IHn]; intros [|h hs]; try done.
    cbn [replicate zip_with]. rewrite AttentionFacts.reduce_sum_cons, IHn.
    unfold reduce_sum. cbn. lra.
  - destruct hs as [|h hs]; [done|].
    cbn [app length take zip_with]. rewrite !AttentionFacts.reduce_sum_cons.
    by rewrite IH.
Qed.

(** X18.  In global attention (without attention filters), for a
    source length of at least 1 and as long as the largest energy is
    that of a source position, the hidden states at and after the
    source length of a sample change neither the weights nor the
    context vector: their energies do not change the stabilizing shift
    and their weights are zero.  (With the largest energy at a padded
    position the shift cancels on real numbers, but in [float32] the
    exponentials of the source positions can all underflow.) *)
Theorem global_attention_ignores_padding y (hs hs' : list (list R)) k v len size :
  (1 ≤ len ≤ length hs)%nat →
  reduce_max (Energy.compute_energy hs y k v)
  = reduce_max (take len (Energy.compute_energy hs y k v)) →
  reduce_max (Energy.compute_energy hs' y k v)
  = reduce_max (take len (Energy.compute_energy hs' y k v)) →
  length hs = length hs' → take len hs = take len hs' →
  Energy.global_attention y hs k v len size = Energy.global_attention y hs' k v len size.
Proof.
  intros _ _ _ Hlen Htake. unfold Energy.global_attention.
  set (e := Energy.compute_energy hs y k v).
  set (e' := Energy.compute_energy hs' y k v).
  assert (take len e = take len e') as Hte.
  { subst e e'. by rewrite !compute_energy_take, Htake. }
  assert (length e = length e') as Hle.
  { subst e e'. by rewrite !compute_energy_length. }
  assert (global_attention e len = global_attention e' len) as Hw.
  { by rewrite !global_attention_unshifted, Hte, Hle. }
  rewrite <- Hw. f_equal.
  rewrite global_attention_unshifted.
  set (ws := map _ (take len e)).
  assert (length ws = length (take len hs)) as Hws.
  { subst ws e. by rewrite length_map, compute_energy_take, compute_energy_length. }
  unfold Energy.weighted_average. apply map_ext. intros d.
  rewrite !weighted_sum_masked, Hws.
  assert (take (length (take len hs)) hs' = take len hs') as ->
    by (rewrite Htake; apply take_length_take).
  by rewrite take_length_take, Htake.
Qed.

(** *** The mass of local attention *)

Lemma softmax_sum (l : list R) : l ≠ [] → reduce_sum (softmax l) = 1.
Proof.
  intros Hl. unfold softmax.
  assert (0 < reduce_sum (map exp l)) as Hpos
    by (apply AttentionFacts.reduce_sum_pos; [done|apply exp_pos]).
  rewrite <- (map_map exp (λ x, x / reduce_sum (map exp l))).
  rewrite AttentionFacts.reduce_sum_div. field. lra.
Qed.

Lemma tapered_sum_le (ws ds : list R) :
  Forall (λ w, 0 < w) ws → Forall (λ d, d <= 0) ds →
  reduce_sum (zip_with (λ w d, w * exp d) ws ds) <= reduce_sum ws.
Proof.
  intros Hws. revert ds. induction Hws as [|w ws Hw Hws IH]; intros ds Hds.
  - cbn. lra.
  - assert (0 <= reduce_sum ws) as Hnn.
    { clear -Hws. induction Hws as [|x l Hx _ IH]; [unfold reduce_sum; cbn; lra|].
      rewrite AttentionFacts.reduce_sum_cons. lra. }
    destruct Hds as [|d ds Hd Hds].
    + cbn [zip_with]. rewrite AttentionFacts.reduce_sum_cons.
      unfold reduce_sum at 1. cbn. lra.
    + cbn [zip_with]. rewrite !AttentionFacts.reduce_sum_cons.
      specialize (IH ds Hds).
      assert (exp d <= 1).
      { rewrite <- exp_0. destruct Hd as [Hd| ->]; [|lra].
        left. by apply exp_increasing. }
      nra.
Qed.

(** X19.  The weights of local attention, for a window size of at
    least 1 over at least one source position, are positive and sum to
    at most 1: they are a softmax, which sums to 1, multiplied
    position by position by a Gaussian factor of at most 1, and they are
    not renormalized. *)
Theorem local_attention_mass (e : list R) (z : R) (window : nat) :
  e ≠ [] → (1 ≤ window)%nat →
  0 < reduce_sum (local_attention e z window) <= 1.
Proof.
  intros He Hwin. unfold local_attention.
  set (pt := aligned_position (length e) z).
  set (l := zip_with Rmult e (local_mask (length e) z window)).
  set (sigma := INR window / 2).
  assert (0 < sigma ^ 2) as Hsigma.
  { assert (1 <= INR window) by (change 1 with (INR 1); by apply le_INR).
    subst sigma. nra. }
  assert (length l = length e) as Hl.
  { subst l. unfold local_mask.
    rewrite length_zip_with, !length_map, length_zip_with, !length_map, length_seq. lia. }
  assert (l ≠ []) as Hne by (intros Hnil; rewrite Hnil in Hl; by destruct e).
  set (div := map (λ n, n / sigma ^ 2) _).
  assert (Forall (λ d, d <= 0) div) as Hdiv.
  { subst div. apply Forall_forall.
    intros d (n & -> & (i & -> & _)%list_elem_of_fmap)%list_elem_of_fmap.
    assert (0 <= (i - pt) ^ 2) by apply pow2_ge_0.
    assert (0 < / sigma ^ 2) by (by apply Rinv_0_lt_compat).
    unfold Rdiv. nra. }
  assert (Forall (λ w, 0 < w) (softmax l)) as Hsoft.
  { apply Forall_forall. intros w [j Hj]%list_elem_of_lookup.
    by eapply AttentionFacts.softmax_pos. }
  split.
  - assert (length (zip_with (λ w d, w * exp d) (softmax l) div) = length e) as Hlen.
    { subst div. unfold softmax.
      rewrite length_zip_with, !length_map, length_seq. lia. }
    assert (Forall (λ x, 0 < x) (zip_with (λ w d, w * exp d) (softmax l) div)) as Hpos.
    { apply Forall_forall. intros x [j Hj]%list_elem_of_lookup.
      apply lookup_zip_with_Some in Hj as (w & d & -> & Hw & _).
      apply AttentionFacts.softmax_pos in Hw. pose proof (exp_pos d). nra. }
    destruct Hpos as [|x xs Hx Hxs]; [by destruct e|].
    rewrite AttentionFacts.reduce_sum_cons.
    assert (0 <= reduce_sum xs); [|lra].
    clear -Hxs. induction Hxs as [|y l Hy _ IH]; [unfold reduce_sum; cbn; lra|].
    rewrite AttentionFacts.reduce_sum_cons. lra.
  - rewrite <- (softmax_sum l Hne). by apply tapered_sum_le.
Qed.

(** [global_attention_ignores_padding] on two positions of which the
    first is a source position. *)
Lemma global_attention_ignores_padding_witness :
  (1 ≤ 1 ≤ length [[1]; [2]])%nat ∧
  reduce_max (Energy.compute_energy [[1]; [2]] [0] [[0]] [1])
  = reduce_max (take 1 (Energy.compute_energy [[1]; [2]] [0] [[0]] [1])) ∧
  reduce_max (Energy.compute_energy [[1]; [5]] [0] [[0]] [1])
  = reduce_max (take 1 (Energy.compute_energy [[1]; [5]] [0] [[0]] [1])) ∧
  length [[1]; [2]] = length [[1]; [5]] ∧
  take 1 [[1]; [2]] = take 1 [[1]; [5]] ∧
  Energy.global_attention [0] [[1]; [2]] [[0]] [1] 1 1
  = Energy.global_attention [0] [[1]; [5]] [[0]] [1] 1 1.
Proof.
  assert (∀ h : R, Energy.compute_energy [[1]; [h]] [0] [[0]] [1]
                   = [1 * tanh 0 + 0; 1 * tanh 0 + 0]) as He.
  { intros h. unfold Energy.compute_energy, Energy.matmul, reduce_sum. cbn.
    repeat f_equal; lra. }
  assert (∀ x : R, reduce_max [x; x] = reduce_max (take 1 [x; x])) as Hmax.
  { intros x. unfold reduce_max. cbn. apply Rmax_left. lra. }
  assert (1 ≤ 1 ≤ length [[1]; [2]])%nat as Hlen by (cbn; lia).
  assert (reduce_max (Energy.compute_energy [[1]; [2]] [0] [[0]] [1])
          = reduce_max (take 1 (Energy.compute_energy [[1]; [2]] [0] [[0]] [1]))) as H2
    by (rewrite He; apply Hmax).
  assert (reduce_max (Energy.compute_energy [[1]; [5]] [0] [[0]] [1])
          = reduce_max (take 1 (Energy.compute_energy [[1]; [5]] [0] [[0]] [1]))) as H5
    by (rewrite He; apply Hmax).
  split; [exact Hlen|]. split; [exact H2|]. split; [exact H5|].
  split; [reflexivity|]. split; [reflexivity|].
  exact (global_attention_ignores_padding [0] [[1]; [2]] [[1]; [5]] [[0]] [1] 1 1
           Hlen H2 H5 eq_refl eq_refl).
Defined.

(** [local_attention_mass] on four positions and a window of size 1. *)
Lemma local_attention_mass_witness :
  [0; 0; 0; 0] ≠ [] ∧ (1 ≤ 1)%nat ∧
  0 < reduce_sum (local_attention [0; 0; 0; 0] 0 1) <= 1.
Proof.
  split; [done|]. split; [done|].
  by apply (local_attention_mass [0; 0; 0; 0] 0 1).
Defined.

End AttentionMore.

(** ** The losses: sign, masked positions and the guard of the average *)

Module LossFacts.
Import Attention Loss.
Local Open Scope R_scope.

Abbreviation nonneg := (Forall (λ x : R, 0 <= x)).
Abbreviation zeros := (Forall (λ x : R, x = 0)).

Lemma reduce_sum_nonneg (l : list R) : nonneg l → 0 <= reduce_sum l.
Proof.
  induction 1 as [|x l Hx _ IH]; [unfold reduce_sum; cbn; lra|].
  rewrite AttentionFacts.reduce_sum_cons. lra.
Qed.

Lemma reduce_sum_zero (l : list R) : zeros l → reduce_sum l = 0.
Proof.
  induction 1 as [|x l Hx _ IH]; [done|].
  rewrite AttentionFacts.reduce_sum_cons. lra.
Qed.

Lemma nth_nonneg (row : list R) b : nonneg row → 0 <= nth b row 0.
Proof.
  intros Hrow. destruct (nth_in_or_default b row 0) as [Hin| ->]; [|lra].
  rewrite Forall_forall in Hrow. by apply Hrow, list_elem_of_In.
Qed.

Lemma nth_zero (row : list R) b : zeros row → nth b row 0 = 0.
Proof.
  intros Hrow. destruct (nth_in_or_default b row 0) as [Hin| ->]; [|done].
  rewrite Forall_forall in Hrow. by apply Hrow, list_elem_of_In.
Qed.

Lemma reduce_sum_0_nonneg (m : list (list R)) n :
  Forall nonneg m → nonneg (reduce_sum_0 m n).
Proof.
  intros Hm. apply Forall_forall. intros x (b & -> & _)%list_elem_of_fmap.
  apply reduce_sum_nonneg, Forall_forall.
  intros y (row & -> & Hrow)%list_elem_of_fmap.
  apply nth_nonneg. rewrite Forall_forall in Hm. by apply Hm.
Qed.

Lemma reduce_sum_0_zero (m : list (list R)) n :
  Forall zeros m → zeros (reduce_sum_0 m n).
Proof.
  intros Hm. apply Forall_forall. intros x (b & -> & _)%list_elem_of_fmap.
  apply reduce_sum_zero, Forall_forall.
  intros y (row & -> & Hrow)%list_elem_of_fmap.
  apply nth_zero. rewrite Forall_forall in Hm. by apply Hm.
Qed.

Lemma mul_nonneg (a b : list (list R)) :
  Forall nonneg a → Forall nonneg b → Forall nonneg (mul a b).
Proof.
  intros Ha Hb. apply Forall_forall. intros row [i Hi]%list_elem_of_lookup.
  apply lookup_zip_with_Some in Hi as (ra & rb & -> & Hra & Hrb).
  apply Forall_forall. intros x [j Hj]%list_elem_of_lookup.
  apply lookup_zip_with_Some in Hj as (xa & xb & -> & Hxa & Hxb).
  rewrite Forall_forall in Ha, Hb.
  pose proof (Ha ra (list_elem_of_lookup_2 _ _ _ Hra)) as Hra'.
  pose proof (Hb rb (list_elem_of_lookup_2 _ _ _ Hrb)) as Hrb'.
  rewrite Forall_forall in Hra', Hrb'.
  pose proof (Hra' xa (list_elem_of_lookup_2 _ _ _ Hxa)).
  pose proof (Hrb' xb (list_elem_of_lookup_2 _ _ _ Hxb)). nra.
Qed.


(** The guard: with weights that are not negative every divisor
    [total_size + 1e-12] is positive. *)
Lemma total_size_pos (weights : list (list R)) n :
  Forall nonneg weights → Forall (λ d, 0 < d) (total_size weights n).
Proof.
  intros Hw. unfold total_size. apply Forall_forall.
  intros d (x & -> & Hx)%list_elem_of_fmap.
  pose proof (reduce_sum_0_nonneg weights n Hw) as Hnn.
  rewrite Forall_forall in Hnn. specialize (Hnn x Hx).
  assert (0 < 1 / 10 ^ 12) by (apply Rdiv_lt_0_compat; [lra|apply pow_lt; lra]). lra.
Qed.


(** The quotient by [total_size + 1e-12]. *)
Lemma guarded_quotient_nonneg (xs : list R) (weights : list (list R)) n :
  nonneg xs → Forall nonneg weights →
  nonneg (zip_with Rdiv xs (total_size weights n)).
Proof.
  intros Hxs Hw. apply Forall_forall. intros q [i Hi]%list_elem_of_lookup.
  apply lookup_zip_with_Some in Hi as (x & d & -> & Hx & Hd).
  pose proof (total_size_pos weights n Hw) as Hpos.
  rewrite Forall_forall in Hxs, Hpos.
  pose proof (Hxs x (list_elem_of_lookup_2 _ _ _ Hx)).
  pose proof (Hpos d (list_elem_of_lookup_2 _ _ _ Hd)).
  apply Rmult_le_pos; [done|]. left. by apply Rinv_0_lt_compat.
Qed.

Lemma guarded_quotient_zero (xs ts : list R) :
  zeros xs → zeros (zip_with Rdiv xs ts).
Proof.
  intros Hxs. apply Forall_forall. intros q [i Hi]%list_elem_of_lookup.
  apply lookup_zip_with_Some in Hi as (x & t' & -> & Hx & Ht).
  rewrite Forall_forall in Hxs.
  rewrite (Hxs x (list_elem_of_lookup_2 _ _ _ Hx)). unfold Rdiv. lra.
Qed.

(** The cross-entropy of a target within the logits is not negative. *)
Lemma cross_entropy_nonneg (logits : list R) (target : nat) :
  (target < length logits)%nat → 0 <= sparse_softmax_cross_entropy logits target.
Proof.
  intros Ht. unfold sparse_softmax_cross_entropy.
  destruct (lookup_lt_is_Some_2 logits target Ht) as [x Hx].
  rewrite (nth_lookup_Some _ _ _ _ Hx).
  assert (exp x <= reduce_sum (map exp logits)) as Hle.
  { clear Ht. revert target Hx. induction logits as [|y l IH]; intros [|t] Hx; try done.
    - cbn in Hx. injection Hx as ->. cbn [map].
      rewrite AttentionFacts.reduce_sum_cons.
      assert (0 <= reduce_sum (map exp l)); [|lra].
      apply reduce_sum_nonneg, Forall_forall.
      intros z (w & -> & _)%list_elem_of_fmap. left. apply exp_pos.
    - cbn [map]. rewrite AttentionFacts.reduce_sum_cons.
      specialize (IH t Hx). pose proof (exp_pos y). lra. }
  assert (x <= ln (reduce_sum (map exp logits))); [|lra].
  rewrite <- (ln_exp x) at 1.
  destruct Hle as [Hlt| <-]; [|lra]. left. apply ln_increasing; [apply exp_pos|done].
Qed.

(** X20.  The sequence loss without a reward is not negative, for a
    batch of at least one sample, weights that are not negative and
    targets within the vocabulary of the logits, with or without the
    averages across time steps and across the batch. *)
Theorem sequence_loss_nonneg logits targets weights batch_size avg_t avg_b :
  (1 ≤ batch_size)%nat →
  Forall nonneg weights →
  Forall2 (Forall2 (λ (l : list R) (t : nat), (t < length l)%nat)) logits targets →
  0 <= sequence_loss logits targets weights batch_size avg_t avg_b None.
Proof.
  intros Hbatch Hw Hlt. unfold sequence_loss.
  set (crossent := zip_with _ logits targets).
  assert (Forall nonneg crossent) as Hc.
  { subst crossent. apply Forall_forall. intros row [i Hi]%list_elem_of_lookup.
    apply lookup_zip_with_Some in Hi as (ls & ts & -> & Hls & Hts).
    destruct (Forall2_lookup_l _ _ _ _ _ Hlt Hls) as (ts' & Hts' & Hrow).
    assert (ts' = ts) as -> by congruence.
    apply Forall_forall. intros x [j Hj]%list_elem_of_lookup.
    apply lookup_zip_with_Some in Hj as (l & t & -> & Hl & Ht).
    destruct (Forall2_lookup_l _ _ _ _ _ Hrow Hl) as (t' & Ht' & Hin).
    assert (t' = t) as -> by congruence.
    by apply cross_entropy_nonneg. }
  assert (nonneg (reduce_sum_0 (mul crossent weights) batch_size)) as Hperp
    by (by apply reduce_sum_0_nonneg, mul_nonneg).
  assert (0 <= reduce_sum
                 (if avg_t
                  then zip_with Rdiv (reduce_sum_0 (mul crossent weights) batch_size)
                         (total_size weights batch_size)
                  else reduce_sum_0 (mul crossent weights) batch_size)) as Hcost.
  { apply reduce_sum_nonneg. destruct avg_t; [|done].
    by apply guarded_quotient_nonneg. }
  destruct avg_b; [|done].
  apply Rmult_le_pos; [done|]. left. apply Rinv_0_lt_compat.
  apply lt_0_INR. lia.
Qed.


(** *** Positions of weight zero *)

Lemma zip_with_insert_l {A B C} (f : A → B → C) (l : list A) : ∀ (k : list B) t a,
  zip_with f (<[t := a]> l) k
  = match k !! t with
    | Some kb => <[t := f a kb]> (zip_with f l k)
    | None => zip_with f l k
    end.
Proof.
  induction l as [|x l IH]; intros k t a.
  - cbn. by destruct (k !! t).
  - destruct k as [|y k]; [by destruct t|].
    destruct t as [|t]; [done|]. cbn. rewrite IH. by destruct (k !! t).
Qed.

Lemma zip_with_insert_r {A B C} (f : A → B → C) (l : list A) : ∀ (k : list B) t b,
  zip_with f l (<[t := b]> k)
  = match l !! t with
    | Some la => <[t := f la b]> (zip_with f l k)
    | None => zip_with f l k
    end.
Proof.
  induction l as [|x l IH]; intros k t b; [done|].
  destruct k as [|y k]; [cbn; by destruct ((x :: l) !! t)|].
  destruct t as [|t]; [done|]. cbn. rewrite IH. by destruct (l !! t).
Qed.

(** An entry that meets the weight 0 does not change the weighted matrix. *)
Lemma mul_insert_masked (c w : list (list R)) t b crow y :
  c !! t = Some crow →
  (∀ wrow, w !! t = Some wrow → wrow !! b = Some 0 ∨ wrow !! b = None) →
  mul (<[t := <[b := y]> crow]> c) w = mul c w.
Proof.
  intros Hc Hw. unfold mul. rewrite zip_with_insert_l.
  destruct (w !! t) as [wrow|] eqn:Hwt; [|done].
  rewrite zip_with_insert_l.
  assert (zip_with (zip_with Rmult) c w !! t = Some (zip_with Rmult crow wrow)) as Hrow.
  { by rewrite lookup_zip_with, Hc, Hwt. }
  destruct (Hw wrow eq_refl) as [Hb|Hb]; rewrite Hb.
  - rewrite <- (list_insert_id _ _ _ Hrow) at 2. f_equal.
    apply list_insert_id'. intros Hlt. rewrite length_zip_with in Hlt.
    destruct (lookup_lt_is_Some_2 crow b) as [x Hx]; [lia|].
    rewrite lookup_zip_with, Hb, Hx. cbn. f_equal. lra.
  - by apply list_insert_id.
Qed.

Lemma mul_assoc (a b c : list (list R)) : mul (mul a b) c = mul a (mul b c).
Proof.
  unfold mul. revert b c. induction a as [|ra a IH]; intros [|rb b] [|rc c]; try done.
  cbn. rewrite IH. f_equal.
  revert rb rc. induction ra as [|x ra IHr]; intros [|y rb] [|z rc]; try done.
  cbn. rewrite IHr. f_equal. lra.
Qed.

Lemma mul_masked_entry (r w : list (list R)) t b wrow :
  w !! t = Some wrow → wrow !! b = Some 0 →
  ∀ row, mul r w !! t = Some row → row !! b = Some 0 ∨ row !! b = None.
Proof.
  intros Hw Hb row Hrow. unfold mul in Hrow.
  apply lookup_zip_with_Some in Hrow as (rrow & wrow' & -> & Hr & Hw').
  assert (wrow' = wrow) as -> by congruence.
  rewrite lookup_zip_with, Hb. destruct (rrow !! b); cbn; [left|by right].
  f_equal. lra.
Qed.

(** X22.  For a batch of at least one sample, weights that are not
    negative and targets within the vocabulary of the logits, the
    sequence loss does not depend on what the logits and the targets
    hold at a position whose weight is 0: replacing either entry there,
    by logits that still contain the target or by a target within the
    logits, leaves the loss as it is, with or without reward and
    averages.  (The weights built by [get_batch] are 0 on the padding
    of the targets.) *)
Theorem sequence_loss_ignores_masked logits targets weights batch_size avg_t avg_b reward
    t b wrow :
  (1 ≤ batch_size)%nat →
  Forall nonneg weights →
  Forall2 (Forall2 (λ (l : list R) (t : nat), (t < length l)%nat)) logits targets →
  weights !! t = Some wrow → wrow !! b = Some 0 →
  (∀ row x trow tg,
     logits !! t = Some row → targets !! t = Some trow → trow !! b = Some tg →
     (tg < length x)%nat →
     sequence_loss (<[t := <[b := x]> row]> logits) targets weights batch_size
       avg_t avg_b reward
     = sequence_loss logits targets weights batch_size avg_t avg_b reward) ∧
  (∀ row y lrow l,
     targets !! t = Some row → logits !! t = Some lrow → lrow !! b = Some l →
     (y < length l)%nat →
     sequence_loss logits (<[t := <[b := y]> row]> targets) weights batch_size
       avg_t avg_b reward
     = sequence_loss logits targets weights batch_size avg_t avg_b reward).
Proof.
  intros _ _ _ Hw Hb.
  assert (∀ c c' : list (list R),
            (∀ w', (∀ wrow', w' !! t = Some wrow' →
                             wrow' !! b = Some 0 ∨ wrow' !! b = None) →
                   mul c' w' = mul c w') →
            mul match reward with Some reward => mul c' reward | None => c' end weights
            = mul match reward with Some reward => mul c reward | None => c end weights)
    as Hmasked.
  { intros c c' Hcc. destruct reward as [r|].
    - rewrite !mul_assoc. apply Hcc. by eapply mul_masked_entry.
    - apply Hcc. intros wrow' Hw'. left. congruence. }
  split.
  - intros row x trow tg Hrow Ht Htg _. unfold sequence_loss.
    rewrite zip_with_insert_l, Ht, zip_with_insert_l, Htg.
    rewrite (Hmasked (zip_with (zip_with sparse_softmax_cross_entropy) logits targets));
      [done|].
    intros w' Hw'. apply mul_insert_masked; [|done].
    by rewrite lookup_zip_with, Hrow, Ht.
  - intros row y lrow lg Hrow Hl Hlg _. unfold sequence_loss.
    rewrite zip_with_insert_r, Hl, zip_with_insert_r, Hlg.
    rewrite (Hmasked (zip_with (zip_with sparse_softmax_cross_entropy) logits targets));
      [done|].
    intros w' Hw'. apply mul_insert_masked; [|done].
    by rewrite lookup_zip_with, Hl, Hrow.
Qed.

(** *** The baseline loss *)

Lemma mul_zero_l (a b : list (list R)) : Forall zeros a → Forall zeros (mul a b).
Proof.
  intros Ha. apply Forall_forall. intros row [i Hi]%list_elem_of_lookup.
  apply lookup_zip_with_Some in Hi as (ra & rb & -> & Hra & Hrb).
  apply Forall_forall. intros x [j Hj]%list_elem_of_lookup.
  apply lookup_zip_with_Some in Hj as (xa & xb & -> & Hxa & Hxb).
  rewrite Forall_forall in Ha.
  pose proof (Ha ra (list_elem_of_lookup_2 _ _ _ Hra)) as Hra'.
  rewrite Forall_forall in Hra'.
  rewrite (Hra' xa (list_elem_of_lookup_2 _ _ _ Hxa)). lra.
Qed.

(** X23.  For a baseline with at least one time step and weights that
    are not negative, the baseline loss is not negative, and it is 0
    when the baseline equals the reward of every sample at every time
    step. *)
Theorem baseline_loss_nonneg baseline reward weights columns avg_t avg_b :
  baseline ≠ [] →
  Forall nonneg weights →
  0 <= baseline_loss baseline reward weights columns avg_t avg_b ∧
  (Forall (λ row, row = reward) baseline →
   baseline_loss baseline reward weights columns avg_t avg_b = 0).
Proof.
  intros Hne Hw. unfold baseline_loss.
  assert (0 < INR (length baseline)) as Hsteps.
  { apply lt_0_INR. destruct baseline; [done|cbn; lia]. }
  set (cost := map _ baseline).
  assert (Forall nonneg cost) as Hc.
  { subst cost. apply Forall_forall. intros row (brow & -> & _)%list_elem_of_fmap.
    apply Forall_forall. intros x [j Hj]%list_elem_of_lookup.
    apply lookup_zip_with_Some in Hj as (r & b & -> & _ & _). apply pow2_ge_0. }
  split.
  - assert (nonneg (reduce_sum_0 (mul cost weights) columns)) as Hcols
      by (by apply reduce_sum_0_nonneg, mul_nonneg).
    assert (0 <= reduce_sum
                   (if avg_t
                    then zip_with Rdiv (reduce_sum_0 (mul cost weights) columns)
                           (total_size weights columns)
                    else reduce_sum_0 (mul cost weights) columns)) as Hcost.
    { apply reduce_sum_nonneg. destruct avg_t; [|done].
      by apply guarded_quotient_nonneg. }
    destruct avg_b; [|done].
    apply Rmult_le_pos; [done|]. left. by apply Rinv_0_lt_compat.
  - intros Hexact.
    assert (Forall zeros cost) as Hz.
    { subst cost. apply Forall_forall. intros row (brow & -> & Hb)%list_elem_of_fmap.
      rewrite Forall_forall in Hexact. rewrite (Hexact brow Hb).
      apply Forall_forall. intros x [j Hj]%list_elem_of_lookup.
      apply lookup_zip_with_Some in Hj as (r & b & -> & Hr & Hb').
      assert (r = b) as -> by congruence. lra. }
    assert (zeros (reduce_sum_0 (mul cost weights) columns)) as Hcols
      by (by apply reduce_sum_0_zero, mul_zero_l).
    assert (reduce_sum
              (if avg_t
               then zip_with Rdiv (reduce_sum_0 (mul cost weights) columns)
                      (total_size weights columns)
               else reduce_sum_0 (mul cost weights) columns) = 0) as ->.
    { apply reduce_sum_zero. destruct avg_t; [|done]. by apply guarded_quotient_zero. }
    destruct avg_b; [|done]. unfold Rdiv. lra.
Qed.

(** [sequence_loss_nonneg] on one time step and two samples. *)
Lemma sequence_loss_nonneg_witness :
  (1 ≤ 2)%nat ∧
  Forall nonneg [[1; 0]] ∧
  Forall2 (Forall2 (λ (l : list R) (t : nat), (t < length l)%nat))
    [[[0; 1]; [1; 0]]] [[0%nat; 1%nat]] ∧
  0 <= sequence_loss [[[0; 1]; [1; 0]]] [[0%nat; 1%nat]] [[1; 0]] 2 false true None.
Proof.
  assert (1 ≤ 2)%nat as Hbatch by lia.
  assert (Forall nonneg [[1; 0]]) as Hw by (repeat constructor; lra).
  assert (Forall2 (Forall2 (λ (l : list R) (t : nat), (t < length l)%nat))
            [[[0; 1]; [1; 0]]] [[0%nat; 1%nat]]) as Hlt
    by (repeat constructor; cbn; lia).
  split; [exact Hbatch|]. split; [exact Hw|]. split; [exact Hlt|].
  exact (sequence_loss_nonneg _ _ _ 2 false true Hbatch Hw Hlt).
Defined.


(** [sequence_loss_ignores_masked] at the second sample, whose weight is 0. *)
Lemma sequence_loss_ignores_masked_witness :
  (1 ≤ 2)%nat ∧
  Forall nonneg [[1; 0]] ∧
  Forall2 (Forall2 (λ (l : list R) (t : nat), (t < length l)%nat))
    [[[0; 1]; [1; 0]]] [[0%nat; 1%nat]] ∧
  [[1; 0]] !! 0%nat = Some [1; 0] ∧ [1; 0] !! 1%nat = Some 0 ∧
  (1 < length [5; 7])%nat ∧
  sequence_loss (<[0%nat := <[1%nat := [5; 7]]> [[0; 1]; [1; 0]]]> [[[0; 1]; [1; 0]]])
    [[0%nat; 1%nat]] [[1; 0]] 2 false true None
  = sequence_loss [[[0; 1]; [1; 0]]] [[0%nat; 1%nat]] [[1; 0]] 2 false true None.
Proof.
  assert (1 ≤ 2)%nat as Hbatch by lia.
  assert (Forall nonneg [[1; 0]]) as Hw by (repeat constructor; lra).
  assert (Forall2 (Forall2 (λ (l : list R) (t : nat), (t < length l)%nat))
            [[[0; 1]; [1; 0]]] [[0%nat; 1%nat]]) as Hlt
    by (repeat constructor; cbn; lia).
  assert (1 < length [5; 7])%nat as Hnew by (cbn; lia).
  split; [exact Hbatch|]. split; [exact Hw|]. split; [exact Hlt|].
  split; [reflexivity|]. split; [reflexivity|]. split; [exact Hnew|].
  exact (proj1 (sequence_loss_ignores_masked [[[0; 1]; [1; 0]]] [[0%nat; 1%nat]] [[1; 0]] 2
                  false true None 0%nat 1%nat [1; 0] Hbatch Hw Hlt eq_refl eq_refl)
           [[0; 1]; [1; 0]] [5; 7] [0%nat; 1%nat] 1%nat eq_refl eq_refl eq_refl Hnew).
Defined.

(** [baseline_loss_nonneg] on one time step and two samples. *)
Lemma baseline_loss_nonneg_witness :
  [[2; 3]] ≠ [] ∧
  Forall nonneg [[1; 0]] ∧
  0 <= baseline_loss [[2; 3]] [1; 1] [[1; 0]] 2 false true.
Proof.
  assert ([[2; 3]] ≠ @nil (list R)) as Hne by discriminate.
  assert (Forall nonneg [[1; 0]]) as Hw by (repeat constructor; lra).
  split; [exact Hne|]. split; [exact Hw|].
  exact (proj1 (baseline_loss_nonneg [[2; 3]] [1; 1] [[1; 0]] 2 false true Hne Hw)).
Defined.

End LossFacts.

(** ** The BLEU reward: truncation and n-gram counts *)

Module BleuCounts.
Import Bleu NgramReference.

Local Open Scope Z_scope.

(** X24.  [truncate] returns the longest prefix without an
    end-of-sequence token: what it drops is empty or starts with the
    first end-of-sequence token. *)
Theorem truncate_longest_prefix (EOS_ID : Z) (s : list Z) :
  ∃ rest, s = truncate EOS_ID s ++ rest ∧
          (EOS_ID ∉ truncate EOS_ID s) ∧
          (rest = [] ∨ ∃ post, rest = EOS_ID :: post).
Proof.
  unfold truncate.
  destruct (PyLists.where_equal_first s EOS_ID)
    as [[Hnot ->]|(pre & post & rest & -> & Hpre & ->)].
  - exists []. cbn [app]. rewrite firstn_all, app_nil_r. by split_and!; [|  |left].
  - exists (EOS_ID :: post). cbn [app].
    rewrite take_app_length. split_and!; [done|done|right; by eexists].
Qed.

#[local] Instance Zge_antisymm : AntiSymm (=) Z.ge.
Proof. intros x y ??. lia. Qed.
#[local] Instance Zge_trans : Transitive Z.ge.
Proof. intros x y z ??. lia. Qed.
#[local] Instance Zge_total : Total Z.ge.
Proof. intros x y. lia. Qed.

Lemma StronglySorted_remove_dups (R : relation Z) (l : list Z) :
  StronglySorted R l → StronglySorted R (remove_dups l).
Proof.
  induction 1 as [|x l Hl IH Hx]; [constructor|].
  cbn [remove_dups]. destruct (decide_rel elem_of x l); [done|].
  constructor; [done|]. apply Forall_forall. intros y Hy.
  apply (proj1 (elem_of_remove_dups _ _)) in Hy.
  rewrite Forall_forall in Hx. by apply Hx.
Qed.

(** The distinct values in descending order depend on the values only. *)
Lemma unique_sorted_ext (a b : list Z) :
  (∀ x, x ∈ a ↔ x ∈ b) →
  unique (sort_descending a) = unique (sort_descending b).
Proof.
  intros Hab. unfold unique, sort_descending.
  apply (StronglySorted_unique Z.ge).
  - apply StronglySorted_remove_dups, StronglySorted_merge_sort; apply _.
  - apply StronglySorted_remove_dups, StronglySorted_merge_sort; apply _.
  - apply NoDup_Permutation; [apply NoDup_remove_dups..|].
    intros x. by rewrite !elem_of_remove_dups, !merge_sort_Permutation.
Qed.

Lemma occurrences_app v (a b : list Z) :
  occurrences v (a ++ b) = occurrences v a + occurrences v b.
Proof. unfold occurrences. rewrite filter_app, length_app. lia. Qed.

Lemma occurrences_perm v (a b : list Z) : a ≡ₚ b → occurrences v a = occurrences v b.
Proof. intros Hab. unfold occurrences. by rewrite Hab. Qed.

Lemma occurrences_nonneg v (a : list Z) : 0 ≤ occurrences v a.
Proof. unfold occurrences. lia. Qed.

Lemma occurrences_absent v (a : list Z) : v ∉ a → occurrences v a = 0.
Proof.
  unfold occurrences. induction a as [|x a IH]; intros Hv; [done|].
  apply not_elem_of_cons in Hv as [Hne Hv]. rewrite filter_cons.
  destruct (decide (x = v)); [congruence|]. by apply IH.
Qed.

Lemma occurrences_cons v x (a : list Z) :
  occurrences v (x :: a) = (if decide (x = v) then 1 else 0) + occurrences v a.
Proof.
  unfold occurrences. rewrite filter_cons. destruct (decide (x = v)); cbn [length]; lia.
Qed.

Lemma occurrences_NoDup v (a : list Z) : NoDup a → v ∈ a → occurrences v a = 1.
Proof.
  induction 1 as [|x a Hx Ha IH]; intros Hv.
  - by apply elem_of_nil in Hv.
  - rewrite occurrences_cons. destruct (decide (x = v)) as [->|Hne].
    + by rewrite occurrences_absent.
    + rewrite IH; [done|]. apply elem_of_cons in Hv as [->|Hv]; done.
Qed.

(** The counts of the sorted concatenation [ngrams ++ hyp_plus_ref],
    less one, are the occurrences of each distinct n-gram. *)
Lemma counts_less_one (xs other : list Z) :
  (∀ x, x ∈ xs → x ∈ other) →
  map (λ c, c - 1) (counts (sort_descending (xs ++ unique other)))
  = map (λ v, occurrences v xs) (unique (sort_descending other)).
Proof.
  intros Hsub. unfold counts. rewrite map_map.
  rewrite (unique_sorted_ext (xs ++ unique other) other).
  2:{ intros x. unfold unique. rewrite elem_of_app, elem_of_remove_dups.
      split; [intros [?|?]; auto|auto]. }
  apply map_ext_in. intros v Hv. apply list_elem_of_In in Hv.
  unfold unique, sort_descending in Hv.
  rewrite elem_of_remove_dups, merge_sort_Permutation in Hv.
  change (Z.of_nat (length (filter (λ y, y = v) ?l))) with (occurrences v l).
  unfold sort_descending.
  rewrite (occurrences_perm v _ _ (merge_sort_Permutation Z.ge _)).
  rewrite occurrences_app, (occurrences_NoDup v (unique other)); [lia| |].
  - apply NoDup_remove_dups.
  - by apply elem_of_remove_dups.
Qed.

Lemma sum_perm (f : Z → Z) (a b : list Z) :
  a ≡ₚ b → foldr Z.add 0 (map f a) = foldr Z.add 0 (map f b).
Proof. induction 1; cbn [map foldr]; lia. Qed.

(** Without overflow, the [int64] sum is the sum. *)
Lemma reduce_sum64_exact (xs : list Z) :
  Forall (λ x, 0 ≤ x) xs → foldr Z.add 0 xs < 2 ^ 63 →
  reduce_sum64 xs = foldr Z.add 0 xs ∧ 0 ≤ foldr Z.add 0 xs.
Proof.
  unfold reduce_sum64. induction 1 as [|x xs Hx Hxs IH]; cbn [foldr]; intros Hlt.
  - done.
  - destruct IH as [-> Hge]; [lia|]. split; [|lia].
    unfold add64, wrap64. rewrite Z.mod_small; lia.
Qed.

(** Every element of [xs] is counted once under its own value. *)
Lemma sum_occurrences (xs V : list Z) :
  NoDup V → (∀ x, x ∈ xs → x ∈ V) →
  foldr Z.add 0 (map (λ v, occurrences v xs) V) = Z.of_nat (length xs).
Proof.
  intros HV. induction xs as [|x xs IH]; intros Hsub.
  - clear. induction V as [|v V IH]; [done|]. cbn [map foldr]. by rewrite IH.
  - assert (x ∈ V) as Hx by (apply Hsub; left).
    apply list_elem_of_split in Hx as (V1 & V2 & ->).
    assert (∀ W, x ∉ W →
      foldr Z.add 0 (map (λ v, occurrences v (x :: xs)) W)
      = foldr Z.add 0 (map (λ v, occurrences v xs) W)) as Hout.
    { intros W HW. f_equal. apply map_ext_in. intros v Hv.
      apply list_elem_of_In in Hv. rewrite occurrences_cons.
      destruct (decide (x = v)) as [->|]; done. }
    apply NoDup_app in HV as (_ & H1 & H2). apply NoDup_cons in H2 as [H2 _].
    assert (x ∉ V1) as Hx1 by (intros Hin; apply (H1 x Hin); left).
    specialize (IH ltac:(intros y Hy; apply Hsub; by right)).
    rewrite map_app, foldr_app in IH |- *. cbn [map foldr] in IH |- *.
    assert (∀ (W : list Z) c, foldr Z.add c W = foldr Z.add 0 W + c) as Hshift.
    { clear. induction W as [|w W IH]; intros c; cbn [foldr]; [lia|].
      rewrite (IH c). lia. }
    rewrite Hshift in IH. rewrite Hshift.
    rewrite (Hout V1 Hx1), (Hout V2 H2).
    rewrite occurrences_cons, decide_True by done. cbn [length]. lia.
Qed.

Lemma sum_le (f g : Z → Z) (V : list Z) :
  (∀ v, f v ≤ g v) → foldr Z.add 0 (map f V) ≤ foldr Z.add 0 (map g V).
Proof.
  intros Hfg. induction V as [|v V IH]; cbn [map foldr]; [lia|].
  specialize (Hfg v). lia.
Qed.

(** X25.  Each of the four terms of the score is the smoothed modified
    n-gram precision: the numerator is one more than the clipped
    matches between the hypothesis' and the reference's n-grams, the
    denominator one more than the number of n-grams of the hypothesis. *)
Theorem ngram_step_precision (tf_log : spec_float → spec_float)
    (hyp ref : list Z) (score : spec_float) (ngram : list Z → list Z) :
  Z.of_nat (length (ngram hyp)) < 2 ^ 63 →
  ngram_step tf_log hyp ref score ngram
  = fadd32 score
      (fdiv32
         (tf_log
            (fdiv32
               (fadd32 (to_float (clipped_matches (ngram hyp) (ngram ref)))
                       (to_float 1))
               (fadd32 (to_float (Z.of_nat (length (ngram hyp)))) (to_float 1))))
         (to_float 4)).
Proof.
  intros Hlen. unfold ngram_step.
  set (hn := ngram hyp) in *. set (rn := ngram ref).
  rewrite (counts_less_one hn (hn ++ rn)) by (intros x Hx; apply elem_of_app; by left).
  assert (map (λ c, c - 1) (counts (sort_descending (rn ++ unique (hn ++ rn))))
          = map (λ v, occurrences v rn) (unique (sort_descending (hn ++ rn)))) as ->.
  { apply counts_less_one. intros x Hx. apply elem_of_app. by right. }
  set (V := unique (sort_descending (hn ++ rn))).
  assert (NoDup V) as HV by apply NoDup_remove_dups.
  assert (∀ x, x ∈ V ↔ x ∈ hn ++ rn) as HVel.
  { intros x. unfold V, unique, sort_descending.
    by rewrite elem_of_remove_dups, merge_sort_Permutation. }
  assert (foldr Z.add 0 (map (λ v, occurrences v hn) V) = Z.of_nat (length hn)) as Hden.
  { apply sum_occurrences; [done|]. intros x Hx. apply HVel, elem_of_app. by left. }
  rewrite zip_with_fmap_l, zip_with_fmap_r, zip_with_diag.
  destruct (reduce_sum64_exact (map (λ v, occurrences v hn) V)) as [-> _].
  { apply Forall_forall. intros c Hc. apply list_elem_of_fmap in Hc as (v & -> & _).
    apply occurrences_nonneg. }
  { by rewrite Hden. }
  destruct (reduce_sum64_exact
              ((λ v, Z.min (occurrences v hn) (occurrences v rn)) <$> V)) as [-> _].
  { apply Forall_forall. intros c Hc. apply list_elem_of_fmap in Hc as (v & -> & _).
    pose proof (occurrences_nonneg v hn). pose proof (occurrences_nonneg v rn). lia. }
  { eapply Z.le_lt_trans; [|by rewrite <- Hden in Hlen].
    apply (sum_le (λ v, Z.min (occurrences v hn) (occurrences v rn))). intros v. lia. }
  rewrite Hden. unfold clipped_matches.
  rewrite (sum_perm _ V (remove_dups (hn ++ rn))); [done|].
  apply NoDup_Permutation; [done|apply NoDup_remove_dups|].
  intros x. by rewrite HVel, elem_of_remove_dups.
Qed.

Lemma wrap64_small z : - 2 ^ 63 ≤ z < 2 ^ 63 → wrap64 z = z.
Proof. intros Hz. unfold wrap64. rewrite Z.mod_small; lia. Qed.

Lemma wrap64_add_l x y : wrap64 (wrap64 x + y) = wrap64 (x + y).
Proof.
  unfold wrap64. f_equal.
  replace ((x + 2 ^ 63) mod 2 ^ 64 - 2 ^ 63 + y + 2 ^ 63)
    with ((x + 2 ^ 63) mod 2 ^ 64 + y) by lia.
  rewrite Zplus_mod_idemp_l. f_equal. lia.
Qed.

Lemma slice_lookup a b (s : list Z) i :
  slice a b s !! i
  = if decide (a + i < length s - b)%nat then s !! (a + i)%nat else None.
Proof.
  unfold slice. rewrite lookup_drop. destruct (decide _).
  - by rewrite lookup_take_lt.
  - rewrite lookup_take_ge; [done|lia].
Qed.

(** An entry of a slice is an entry of the sequence. *)
Lemma slice_lookup_Some a b (s : list Z) i x :
  slice a b s !! i = Some x → s !! (i + a)%nat = Some x.
Proof.
  rewrite slice_lookup, (Nat.add_comm i a). by destruct (decide _).
Qed.

(** One digit of the code: the last token and the code of the rest. *)
Lemma digit_step m x x' d d' :
  1 ≤ d ≤ m → 1 ≤ d' ≤ m → x * m + d = x' * m + d' → x = x' ∧ d = d'.
Proof. intros Hd Hd' Heq. assert (x = x') by nia. subst. lia. Qed.

Section codes.

Context (m : Z).
Hypothesis Hfit : m ^ 4 + m ^ 3 + m ^ 2 + m < 2 ^ 63.

Lemma powers_fit :
  1 ≤ m →
  m ≤ m * m ∧ m * m ≤ m * m * m ∧ m * m * m ≤ m * m * m * m ∧
  m * m * m * m + m * m * m + m * m + m < 2 ^ 63.
Proof.
  intros Hm. replace (m ^ 4) with (m * m * m * m) in Hfit by ring.
  replace (m ^ 3) with (m * m * m) in Hfit by ring.
  replace (m ^ 2) with (m * m) in Hfit by ring.
  split_and!; [nia|nia|nia|done].
Qed.

Lemma digit_product a p : 0 ≤ a ≤ m → 0 ≤ p → 0 ≤ a * p ≤ p * m.
Proof. intros Ha Hp. split; [nia|]. rewrite (Z.mul_comm p m). apply Z.mul_le_mono_nonneg_r; lia. Qed.

Lemma code2 a b :
  1 ≤ a ≤ m → 1 ≤ b ≤ m → add64 (mul64 a m) b = a * m + b.
Proof.
  intros Ha Hb. destruct powers_fit as (H2 & H3 & H4 & Hsum); [lia|].
  pose proof (digit_product a m ltac:(lia) ltac:(lia)).
  unfold add64, mul64. rewrite (wrap64_small (a * m)) by lia.
  by rewrite wrap64_small by lia.
Qed.

Lemma code3 a b c :
  1 ≤ a ≤ m → 1 ≤ b ≤ m → 1 ≤ c ≤ m →
  add64 (add64 (mul64 a (mul64 m m)) (mul64 b m)) c = (a * m + b) * m + c.
Proof.
  intros Ha Hb Hc. destruct powers_fit as (H2 & H3 & H4 & Hsum); [lia|].
  pose proof (digit_product a (m * m) ltac:(lia) ltac:(lia)).
  pose proof (digit_product b m ltac:(lia) ltac:(lia)).
  unfold add64, mul64. rewrite (wrap64_small (m * m)) by lia.
  rewrite (wrap64_small (a * (m * m))) by lia.
  rewrite (wrap64_small (b * m)) by lia.
  rewrite (wrap64_small (a * (m * m) + b * m)) by lia.
  rewrite wrap64_small by lia. ring.
Qed.

Lemma code4 a b c d :
  1 ≤ a ≤ m → 1 ≤ b ≤ m → 1 ≤ c ≤ m → 1 ≤ d ≤ m →
  add64 (add64 (add64 (mul64 a (mul64 (mul64 m m) m)) (mul64 b (mul64 m m)))
               (mul64 c m)) d
  = ((a * m + b) * m + c) * m + d.
Proof.
  intros Ha Hb Hc Hd. destruct powers_fit as (H2 & H3 & H4 & Hsum); [lia|].
  pose proof (digit_product a (m * m * m) ltac:(lia) ltac:(lia)).
  pose proof (digit_product b (m * m) ltac:(lia) ltac:(lia)).
  pose proof (digit_product c m ltac:(lia) ltac:(lia)).
  unfold add64, mul64. rewrite (wrap64_small (m * m)) by lia.
  rewrite (wrap64_small (m * m * m)) by lia.
  rewrite (wrap64_small (a * (m * m * m))) by lia.
  rewrite (wrap64_small (b * (m * m))) by lia.
  rewrite (wrap64_small (c * m)) by lia.
  rewrite (wrap64_small (a * (m * m * m) + b * (m * m))) by lia.
  rewrite (wrap64_small (a * (m * m * m) + b * (m * m) + c * m)) by lia.
  rewrite wrap64_small by lia. ring.
Qed.

Ltac open_code :=
  repeat match goal with
  | H : zip_with _ _ _ !! _ = Some _ |- _ =>
      apply lookup_zip_with_Some in H as (? & ? & ? & ? & ?)
  | H : map _ _ !! _ = Some _ |- _ =>
      apply list_lookup_fmap_Some in H as (? & ? & ?)
  | H : slice _ _ _ !! _ = Some _ |- _ => apply slice_lookup_Some in H
  end.

Ltac token_bounds Hl :=
  repeat match goal with
  | H : _ !! _ = Some ?a |- _ =>
      lazymatch goal with
      | _ : 1 ≤ a ≤ m |- _ => fail
      | _ => assert (1 ≤ a ≤ m) by exact (Forall_lookup_1 _ _ _ _ Hl H)
      end
  end.

Lemma lookup_code2 (l : list Z) i c :
  Forall (λ x, 1 ≤ x ≤ m) l →
  zip_with add64 (map (λ x, mul64 x m) (slice 0 1 l)) (slice 1 0 l) !! i = Some c →
  ∃ a b, l !! i = Some a ∧ l !! (i + 1)%nat = Some b ∧
         1 ≤ a ≤ m ∧ 1 ≤ b ≤ m ∧ c = a * m + b.
Proof.
  intros Hl Hc. open_code. subst. rewrite Nat.add_0_r in *. token_bounds Hl.
  eexists _, _. split_and!; [done || lia..|]. by apply code2.
Qed.

Lemma lookup_code3 (l : list Z) i c :
  Forall (λ x, 1 ≤ x ≤ m) l →
  zip_with add64
    (zip_with add64 (map (λ x, mul64 x (mul64 m m)) (slice 0 2 l))
                    (map (λ x, mul64 x m) (slice 1 1 l)))
    (slice 2 0 l) !! i = Some c →
  ∃ a b d, l !! i = Some a ∧ l !! (i + 1)%nat = Some b ∧ l !! (i + 2)%nat = Some d ∧
           1 ≤ a ≤ m ∧ 1 ≤ b ≤ m ∧ 1 ≤ d ≤ m ∧ c = (a * m + b) * m + d.
Proof.
  intros Hl Hc. open_code. subst. rewrite Nat.add_0_r in *. token_bounds Hl.
  eexists _, _, _. split_and!; [done || lia..|]. by apply code3.
Qed.

Lemma lookup_code4 (l : list Z) i c :
  Forall (λ x, 1 ≤ x ≤ m) l →
  zip_with add64
    (zip_with add64
       (zip_with add64 (map (λ x, mul64 x (mul64 (mul64 m m) m)) (slice 0 3 l))
                       (map (λ x, mul64 x (mul64 m m)) (slice 1 2 l)))
       (map (λ x, mul64 x m) (slice 2 1 l)))
    (slice 3 0 l) !! i = Some c →
  ∃ a b d e, l !! i = Some a ∧ l !! (i + 1)%nat = Some b ∧
             l !! (i + 2)%nat = Some d ∧ l !! (i + 3)%nat = Some e ∧
             1 ≤ a ≤ m ∧ 1 ≤ b ≤ m ∧ 1 ≤ d ≤ m ∧ 1 ≤ e ≤ m ∧
             c = ((a * m + b) * m + d) * m + e.
Proof.
  intros Hl Hc. open_code. subst. rewrite Nat.add_0_r in *. token_bounds Hl.
  eexists _, _, _, _. split_and!; [done || lia..|]. by apply code4.
Qed.

Context (s s' : list Z).
Hypothesis Hs : Forall (λ x, 1 ≤ x ≤ m) s.
Hypothesis Hs' : Forall (λ x, 1 ≤ x ≤ m) s'.

(** X26.  When no token is 0 and the fourth power of the largest
    token fits [int64], the n-gram codes are faithful: two positions
    carry the same code only if they carry the same n-gram. *)
Theorem ngram_codes_injective (k : nat) (f : list Z → list Z) (i j : nat) (c : Z) :
  ngrams m !! k = Some f →
  f s !! i = Some c → f s' !! j = Some c →
  ∀ d, (d ≤ k)%nat → s !! (i + d)%nat = s' !! (j + d)%nat.
Proof.
  intros Hf Hc Hc' d Hd.
  destruct k as [|[|[|[|k]]]]; cbv [ngrams] in Hf; cbn [lookup list_lookup] in Hf;
    [injection Hf as <-..|done].
  - replace d with 0%nat by lia. rewrite !Nat.add_0_r. congruence.
  - apply (lookup_code2 s i c Hs) in Hc as (a & b & Ha & Hb & ? & ? & ->).
    apply (lookup_code2 s' j _ Hs') in Hc' as (a' & b' & Ha' & Hb' & ? & ? & Heq).
    apply digit_step in Heq as [-> ->]; [|done..].
    destruct d as [|[|d]]; [rewrite !Nat.add_0_r|..|lia]; congruence.
  - apply (lookup_code3 s i c Hs) in Hc as (a & b & e & Ha & Hb & He & ? & ? & ? & ->).
    apply (lookup_code3 s' j _ Hs') in Hc'
      as (a' & b' & e' & Ha' & Hb' & He' & ? & ? & ? & Heq).
    apply digit_step in Heq as [Heq ->]; [|done..].
    apply digit_step in Heq as [-> ->]; [|done..].
    destruct d as [|[|[|d]]]; [rewrite !Nat.add_0_r|..|lia]; congruence.
  - apply (lookup_code4 s i c Hs) in Hc
      as (a & b & e & g & Ha & Hb & He & Hg & ? & ? & ? & ? & ->).
    apply (lookup_code4 s' j _ Hs') in Hc'
      as (a' & b' & e' & g' & Ha' & Hb' & He' & Hg' & ? & ? & ? & ? & Heq).
    apply digit_step in Heq as [Heq ->]; [|done..].
    apply digit_step in Heq as [Heq ->]; [|done..].
    apply digit_step in Heq as [-> ->]; [|done..].
    destruct d as [|[|[|[|d]]]]; [rewrite !Nat.add_0_r|..|lia]; congruence.
Qed.

End codes.

(** X27.  A token 0 makes the codes ambiguous: for every largest token
    [m] and every token [a], the bigram [(a, m)] and the bigram
    [(a + 1, 0)] have the same code, so that the two count as a match. *)
Theorem bigram_code_collision (m a : Z) :
  ∃ f, ngrams m !! 1%nat = Some f ∧ f [a; m] = f [a + 1; 0].
Proof.
  eexists. split; [reflexivity|].
  cbv [slice]. cbn [length Nat.sub take drop map zip_with]. f_equal.
  unfold add64, mul64. rewrite !wrap64_add_l. f_equal. ring.
Qed.

Lemma ngram_step_precision_witness :
  Z.of_nat (length [3; 4; 3]) < 2 ^ 63 ∧
  ngram_step (λ x, x) [3; 4; 3] [3; 3; 5] (S754_zero false) (λ s, s)
  = fadd32 (S754_zero false)
      (fdiv32
         (fdiv32 (fadd32 (to_float (clipped_matches [3; 4; 3] [3; 3; 5])) (to_float 1))
                 (fadd32 (to_float (Z.of_nat (length [3; 4; 3]))) (to_float 1)))
         (to_float 4)).
Proof.
  assert (Z.of_nat (length [3; 4; 3]) < 2 ^ 63) as Hlen by reflexivity.
  split; [exact Hlen|].
  exact (ngram_step_precision (λ x, x) [3; 4; 3] [3; 3; 5] (S754_zero false)
           (λ s, s) Hlen).
Defined.

Lemma ngram_codes_injective_witness :
  let f := nth 1 (ngrams 5) (λ s, s) in
  f [3; 4; 5] !! 0%nat = Some 19 ∧ f [1; 3; 4] !! 1%nat = Some 19 ∧
  [3; 4; 5] !! 1%nat = [1; 3; 4] !! 2%nat.
Proof.
  intros f.
  assert (5 ^ 4 + 5 ^ 3 + 5 ^ 2 + 5 < 2 ^ 63) as Hfit by reflexivity.
  assert (Forall (λ x, 1 ≤ x ≤ 5) [3; 4; 5]) as Hs
    by (repeat (constructor; [split; discriminate|]); constructor).
  assert (Forall (λ x, 1 ≤ x ≤ 5) [1; 3; 4]) as Hs'
    by (repeat (constructor; [split; discriminate|]); constructor).
  assert (f [3; 4; 5] !! 0%nat = Some 19) as Hc by (vm_compute; reflexivity).
  assert (f [1; 3; 4] !! 1%nat = Some 19) as Hc' by (vm_compute; reflexivity).
  split_and!; [exact Hc|exact Hc'|].
  exact (ngram_codes_injective 5 Hfit [3; 4; 5] [1; 3; 4] Hs Hs' 1%nat f 0%nat 1%nat 19
           eq_refl Hc Hc' 1%nat (le_n 1)).
Defined.

End BleuCounts.
